(** * The [config] command of the threatexchange CLI

    A shallow embedding of
    [python-threatexchange/threatexchange/cli/config_cmd.py]:
    the schema-driven synthesis of the [config collab edit <api>]
    argument surface, the resolution of the edit set in
    [_UpdateCollabCommand.__init__], the store mediation in
    [_UpdateCollabCommand.execute] and [ConfigCollabDeleteCommand.execute],
    the extension registration of [ConfigExtensionsCommand], and the
    listings and the import of [ConfigAPICommand] and
    [ConfigThreatExchangeAPICommand].

    Python dictionaries are [gmap string _], Python sets are [gset string],
    exceptions are an inductive type threaded through a result monad, and
    the settings object is explicit state. *)

From Stdlib Require Import ZArith String Ascii List Lia Sorting.Sorted.
From stdpp Require Import base option gmap strings pretty list fin_maps.

Local Open Scope string_scope.
Local Open Scope Z_scope.

(** ** Python values *)

(** The values that travel through the command: what [json.loads] returns
    (floats left out), what argparse stores in a namespace, and what ends up
    as attributes of a collaboration config.  [VEnum cls m] is the member [m]
    of the [Enum] subclass [cls]. *)
#[local] Set Warnings "-register-all".
Inductive PyVal : Type :=
  | VNone
  | VBool (b : bool)
  | VInt (z : Z)
  | VStr (s : string)
  | VList (l : list PyVal)
  | VDict (d : gmap string PyVal)
  | VEnum (cls member : string).

(** [v is not None] *)
Definition is_not_None (v : PyVal) : bool :=
  match v with VNone => false | _ => true end.

(** [v != s] for a string [s]: only the string [s] itself compares equal. *)
Definition py_ne_str (v : PyVal) (s : string) : bool :=
  match v with
  | VStr s' => negb (String.eqb s' s)
  | _ => true
  end.

(** [a == b] on the scalars, with [True == 1] and [False == 0] as in
    Python; containers are compared nowhere in the command. *)
Definition py_eq (a b : PyVal) : bool :=
  match a, b with
  | VNone, VNone => true
  | VBool x, VBool y => Bool.eqb x y
  | VBool x, VInt y | VInt y, VBool x => (if x then 1 else 0) =? y
  | VInt x, VInt y => x =? y
  | VStr x, VStr y => String.eqb x y
  | VEnum c m, VEnum c' m' => String.eqb c c' && String.eqb m m'
  | _, _ => false
  end.

(** [bool(n)] for an int. *)
Definition py_bool_of_int (n : Z) : bool := negb (n =? 0).

(** ** Exceptions and the result monad *)

(** [CommandError message returncode]: the second argument is [None] where
    the raise site passes no return code and leaves it to the class's
    default (the class lives in [cli/exceptions.py]).  [ArgumentError] is
    what argparse raises while a parser is being built; [SystemExit] is how
    [parser.error] ends a failed parse (usage on stderr, status 2). *)
Inductive Exn : Type :=
  | CommandError (message : string) (returncode : option Z)
  | JSONDecodeError
  | KeyError (key : string)
  | TypeError (msg : string)
  | AttributeError (attr : string)
  | AssertionError (msg : string)
  | ValueError (msg : string)
  | ArgumentError (msg : string)
  | ArgumentTypeError (msg : string)
  | SystemExit (status : Z) (msg : string)
  | OtherException (msg : string).

Inductive Result (A : Type) : Type :=
  | Ok (a : A)
  | Raise (e : Exn).
Arguments Ok {A} a.
Arguments Raise {A} e.

Definition rbind {A B} (r : Result A) (k : A → Result B) : Result B :=
  match r with
  | Ok a => k a
  | Raise e => Raise e
  end.

Declare Scope result_scope.
Delimit Scope result_scope with result.
Notation "'let?' x := r 'in' k" := (rbind r (fun x => k))
  (at level 10, x pattern, r at level 100, k at level 200) : result_scope.
Local Open Scope result_scope.

(** Is the exception the CLI's own user-facing error? *)
Definition is_CommandError (e : Exn) : bool :=
  match e with CommandError _ _ => true | _ => false end.

(** The process exit code of a [CommandError], given the class default. *)
Definition exit_code (default_returncode : Z) (e : Exn) : option Z :=
  match e with
  | CommandError _ (Some rc) => Some rc
  | CommandError _ None => Some default_returncode
  | _ => None
  end.

(** ** Dataclass schemas *)

(** The shapes of [field.type] that [_add_argument] tells apart: a plain
    class, an [Enum] subclass with its canonical members in definition
    order, a typing generic carrying [__args__], a forward reference. *)
Inductive PyType : Type :=
  | TClass (name : string)
  | TEnumClass (name : string) (members : list string)
  | TGeneric (name : string) (args : list PyType)
  | TForwardRef (name : string).

(** A [dataclasses.Field].  [None] in [field_default] and
    [field_default_factory] is [MISSING]; a factory is represented by the
    value it produces. *)
Record Field : Type := {
  field_name : string;
  field_type : PyType;
  field_init : bool;
  field_default : option PyVal;
  field_default_factory : option PyVal;
  field_metadata : gmap string string;
}.

(** A config dataclass: its name and [fields(cls)]. *)
Record ConfigClass : Type := {
  class_name : string;
  fields : list Field;
}.

(** A [SignalExchangeAPI] class, as far as the command looks at it. *)
Record SignalExchangeAPI : Type := {
  get_name : string;
  get_config_class : ConfigClass;
}.

(** An instance of a config dataclass: its class and its [__dict__]. *)
Record CollabConfig : Type := {
  obj_class : string;
  obj_attrs : gmap string PyVal;
}.

(** [setattr(obj, name, val)] on a plain (not frozen, no slots) dataclass. *)
Definition setattr (obj : CollabConfig) (name : string) (val : PyVal)
  : CollabConfig :=
  {| obj_class := obj_class obj; obj_attrs := <[name := val]> (obj_attrs obj) |}.

(** [for name, val in kwargs.items(): setattr(obj, name, val)] *)
Definition setattr_all (obj : CollabConfig) (kwargs : gmap string PyVal)
  : CollabConfig :=
  map_fold (fun name val o => setattr o name val) obj kwargs.

(** The [__init__] that [@dataclass] generates, called with the edit set as keyword arguments:
    a keyword that is no init field is a [TypeError], so is a missing init
    field without default; fields get the keyword's value, else the default,
    else the factory's value. *)
Definition field_fallback (f : Field) : option PyVal :=
  match field_default f with
  | Some v => Some v
  | None => field_default_factory f
  end.

Definition is_init_field_name (fs : list Field) (k : string) : bool :=
  existsb (fun f => field_init f && String.eqb (field_name f) k) fs.

Fixpoint dataclass_fill (fs : list Field) (kwargs : gmap string PyVal)
    (acc : gmap string PyVal) : Result (gmap string PyVal) :=
  match fs with
  | [] => Ok acc
  | f :: fs' =>
      let given := if field_init f then kwargs !! field_name f else None in
      match given with
      | Some v => dataclass_fill fs' kwargs (<[field_name f := v]> acc)
      | None =>
          match field_fallback f with
          | Some v => dataclass_fill fs' kwargs (<[field_name f := v]> acc)
          | None =>
              if field_init f
              then Raise (TypeError "__init__() missing required argument")
              else dataclass_fill fs' kwargs acc
          end
      end
  end.

Definition dataclass_new (cls : ConfigClass) (kwargs : gmap string PyVal)
  : Result CollabConfig :=
  match List.find (fun k => negb (is_init_field_name (fields cls) k))
                  (map fst (map_to_list kwargs)) with
  | Some _ => Raise (TypeError "__init__() got an unexpected keyword argument")
  | None =>
      let? attrs := dataclass_fill (fields cls) kwargs ∅ in
      Ok {| obj_class := class_name cls; obj_attrs := attrs |}
  end.

(** ** String helpers *)

(** [s.replace(a, b)] for single characters. *)
Fixpoint str_replace (a b : ascii) (s : string) : string :=
  match s with
  | EmptyString => EmptyString
  | String c s' =>
      String (if Ascii.eqb c a then b else c) (str_replace a b s')
  end.

(** [s.lstrip("-")] *)
Fixpoint lstrip_dash (s : string) : string :=
  match s with
  | String "-" s' => lstrip_dash s'
  | _ => s
  end.

(** [sep.join(l)] *)
Definition str_join (sep : string) (l : list string) : string :=
  String.concat sep l.

Definition str_in (s : string) (l : list string) : bool :=
  existsb (String.eqb s) l.

(** ** The part of argparse the command relies on *)

Module argparse.

Inductive Action : Type := store | store_true | store_const.

(** [nargs]: [None] (exactly one string), ['?'], or none at all for the
    constant-storing actions. *)
Inductive Nargs : Type := nargs_one | nargs_optional | nargs_zero.

(** One registered argument (an [argparse.Action] object).  A positional
    has no option strings.  [type] is the conversion callable applied to
    each argument string; [mutex_group] names the mutually exclusive group
    the argument was added through, [arg_group] the titled group. *)
Record Argument : Type := {
  option_strings : list string;
  dest : string;
  action : Action;
  nargs : Nargs;
  const : PyVal;
  default : PyVal;
  type : option (string → Result PyVal);
  choices : option (list PyVal);
  metavar : option string;
  required : bool;
  help : string;
  arg_group : option string;
  mutex_group : option string;
}.

Record ArgumentParser : Type := {
  actions : list Argument;
  defaults : gmap string PyVal;
}.

(** All option strings the parser already knows. *)
Definition registered_option_strings (ap : ArgumentParser) : list string :=
  concat (map option_strings (actions ap)).

(** [add_argument] with the default [conflict_handler="error"]: an option
    string that is already registered raises [ArgumentError]. *)
Definition add_argument (ap : ArgumentParser) (a : Argument)
  : Result ArgumentParser :=
  if existsb (fun o => str_in o (registered_option_strings ap)) (option_strings a)
  then Raise (ArgumentError "conflicting option string")
  else Ok {| actions := actions ap ++ [a]; defaults := defaults ap |}.

Definition set_defaults (ap : ArgumentParser) (k : string) (v : PyVal)
  : ArgumentParser :=
  {| actions := actions ap; defaults := <[k := v]> (defaults ap) |}.

(** The [dest] argparse infers for an optional: the first long option
    string (else the first one), without its leading dashes and with the
    remaining dashes turned into underscores. *)
Definition infer_dest (opts : list string) : string :=
  let long := List.find (String.prefix "--") opts in
  let chosen := match long with
                | Some o => o
                | None => List.hd "" opts
                end in
  str_replace "-" "_" (lstrip_dash chosen).

(** *** Parsing

    The input is the argument vector after argparse's lexical pass, which
    decides for each string whether it names a registered option (resolving
    abbreviations and splitting [--opt=value]) or is a plain argument. *)
Inductive Token : Type :=
  | TOption (option_string : string) (explicit_arg : option string)
  | TArg (s : string).

Definition parse_error {A} (msg : string) : Result A :=
  Raise (SystemExit 2 msg).

(** [_get_value]: the [type] callable applied to one string; only
    [ArgumentTypeError], [TypeError] and [ValueError] become parse errors,
    anything else propagates. *)
Definition _get_value (a : Argument) (s : string) : Result PyVal :=
  match type a with
  | None => Ok (VStr s)
  | Some f =>
      match f s with
      | Ok v => Ok v
      | Raise (ArgumentTypeError _) | Raise (TypeError _) | Raise (ValueError _) =>
          parse_error "invalid value"
      | Raise e => Raise e
      end
  end.

Definition _check_value (a : Argument) (v : PyVal) : Result unit :=
  match choices a with
  | Some cs =>
      if existsb (py_eq v) cs then Ok tt else parse_error "invalid choice"
  | None => Ok tt
  end.

(** [_get_values]: a bare ['?'] option yields its [const] (a non-string
    const is neither converted nor checked), a constant-storing action
    the empty list. *)
Definition _get_values (a : Argument) (arg_strings : list string)
  : Result PyVal :=
  match nargs a, arg_strings with
  | nargs_optional, [] => Ok (const a)
  | nargs_zero, [] => Ok (VList [])
  | (nargs_optional | nargs_one), [s] =>
      let? v := _get_value a s in
      let? _ := _check_value a v in
      Ok v
  | _, _ => parse_error "wrong number of arguments"
  end.

Record ParseState : Type := {
  ns : gmap string PyVal;
  seen : list (nat * Argument);
  positionals : list (nat * Argument);
  extras : list string;
}.

(** Actions are told apart by their position in [actions]. *)
Definition indexed (ap : ArgumentParser) : list (nat * Argument) :=
  imap pair (actions ap).

Definition find_option (ap : ArgumentParser) (o : string)
  : option (nat * Argument) :=
  List.find (fun ia => str_in o (option_strings (snd ia))) (indexed ap).

(** Two distinct actions of one mutually exclusive group. *)
Definition conflicts (ia jb : nat * Argument) : bool :=
  negb (Nat.eqb (fst ia) (fst jb)) &&
  match mutex_group (snd ia), mutex_group (snd jb) with
  | Some g, Some g' => String.eqb g g'
  | _, _ => false
  end.

Definition run_action (a : Argument) (values : PyVal)
    (n : gmap string PyVal) : gmap string PyVal :=
  match action a with
  | store => <[dest a := values]> n
  | store_true => <[dest a := VBool true]> n
  | store_const => <[dest a := const a]> n
  end.

(** [take_action]: convert the strings, refuse the action when another
    member of its mutually exclusive group was seen before, then run it. *)
Definition take_action (ia : nat * Argument) (arg_strings : list string)
    (st : ParseState) : Result ParseState :=
  let? values := _get_values (snd ia) arg_strings in
  if existsb (conflicts ia) (seen st)
  then parse_error "not allowed with argument"
  else Ok {| ns := run_action (snd ia) values (ns st);
             seen := ia :: seen st;
             positionals := positionals st;
             extras := extras st |}.

Definition pop_positional (st : ParseState) : ParseState :=
  {| ns := ns st; seen := seen st;
     positionals := List.tl (positionals st); extras := extras st |}.

Definition add_extra (s : string) (st : ParseState) : ParseState :=
  {| ns := ns st; seen := seen st;
     positionals := positionals st; extras := extras st ++ [s] |}.

(** The main loop: a plain argument feeds the next positional; an option
    takes its explicit argument, or as many following plain arguments as
    its [nargs] asks for. *)
Fixpoint consume (ap : ArgumentParser) (toks : list Token) (st : ParseState)
  : Result ParseState :=
  match toks with
  | [] => Ok st
  | TArg s :: rest =>
      match positionals st with
      | p :: _ =>
          let? st' := take_action p [s] (pop_positional st) in
          consume ap rest st'
      | [] => consume ap rest (add_extra s st)
      end
  | TOption o explicit :: rest =>
      match find_option ap o with
      | None => consume ap rest (add_extra o st)
      | Some ia =>
          match explicit with
          | Some v =>
              match nargs (snd ia) with
              | nargs_zero => parse_error "ignored explicit argument"
              | _ => let? st' := take_action ia [v] st in consume ap rest st'
              end
          | None =>
              match nargs (snd ia), rest with
              | nargs_zero, _ =>
                  let? st' := take_action ia [] st in consume ap rest st'
              | nargs_one, TArg s :: rest' =>
                  let? st' := take_action ia [s] st in consume ap rest' st'
              | nargs_one, _ => parse_error "expected one argument"
              | nargs_optional, TArg s :: rest' =>
                  let? st' := take_action ia [s] st in consume ap rest' st'
              | nargs_optional, _ =>
                  let? st' := take_action ia [] st in consume ap rest st'
              end
          end
      end
  end.

(** Every [dest] starts at its action's default (the first action of a
    shared [dest] decides), then the parser-level defaults fill the gaps. *)
Definition initial_namespace (ap : ArgumentParser) : gmap string PyVal :=
  foldl (fun n a => match n !! dest a with
                    | None => <[dest a := default a]> n
                    | Some _ => n
                    end) ∅ (actions ap)
  ∪ defaults ap.

Definition is_positional (a : Argument) : bool :=
  match option_strings a with [] => true | _ => false end.

Definition was_seen (st : ParseState) (ia : nat * Argument) : bool :=
  existsb (fun jb => Nat.eqb (fst ia) (fst jb)) (seen st).

Definition parse_args (ap : ArgumentParser) (toks : list Token)
  : Result (gmap string PyVal) :=
  let? st := consume ap toks
               {| ns := initial_namespace ap; seen := [];
                  positionals := List.filter (fun ia => is_positional (snd ia)) (indexed ap);
                  extras := [] |} in
  if existsb (fun ia => required (snd ia) && negb (was_seen st ia)) (indexed ap)
  then parse_error "the following arguments are required"
  else match extras st with
       | [] => Ok (ns st)
       | _ => parse_error "unrecognized arguments"
       end.

End argparse.

(** ** Settings and the command monad *)

(** The part of the persistent config the commands touch. *)
Record PersistentConfig : Type := {
  extensions : gset string;
}.

(** Modelled from the spec: [CLISettings] and the state object behind it
    ([cli/cli_config.py]) are not part of this file.  The spec asks of the
    store a lookup by name and a persisting write and delete, and of the
    settings the persisted extension set and the registry of known content
    types, signal types and API instances; the commands are written against
    exactly this interface, for any implementation of it. *)
Class CLISettings (S : Type) : Type := {
  get_collab : S → PyVal → option CollabConfig;
  update_collab : CollabConfig → S → S;
  delete_collab : CollabConfig → S → S;
  get_persistent_config : S → PersistentConfig;
  set_persistent_config : PersistentConfig → S → S;
  get_all_content_types : S → list string;
  get_all_signal_types : S → list string;
  apis_get_all : S → list SignalExchangeAPI;
}.

(** A command runs over the settings and either returns or raises; a raise
    keeps whatever had been written before it. *)
Definition Cmd (S A : Type) : Type := S → Result A * S.

Definition cret {S A} (a : A) : Cmd S A := fun s => (Ok a, s).
Definition craise {S A} (e : Exn) : Cmd S A := fun s => (Raise e, s).
Definition cbind {S A B} (c : Cmd S A) (k : A → Cmd S B) : Cmd S B :=
  fun s => match c s with
           | (Ok a, s') => k a s'
           | (Raise e, s') => (Raise e, s')
           end.
Definition cgets {S A} (f : S → A) : Cmd S A := fun s => (Ok (f s), s).
Definition cmodify {S} (f : S → S) : Cmd S unit := fun s => (Ok tt, f s).
Definition clift {S A} (r : Result A) : Cmd S A := fun s => (r, s).

Notation "'let!' x := c 'in' k" := (cbind c (fun x => k))
  (at level 10, x pattern, c at level 100, k at level 200) : result_scope.

(** [str(v)] as the f-strings of the command need it: scalars are rendered
    as Python does, containers by a placeholder. *)
Definition py_str (v : PyVal) : string :=
  match v with
  | VNone => "None"
  | VBool true => "True"
  | VBool false => "False"
  | VInt z => pretty z
  | VStr s => s
  | VList _ => "[...]"
  | VDict _ => "{...}"
  | VEnum c m => c +:+ "." +:+ m
  end.

(** [str(e)] for an exception. *)
Definition exn_str (e : Exn) : string :=
  match e with
  | CommandError m _ | TypeError m | AssertionError m | ValueError m
  | ArgumentError m | ArgumentTypeError m | OtherException m => m
  | SystemExit _ m => m
  | JSONDecodeError => "Expecting value"
  | KeyError k => "'" +:+ k +:+ "'"
  | AttributeError a => a
  end.

Definition dquote : string := String (ascii_of_nat 34) EmptyString.

(** ** [common.argparse_choices_pre_type] *)

Module common.

(** Modelled from the spec: [threatexchange/common.py] is not part of this
    file.  The spec has an enum-typed flag accept the member names and only
    those; the helper wraps the conversion [type] so that a string outside
    [choices] is refused as an argparse type error before [type] runs. *)
Definition argparse_choices_pre_type (choices : list string)
    (type : string → Result PyVal) (s : string) : Result PyVal :=
  if str_in s choices then type s
  else Raise (ArgumentTypeError "invalid choice").

End common.

(** [EnumClass[s]]: lookup of a member by name. *)
Definition enum_getitem (cls : string) (members : list string) (s : string)
  : Result PyVal :=
  if str_in s members then Ok (VEnum cls s) else Raise (KeyError s).

(** ** [_UpdateCollabCommand]: resolving the edit set *)

Module UpdateCollabCommand.

Definition _IGNORE_FIELDS : list string := ["name"; "api"; "enabled"].

Definition in_IGNORE_FIELDS (n : string) : bool :=
  existsb (String.eqb n) _IGNORE_FIELDS.

Definition _is_argument_field (field : Field) : bool :=
  if negb (field_init field) then false
  else if in_IGNORE_FIELDS (field_name field) then false
  else true.

(** The command object that [__init__] leaves behind. *)
Record t : Type := {
  namespace : gmap string PyVal;
  create : bool;
  edit_kwargs : gmap string PyVal;
  collab_name : PyVal;
}.

Section Resolve.

(** [json.loads]: [None] when it raises [JSONDecodeError]. *)
Variable json_loads : string → option PyVal.

(** The API class the generated subcommand is bound to. *)
Variable _API_CLS : SignalExchangeAPI.

(** Lines 190-194: the JSON payload seeds the edit set and names the
    collaboration.  Subscripting a non-dict with ["name"] is a
    [TypeError], a dict without the key a [KeyError]. *)
Definition json_layer (is_json : bool) (collab_name : string)
  : Result (gmap string PyVal * PyVal) :=
  if is_json then
    match json_loads collab_name with
    | None => Raise JSONDecodeError
    | Some (VDict d) =>
        match d !! "name" with
        | Some n => Ok (d, n)
        | None => Raise (KeyError "name")
        end
    | Some _ => Raise (TypeError "indices must be integers or object is not subscriptable")
    end
  else Ok (∅, VStr collab_name).

(** Lines 197-200: create mode forces the identity fields.  The name is the
    [collab_name] parameter, not [self.collab_name]. *)
Definition create_layer (create : bool) (collab_name : string)
    (kw : gmap string PyVal) : gmap string PyVal :=
  if create then
    <["api" := VStr (get_name _API_CLS)]>
      (<["enabled" := VBool true]> (<["name" := VStr collab_name]> kw))
  else kw.

(** Lines 202-203. *)
Definition enable_layer (enable : option Z) (kw : gmap string PyVal)
  : gmap string PyVal :=
  match enable with
  | Some n => <["enabled" := VBool (py_bool_of_int n)]> kw
  | None => kw
  end.

(** Lines 205-214: the loop over [fields(cfg_cls)].  [dict.pop] without a
    default raises [KeyError] on a missing key; [getattr] raises
    [AttributeError] on a missing attribute. *)
Fixpoint fields_layer (fs : list Field) (full_argparse_namespace : gmap string PyVal)
    (kw : gmap string PyVal) : Result (gmap string PyVal) :=
  match fs with
  | [] => Ok kw
  | field :: fs' =>
      if negb (field_init field) then
        if String.eqb (field_name field) "api" then
          match kw !! "api" with
          | None => Raise (KeyError "api")
          | Some _ => fields_layer fs' full_argparse_namespace (delete "api" kw)
          end
        else fields_layer fs' full_argparse_namespace kw
      else if in_IGNORE_FIELDS (field_name field) then
        fields_layer fs' full_argparse_namespace kw
      else
        match full_argparse_namespace !! field_name field with
        | None => Raise (AttributeError (field_name field))
        | Some val =>
            if is_not_None val
            then fields_layer fs' full_argparse_namespace (<[field_name field := val]> kw)
            else fields_layer fs' full_argparse_namespace kw
        end
  end.

Definition __init__ (full_argparse_namespace : gmap string PyVal)
    (create : bool) (collab_name : string) (enable : option Z) (is_json : bool)
  : Result t :=
  let? (kw0, self_collab_name) := json_layer is_json collab_name in
  let kw1 := create_layer create collab_name kw0 in
  let kw2 := enable_layer enable kw1 in
  let? kw3 := fields_layer (fields (get_config_class _API_CLS))
                           full_argparse_namespace kw2 in
  Ok {| namespace := full_argparse_namespace;
        create := create;
        edit_kwargs := kw3;
        collab_name := self_collab_name |}.

End Resolve.

(** Modelled from the spec: the dispatcher ([cli/command_base.py]) is not
    part of this file.  The spec has the parsed arguments flow into the
    resolver; each parameter of [__init__] is taken from the namespace
    attribute of its name, and the namespace itself is passed whole. *)
Definition from_namespace (json_loads : string → option PyVal)
    (_API_CLS : SignalExchangeAPI) (ns : gmap string PyVal) : Result t :=
  match ns !! "create", ns !! "collab_name", ns !! "enable", ns !! "is_json" with
  | Some (VBool create), Some (VStr collab_name), Some VNone, Some (VBool is_json) =>
      __init__ json_loads _API_CLS ns create collab_name None is_json
  | Some (VBool create), Some (VStr collab_name), Some (VInt n), Some (VBool is_json) =>
      __init__ json_loads _API_CLS ns create collab_name (Some n) is_json
  | _, _, _, _ => Raise (TypeError "__init__() got unexpected arguments")
  end.

(** *** Synthesis of the argument surface *)

Section Synthesis.

(** Calling the class of the given name on one string, as argparse does
    with [type=int] and [type=target_type]. *)
Variable call_class : string → string → Result PyVal.

Variable _API_CLS : SignalExchangeAPI.

(** [f"--{field.name.replace('_', '-')}"] *)
Definition flag_of (field : Field) : string :=
  "--" +:+ str_replace "_" "-" (field_name field).

(** [field.default is MISSING and field.default_factory is MISSING] *)
Definition has_no_default (field : Field) : bool :=
  match field_default field, field_default_factory field with
  | None, None => true
  | _, _ => false
  end.

(** Lines 153-155: a type with [__args__] stands for its first argument. *)
Definition target_type_of (field : Field) : Result PyType :=
  match field_type field with
  | TGeneric _ (a :: _) => Ok a
  | TGeneric _ [] => Raise (OtherException "IndexError: tuple index out of range")
  | ty => Ok ty
  end.

(** Lines 157-165: the conversion and the metavar the type gives.  A
    target that is no class has no usable [__name__] or fails [issubclass]. *)
Definition type_and_metavar (target_type : PyType)
  : Result ((string → Result PyVal) * string) :=
  match target_type with
  | TClass n => Ok (call_class n, n)
  | TEnumClass n members =>
      Ok (common.argparse_choices_pre_type members (enum_getitem n members),
          "[" +:+ str_join "," members +:+ "]")
  | TGeneric _ _ => Raise (TypeError "issubclass() arg 1 must be a class")
  | TForwardRef _ => Raise (AttributeError "__name__")
  end.

Definition _add_argument (ap : argparse.ArgumentParser) (group : string)
    (field : Field) : Result argparse.ArgumentParser :=
  if negb (_is_argument_field field) then Raise (AssertionError "")
  else
    match field_type field with
    | TForwardRef _ => Raise (AssertionError "rework class to not have forward ref")
    | _ =>
        let? target_type := target_type_of field in
        let? (argparse_type, metavar) := type_and_metavar target_type in
        let help := "[missing] Add a help annotation on the config class!" in
        let metavar' :=
          if bool_decide (field_metadata field = ∅) then metavar
          else default metavar (field_metadata field !! "metavar") in
        let help' :=
          if bool_decide (field_metadata field = ∅) then help
          else default help (field_metadata field !! "help") in
        argparse.add_argument ap
          {| argparse.option_strings := [flag_of field];
             argparse.dest := argparse.infer_dest [flag_of field];
             argparse.action := argparse.store;
             argparse.nargs := argparse.nargs_one;
             argparse.const := VNone;
             argparse.default := VNone;
             argparse.type := Some argparse_type;
             argparse.choices := None;
             argparse.metavar := Some metavar';
             argparse.required := has_no_default field;
             argparse.help := help';
             argparse.arg_group := Some group;
             argparse.mutex_group := None |}
    end.

(** [for field in type_specific_fields: cls._add_argument(config_ap, field)] *)
Fixpoint add_field_arguments (ap : argparse.ArgumentParser) (group : string)
    (fs : list Field) : Result argparse.ArgumentParser :=
  match fs with
  | [] => Ok ap
  | field :: fs' =>
      let? ap' := _add_argument ap group field in
      add_field_arguments ap' group fs'
  end.

Definition arg_collab_name : argparse.Argument :=
  {| argparse.option_strings := [];
     argparse.dest := "collab_name";
     argparse.action := argparse.store;
     argparse.nargs := argparse.nargs_one;
     argparse.const := VNone;
     argparse.default := VNone;
     argparse.type := None;
     argparse.choices := None;
     argparse.metavar := None;
     argparse.required := true;
     argparse.help := "the name of the collab";
     argparse.arg_group := None;
     argparse.mutex_group := None |}.

Definition arg_create : argparse.Argument :=
  {| argparse.option_strings := ["--create"; "-C"];
     argparse.dest := argparse.infer_dest ["--create"; "-C"];
     argparse.action := argparse.store_true;
     argparse.nargs := argparse.nargs_zero;
     argparse.const := VBool true;
     argparse.default := VBool false;
     argparse.type := None;
     argparse.choices := None;
     argparse.metavar := None;
     argparse.required := false;
     argparse.help := "indicate you intend to create a config";
     argparse.arg_group := None;
     argparse.mutex_group := None |}.

Definition arg_enable : argparse.Argument :=
  {| argparse.option_strings := ["--enable"];
     argparse.dest := argparse.infer_dest ["--enable"];
     argparse.action := argparse.store;
     argparse.nargs := argparse.nargs_optional;
     argparse.const := VInt 1;
     argparse.default := VNone;
     argparse.type := Some (call_class "int");
     argparse.choices := Some [VInt 0; VInt 1];
     argparse.metavar := None;
     argparse.required := false;
     argparse.help := "enable the config (default on create)";
     argparse.arg_group := Some "common to all collabs";
     argparse.mutex_group := Some "on_off" |}.

Definition arg_disable : argparse.Argument :=
  {| argparse.option_strings := ["--disable"];
     argparse.dest := "enable";
     argparse.action := argparse.store_const;
     argparse.nargs := argparse.nargs_zero;
     argparse.const := VInt 0;
     argparse.default := VNone;
     argparse.type := None;
     argparse.choices := None;
     argparse.metavar := None;
     argparse.required := false;
     argparse.help := "disable the config";
     argparse.arg_group := Some "common to all collabs";
     argparse.mutex_group := Some "on_off" |}.

Definition arg_json : argparse.Argument :=
  {| argparse.option_strings := ["--json"; "-J"];
     argparse.dest := "is_json";
     argparse.action := argparse.store_true;
     argparse.nargs := argparse.nargs_zero;
     argparse.const := VBool true;
     argparse.default := VBool false;
     argparse.type := None;
     argparse.choices := None;
     argparse.metavar := None;
     argparse.required := false;
     argparse.help := "instead, interpret the argument as JSON and use that to edit the config";
     argparse.arg_group := None;
     argparse.mutex_group := None |}.

Definition init_argparse (ap : argparse.ArgumentParser)
  : Result argparse.ArgumentParser :=
  let cfg_cls := get_config_class _API_CLS in
  let? ap1 := argparse.add_argument ap arg_collab_name in
  let ap2 := argparse.set_defaults ap1 "api_name" (VStr (get_name _API_CLS)) in
  let? ap3 := argparse.add_argument ap2 arg_create in
  let? ap4 := argparse.add_argument ap3 arg_enable in
  let? ap5 := argparse.add_argument ap4 arg_disable in
  let type_specific_fields := List.filter _is_argument_field (fields cfg_cls) in
  let? ap6 := add_field_arguments ap5
                ("specific to " +:+ get_name _API_CLS) type_specific_fields in
  argparse.add_argument ap6 arg_json.

End Synthesis.

(** *** Applying the edit set to the store *)

Section Execute.

Context {S : Type} `{CLISettings S}.
Variable _API_CLS : SignalExchangeAPI.

Definition execute (self : t) : Cmd S unit :=
  let! existing := cgets (fun settings => get_collab settings (collab_name self)) in
  match existing with
  | Some existing =>
      if create self then
        craise (CommandError
                  ("there's an existing collaboration named " +:+ dquote
                   +:+ py_str (collab_name self) +:+ dquote) (Some 2))
      else
        match obj_attrs existing !! "api" with
        | None => craise (AttributeError "api")
        | Some existing_api =>
            if py_ne_str existing_api (get_name _API_CLS) then
              craise (CommandError
                        ("the existing collab is for the " +:+ py_str existing_api
                         +:+ " api, delete that one first") (Some 2))
            else if negb (String.eqb (obj_class existing)
                                     (class_name (get_config_class _API_CLS))) then
              craise (AssertionError "api name the same, but class different?")
            else
              cmodify (update_collab (setattr_all existing (edit_kwargs self)))
        end
  | None =>
      if create self then
        let! to_create := clift (dataclass_new (get_config_class _API_CLS)
                                               (edit_kwargs self)) in
        cmodify (update_collab to_create)
      else
        craise (CommandError "no such config! Did you mean to use --create?" (Some 2))
  end.

End Execute.

End UpdateCollabCommand.

(** ** [ConfigCollabDeleteCommand] *)

Module ConfigCollabDeleteCommand.

Section Execute.
Context {S : Type} `{CLISettings S}.

Definition execute (collab_name : string) : Cmd S unit :=
  let! collab := cgets (fun settings => get_collab settings (VStr collab_name)) in
  match collab with
  | None => craise (CommandError "No such collab" (Some 2))
  | Some collab => cmodify (delete_collab collab)
  end.

End Execute.

End ConfigCollabDeleteCommand.

(** ** [ConfigExtensionsCommand] *)

Module ConfigExtensionsCommand.

(** An API class listed in a manifest: the class and what calling it
    without arguments does. *)
Record APIType : Type := {
  api_cls : SignalExchangeAPI;
  api_new : Result SignalExchangeAPI;
}.

Record ThreatExchangeExtensionManifest : Type := {
  signal_types : list string;
  content_types : list string;
  apis : list APIType;
}.

(** [except Exception] does not catch [SystemExit]. *)
Definition is_Exception (e : Exn) : bool :=
  match e with SystemExit _ _ => false | _ => true end.

Section Execute.
Context {S : Type} `{CLISettings S}.

(** [ThreatExchangeExtensionManifest.load_from_module_name] and the two
    registry constructors of [threatexchange.meta]; each may raise. *)
Variable load_from_module_name : string → Result ThreatExchangeExtensionManifest.
Variable SignalTypeMapping : list string → list string → Result unit.
Variable FetcherMapping : list SignalExchangeAPI → Result unit.

Definition get_manifest (module_name : string)
  : Result ThreatExchangeExtensionManifest :=
  match load_from_module_name module_name with
  | Raise (ValueError ve) => Raise (CommandError ve (Some 2))
  | r => r
  end.

(** Lines 380-389: the probing loop.  The [CommandError] is raised with the
    message alone, without a return code. *)
Fixpoint instantiate_apis (new_apis : list APIType)
    (apis : list SignalExchangeAPI) : Result (list SignalExchangeAPI) :=
  match new_apis with
  | [] => Ok apis
  | new_api :: rest =>
      match api_new new_api with
      | Ok instance => instantiate_apis rest (apis ++ [instance])
      | Raise e =>
          if is_Exception e then
            Raise (CommandError
                     ("Not able to instanciate API " +:+ get_name (api_cls new_api)
                      +:+ " - throws " +:+ exn_str e) None)
          else Raise e
      end
  end.

(** [not self.module]: [None] and the empty string alike. *)
Definition module_given (module : option string) : option string :=
  match module with
  | Some "" | None => None
  | Some m => Some m
  end.

Definition execute_add (module : option string) : Cmd S unit :=
  match module_given module with
  | None => craise (CommandError "module is required" (Some 2))
  | Some module =>
      let! manifest := clift (get_manifest module) in
      let! cur_content := cgets get_all_content_types in
      let! cur_signal := cgets get_all_signal_types in
      let! _ := clift (SignalTypeMapping (cur_content ++ content_types manifest)
                                         (cur_signal ++ signal_types manifest)) in
      let! apis := clift (instantiate_apis (apis manifest) []) in
      let! cur_apis := cgets apis_get_all in
      let! _ := clift (FetcherMapping (apis ++ cur_apis)) in
      (* print_extension(manifest) writes to stdout only *)
      let! config := cgets get_persistent_config in
      cmodify (set_persistent_config
                 {| extensions := {[module]} ∪ extensions config |})
  end.

Definition execute_remove (module : option string) : Cmd S unit :=
  match module_given module with
  | None => craise (CommandError "Which module you are remove is required" (Some 2))
  | Some module =>
      let! config := cgets get_persistent_config in
      if bool_decide (module ∈ extensions config) then
        cmodify (set_persistent_config
                   {| extensions := extensions config ∖ {[module]} |})
      else
        craise (CommandError ("You haven't added " +:+ module) (Some 2))
  end.

End Execute.

End ConfigExtensionsCommand.

(** ** A concrete instance to run the commands on *)

Module Sample.

(** An in-memory settings object: collaborations keyed by their [name]
    attribute, the persistent config, and the registries. *)
Record Settings : Type := {
  collabs : list CollabConfig;
  persistent : PersistentConfig;
  content_type_names : list string;
  signal_type_names : list string;
  api_instances : list SignalExchangeAPI;
}.

Definition has_name (n : PyVal) (c : CollabConfig) : bool :=
  match obj_attrs c !! "name" with
  | Some v => py_eq v n
  | None => false
  end.

Definition name_of (c : CollabConfig) : PyVal :=
  default VNone (obj_attrs c !! "name").

Definition with_collabs (cs : list CollabConfig) (s : Settings) : Settings :=
  {| collabs := cs; persistent := persistent s;
     content_type_names := content_type_names s;
     signal_type_names := signal_type_names s;
     api_instances := api_instances s |}.

#[global] Instance settings_ops : CLISettings Settings := {|
  get_collab s n := List.find (has_name n) (collabs s);
  update_collab c s :=
    with_collabs (c :: List.filter (fun c' => negb (has_name (name_of c) c')) (collabs s)) s;
  delete_collab c s :=
    with_collabs (List.filter (fun c' => negb (has_name (name_of c) c')) (collabs s)) s;
  get_persistent_config s := persistent s;
  set_persistent_config p s :=
    {| collabs := collabs s; persistent := p;
       content_type_names := content_type_names s;
       signal_type_names := signal_type_names s;
       api_instances := api_instances s |};
  get_all_content_types s := content_type_names s;
  get_all_signal_types s := signal_type_names s;
  apis_get_all s := api_instances s;
|}.

(** A reader for the part of JSON the examples use: objects, arrays,
    strings without escapes, integers, [true], [false], [null]. *)
Definition dq : ascii := ascii_of_nat 34.

Definition is_ws (c : ascii) : bool :=
  Ascii.eqb c " " || Ascii.eqb c (ascii_of_nat 9)
  || Ascii.eqb c (ascii_of_nat 10) || Ascii.eqb c (ascii_of_nat 13).

Fixpoint skip_ws (s : string) : string :=
  match s with
  | String c r => if is_ws c then skip_ws r else s
  | EmptyString => s
  end.

Fixpoint read_string_body (s : string) : option (string * string) :=
  match s with
  | EmptyString => None
  | String c r =>
      if Ascii.eqb c dq then Some (EmptyString, r)
      else if Ascii.eqb c "\" then None
      else match read_string_body r with
           | Some (body, r') => Some (String c body, r')
           | None => None
           end
  end.

Definition digit_of (c : ascii) : option Z :=
  let n := Z.of_nat (nat_of_ascii c) in
  if (48 <=? n) && (n <=? 57) then Some (n - 48) else None.

Fixpoint read_digits (s : string) (acc : Z) : Z * string :=
  match s with
  | String c r =>
      match digit_of c with
      | Some d => read_digits r (10 * acc + d)
      | None => (acc, s)
      end
  | EmptyString => (acc, s)
  end.

(** A JSON integer: [0], or a nonzero digit followed by digits. *)
Definition read_nat (s : string) : option (Z * string) :=
  match s with
  | String c r =>
      match digit_of c with
      | Some 0 =>
          match r with
          | String c' _ =>
              match digit_of c' with Some _ => None | None => Some (0, r) end
          | EmptyString => Some (0, r)
          end
      | Some d => Some (read_digits r d)
      | None => None
      end
  | EmptyString => None
  end.

Definition read_literal (lit : string) (v : PyVal) (s : string)
  : option (PyVal * string) :=
  if String.prefix lit s
  then Some (v, String.substring (String.length lit)
                                 (String.length s - String.length lit) s)
  else None.

Fixpoint read_value (fuel : nat) (s : string) {struct fuel}
  : option (PyVal * string) :=
  match fuel with
  | O => None
  | Datatypes.S fuel' =>
      match skip_ws s with
      | String "{" r =>
          match skip_ws r with
          | String "}" r' => Some (VDict ∅, r')
          | r' => read_members fuel' r' ∅
          end
      | String "[" r =>
          match skip_ws r with
          | String "]" r' => Some (VList [], r')
          | r' => read_elements fuel' r' []
          end
      | String "-" r =>
          match read_nat r with
          | Some (n, r') => Some (VInt (- n), r')
          | None => None
          end
      | String "t" _ => read_literal "true" (VBool true) (skip_ws s)
      | String "f" _ => read_literal "false" (VBool false) (skip_ws s)
      | String "n" _ => read_literal "null" VNone (skip_ws s)
      | String c r =>
          if Ascii.eqb c dq then
            match read_string_body r with
            | Some (body, r') => Some (VStr body, r')
            | None => None
            end
          else
            match read_nat (String c r) with
            | Some (n, r') => Some (VInt n, r')
            | None => None
            end
      | EmptyString => None
      end
  end
with read_members (fuel : nat) (s : string) (acc : gmap string PyVal)
    {struct fuel} : option (PyVal * string) :=
  match fuel with
  | O => None
  | Datatypes.S fuel' =>
      match s with
      | String c r =>
          if Ascii.eqb c dq then
            match read_string_body r with
            | Some (key, r1) =>
                match skip_ws r1 with
                | String ":" r2 =>
                    match read_value fuel' r2 with
                    | Some (v, r3) =>
                        match skip_ws r3 with
                        | String "," r4 =>
                            read_members fuel' (skip_ws r4) (<[key := v]> acc)
                        | String "}" r4 => Some (VDict (<[key := v]> acc), r4)
                        | _ => None
                        end
                    | None => None
                    end
                | _ => None
                end
            | None => None
            end
          else None
      | EmptyString => None
      end
  end
with read_elements (fuel : nat) (s : string) (acc : list PyVal)
    {struct fuel} : option (PyVal * string) :=
  match fuel with
  | O => None
  | Datatypes.S fuel' =>
      match read_value fuel' s with
      | Some (v, r) =>
          match skip_ws r with
          | String "," r' => read_elements fuel' r' (acc ++ [v])
          | String "]" r' => Some (VList (acc ++ [v]), r')
          | _ => None
          end
      | None => None
      end
  end.

Definition json_loads (s : string) : option PyVal :=
  match read_value (2 * String.length s + 2) s with
  | Some (v, r) => match skip_ws r with
                   | EmptyString => Some v
                   | _ => None
                   end
  | None => None
  end.

(** [int(s)] on plain decimal literals and [str(s)]; other classes are
    not callable on a string here. *)
Definition call_class (cls : string) (s : string) : Result PyVal :=
  if String.eqb cls "int" then
    match s with
    | String "-" r =>
        match read_digits r 0 with
        | (n, EmptyString) =>
            if String.eqb r "" then Raise (ValueError "invalid literal for int()")
            else Ok (VInt (- n))
        | _ => Raise (ValueError "invalid literal for int()")
        end
    | EmptyString => Raise (ValueError "invalid literal for int()")
    | _ =>
        match read_digits s 0 with
        | (n, EmptyString) => Ok (VInt n)
        | _ => Raise (ValueError "invalid literal for int()")
        end
    end
  else if String.eqb cls "str" then Ok (VStr s)
  else Raise (TypeError "not callable on a string").

(** Quoting, to write JSON text. *)
Definition q (s : string) : string := dquote +:+ s +:+ dquote.

End Sample.

(** ** Sample schemas *)

Module Schemas.

Definition mk_field (n : string) (ty : PyType) (init : bool)
    (dflt : option PyVal) : Field :=
  {| field_name := n; field_type := ty; field_init := init;
     field_default := dflt; field_default_factory := None;
     field_metadata := ∅ |}.

(** A schema whose [api] is an ordinary constructor argument. *)
Definition open_cfg : ConfigClass :=
  {| class_name := "OpenCollabConfig";
     fields := [ mk_field "name" (TClass "str") true None;
                 mk_field "api" (TClass "str") true None;
                 mk_field "enabled" (TClass "bool") true (Some (VBool true));
                 mk_field "x" (TClass "int") true (Some (VInt 0)) ] |}.

Definition open_api : SignalExchangeAPI :=
  {| get_name := "open"; get_config_class := open_cfg |}.

(** A schema that pins [api] with [field(init=False, default=...)], and
    has a required field and an enum-valued one. *)
Definition pinned_cfg : ConfigClass :=
  {| class_name := "PinnedCollabConfig";
     fields := [ mk_field "name" (TClass "str") true None;
                 mk_field "api" (TClass "str") false (Some (VStr "pinned"));
                 mk_field "enabled" (TClass "bool") true (Some (VBool true));
                 mk_field "privacy_group" (TClass "int") true None;
                 mk_field "mode"
                   (TGeneric "Optional"
                      [TEnumClass "Mode" ["FAST"; "SLOW"]; TClass "NoneType"])
                   true (Some VNone) ] |}.

Definition pinned_api : SignalExchangeAPI :=
  {| get_name := "pinned"; get_config_class := pinned_cfg |}.

(** A schema whose enum-valued field declares its own metavar. *)
Definition mode_with_metavar : Field :=
  {| field_name := "mode";
     field_type := TEnumClass "Mode" ["FAST"; "SLOW"];
     field_init := true;
     field_default := Some (VEnum "Mode" "FAST");
     field_default_factory := None;
     field_metadata := {["metavar" := "MODE"]} |}.

Definition tagged_cfg : ConfigClass :=
  {| class_name := "TaggedCollabConfig";
     fields := [ mk_field "name" (TClass "str") true None;
                 mk_field "api" (TClass "str") true None;
                 mk_field "enabled" (TClass "bool") true (Some (VBool true));
                 mode_with_metavar ] |}.

Definition tagged_api : SignalExchangeAPI :=
  {| get_name := "tagged"; get_config_class := tagged_cfg |}.

Definition empty_parser : argparse.ArgumentParser :=
  {| argparse.actions := []; argparse.defaults := ∅ |}.

(** The surface synthesized for [pinned_api] on a fresh parser. *)
Definition pinned_surface : argparse.ArgumentParser :=
  match UpdateCollabCommand.init_argparse Sample.call_class pinned_api
          empty_parser with
  | Ok ap => ap
  | Raise _ => empty_parser
  end.

(** The surface synthesized for [open_api] on a fresh parser. *)
Definition open_surface : argparse.ArgumentParser :=
  match UpdateCollabCommand.init_argparse Sample.call_class open_api
          empty_parser with
  | Ok ap => ap
  | Raise _ => empty_parser
  end.

Definition empty_settings : Sample.Settings :=
  {| Sample.collabs := [];
     Sample.persistent := {| extensions := ∅ |};
     Sample.content_type_names := [];
     Sample.signal_type_names := [];
     Sample.api_instances := [] |}.

End Schemas.

(** ** The precedence of the layers, stated by key *)

Module Precedence.

Import UpdateCollabCommand.

(** The value a typed flag supplies for key [k]: [k] names an argument
    field and the namespace holds something other than [None] for it. *)
Definition supplied_flag (fs : list Field) (ns : gmap string PyVal)
    (k : string) : option PyVal :=
  if existsb (fun f => _is_argument_field f && String.eqb (field_name f) k) fs
  then match ns !! k with
       | Some v => if is_not_None v then Some v else None
       | None => None
       end
  else None.

(** Does the schema carry an [api] field that is no constructor argument? *)
Definition drops_api (fs : list Field) : bool :=
  existsb (fun f => negb (field_init f) && String.eqb (field_name f) "api") fs.

(** What create mode forces for key [k]. *)
Definition forced (api_name collab_name k : string) : option PyVal :=
  if String.eqb k "name" then Some (VStr collab_name)
  else if String.eqb k "enabled" then Some (VBool true)
  else if String.eqb k "api" then Some (VStr api_name)
  else None.

(** The JSON payload's object, empty outside JSON mode. *)
Definition payload_of (json_loads : string → option PyVal) (is_json : bool)
    (collab_name : string) : gmap string PyVal :=
  if is_json then
    match json_loads collab_name with
    | Some (VDict d) => d
    | _ => ∅
    end
  else ∅.

(** The edit set read layer by layer, highest first: a supplied typed
    flag, then the enable/disable value, then the create-mode fields, then
    the JSON payload; [api] is gone where the schema pins it. *)
Definition layered_lookup (fs : list Field) (api_name : string)
    (ns : gmap string PyVal) (create : bool) (collab_name : string)
    (enable : option Z) (payload : gmap string PyVal) (k : string)
  : option PyVal :=
  match supplied_flag fs ns k with
  | Some v => Some v
  | None =>
      if String.eqb k "api" && drops_api fs then None
      else
        match (if String.eqb k "enabled" then enable else None) with
        | Some n => Some (VBool (py_bool_of_int n))
        | None =>
            match (if create then forced api_name collab_name k else None) with
            | Some v => Some v
            | None => payload !! k
            end
        end
  end.

End Precedence.

(** ** The rejections of the store mediator *)

Module Rejections.

Section Cases.

Context {S : Type} `{CLISettings S}.

(** The identifier names a record and create mode is set. *)
Definition duplicate_name (self : UpdateCollabCommand.t) (s : S) : Prop :=
  ∃ existing, get_collab s (UpdateCollabCommand.collab_name self) = Some existing
              ∧ UpdateCollabCommand.create self = true.

(** The identifier names a record of another API. *)
Definition cross_api (api : SignalExchangeAPI) (self : UpdateCollabCommand.t)
    (s : S) : Prop :=
  ∃ existing stored,
    get_collab s (UpdateCollabCommand.collab_name self) = Some existing
    ∧ UpdateCollabCommand.create self = false
    ∧ obj_attrs existing !! "api" = Some stored
    ∧ py_ne_str stored (get_name api) = true.

(** The identifier names no record and create mode is not set. *)
Definition no_such_record (self : UpdateCollabCommand.t) (s : S) : Prop :=
  get_collab s (UpdateCollabCommand.collab_name self) = None
  ∧ UpdateCollabCommand.create self = false.

End Cases.

End Rejections.

(** ** Reading a synthesized surface *)

Module Surface.

Import UpdateCollabCommand.

(** The arguments of a parser that answer to option string [o]. *)
Definition answering (o : string) (ap : argparse.ArgumentParser)
  : list argparse.Argument :=
  List.filter (fun a => str_in o (argparse.option_strings a)) (argparse.actions ap).

(** [a] is the flag that [_add_argument] builds for [field]. *)
Definition synthesized_from (call_class : string → string → Result PyVal)
    (field : Field) (a : argparse.Argument) : Prop :=
  argparse.option_strings a = [flag_of field]
  ∧ argparse.dest a = argparse.infer_dest [flag_of field]
  ∧ argparse.action a = argparse.store
  ∧ argparse.nargs a = argparse.nargs_one
  ∧ argparse.choices a = None
  ∧ argparse.mutex_group a = None
  ∧ argparse.required a = has_no_default field
  ∧ ∃ target conv mv,
      target_type_of field = Ok target
      ∧ type_and_metavar call_class target = Ok (conv, mv)
      ∧ argparse.type a = Some conv
      ∧ argparse.metavar a
        = Some (if bool_decide (field_metadata field = ∅) then mv
                else default mv (field_metadata field !! "metavar")).

(** The field types [_add_argument] can turn into a flag: a class, or a
    generic whose first argument is a class. *)
Definition is_class (ty : PyType) : bool :=
  match ty with
  | TClass _ | TEnumClass _ _ => true
  | _ => false
  end.

Definition resolvable (ty : PyType) : bool :=
  match ty with
  | TClass _ | TEnumClass _ _ => true
  | TGeneric _ (a :: _) => is_class a
  | _ => false
  end.

(** The option strings [init_argparse] registers by itself. *)
Definition fixed_option_strings : list string :=
  ["--create"; "-C"; "--enable"; "--disable"; "--json"; "-J"].

(** The bracketed, comma-joined member list. *)
Definition bracketed (members : list string) : string :=
  "[" +:+ str_join "," members +:+ "]".

End Surface.

(** ** From the argument vector to the command *)

Module Dispatch.

(** Modelled from the spec: the top-level dispatcher is not part of this
    file.  The spec's control flow is: the raw arguments are parsed against
    the synthesized surface, the parsed namespace goes to the edit-set
    resolver; a parse failure ends the invocation there. *)
Definition resolve (json_loads : string → option PyVal)
    (_API_CLS : SignalExchangeAPI) (ap : argparse.ArgumentParser)
    (toks : list argparse.Token) : Result UpdateCollabCommand.t :=
  let? ns := argparse.parse_args ap toks in
  UpdateCollabCommand.from_namespace json_loads _API_CLS ns.

End Dispatch.

(** ** Python built-ins used by the listings *)

Module Py.

Section Sorted.

Context {A : Type} (key : A → string).

(** [sorted(l, key=key)] for string keys: ascending, and stable, an
    element going before the first one whose key is not smaller. *)
Fixpoint insert_sorted (x : A) (l : list A) : list A :=
  match l with
  | [] => [x]
  | y :: l' =>
      if String.leb (key x) (key y) then x :: y :: l'
      else y :: insert_sorted x l'
  end.

Definition sorted (l : list A) : list A := fold_right insert_sorted [] l.

End Sorted.

(** [s[:k]]: a negative [k] counts from the end, and both ends are
    clipped to the string. *)
Definition slice_to (s : string) (k : Z) : string :=
  let n := Z.of_nat (String.length s) in
  let stop := if k <? 0 then Z.max 0 (n + k) else Z.min k n in
  String.substring 0 (Z.to_nat stop) s.

(** [d[k] = v] on a dict kept in insertion order: a known key keeps its
    place and takes the new value, a new key goes to the end. *)
Fixpoint dict_set {V : Type} (k : Z) (v : V) (d : list (Z * V))
  : list (Z * V) :=
  match d with
  | [] => [(k, v)]
  | (k', v') :: d' =>
      if k =? k' then (k, v) :: d' else (k', v') :: dict_set k v d'
  end.

End Py.

(** ** [ConfigAPICommand] *)

Module ConfigAPICommand.

Section Execute.
Context {S : Type} `{CLISettings S}.

(** The printed lines, in order. *)
Definition execute : Cmd S (list string) :=
  let! apis := cgets apis_get_all in
  cret (Py.sorted (fun name => name) (map get_name apis)).

End Execute.

End ConfigAPICommand.

(** ** [ConfigThreatExchangeAPICommand] *)

Module ConfigThreatExchangeAPICommand.

(** A privacy group as the remote API reports it. *)
Record ThreatPrivacyGroup : Type := {
  id : Z;
  name : string;
  description : string;
  threat_updates_enabled : bool;
}.

(** The remote API object; each call may raise. *)
Record ThreatExchangeAPI : Type := {
  get_threat_privacy_groups_member : Result (list ThreatPrivacyGroup);
  get_threat_privacy_groups_owner : Result (list ThreatPrivacyGroup);
  get_privacy_group : Z → Result ThreatPrivacyGroup;
}.

(** Which method [self.action] is bound to. *)
Inductive Action : Type :=
  | act_config
  | act_list_collabs
  | act_import (privacy_group_id : Z).

Record t : Type := {
  api_token : option string;
  action : Action;
}.

Definition __init__ (api_token : option string) (list_available_collabs : bool)
    (import_collab : option Z) : t :=
  {| api_token := api_token;
     action := if list_available_collabs then act_list_collabs
               else match import_collab with
                    | Some tmp_for_typing => act_import tmp_for_typing
                    | None => act_config
                    end |}.

(** Lines 560-565: the groups by id, members first, then owners. *)
Definition unique_privacy_groups (member owner : list ThreatPrivacyGroup)
  : list (Z * ThreatPrivacyGroup) :=
  fold_left (fun d pg => Py.dict_set (id pg) pg d) (member ++ owner) [].

(** Lines 572-574: one line of the listing, for a terminal of
    [max_width] columns.  Strings are byte strings here, so [len] is the
    number of bytes. *)
Definition format_line (max_width : Z) (pg : ThreatPrivacyGroup) : string :=
  let line :=
    str_replace (ascii_of_nat 10) " "
      (pretty (id pg) +:+ " " +:+ name pg +:+ " - " +:+ description pg) in
  if max_width <? Z.of_nat (String.length line)
  then Py.slice_to line (max_width - 3) +:+ "..."
  else line.

(** The groups that get a line, in printing order. *)
Definition listed_groups (member owner : list ThreatPrivacyGroup)
  : list ThreatPrivacyGroup :=
  List.filter threat_updates_enabled
    (Py.sorted name (map snd (unique_privacy_groups member owner))).

Section Execute.
Context {S : Type} `{CLISettings S}.

(** The [api] of the [FBThreatExchangeSignalExchangeAPI] instance among
    [settings.apis], if there is one. *)
Variable fb_api : S → option ThreatExchangeAPI.

(** The config dataclass of [fetcher/apis/fb_threatexchange_api.py]. *)
Variable FBThreatExchangeCollabConfig : ConfigClass.

(** [os.get_terminal_size().columns]: the call raises [OSError] when
    standard output is no terminal. *)
Variable os_get_terminal_size : Result Z.

Definition get_te_api : Cmd S ThreatExchangeAPI :=
  let! te := cgets fb_api in
  match te with
  | None => craise (AssertionError "")
  | Some api => cret api
  end.

(** The printed lines, in order.  The width of the terminal is asked for
    after both remote calls and before the first line is printed. *)
Definition execute_list_collabs : Cmd S (list string) :=
  let! api := get_te_api in
  let! member := clift (get_threat_privacy_groups_member api) in
  let! owner := clift (get_threat_privacy_groups_owner api) in
  let! max_width := clift os_get_terminal_size in
  cret (map (format_line max_width) (listed_groups member owner)).

Definition execute_import (privacy_group_id : Z) : Cmd S unit :=
  let! api := get_te_api in
  let! pg := clift (get_privacy_group api privacy_group_id) in
  let! existing := cgets (fun settings => get_collab settings (VStr (name pg))) in
  match existing with
  | Some _ =>
      craise (CommandError
                ("A collaboration already exists with the name " +:+ name pg)
                (Some 2))
  | None =>
      let! config :=
        clift (dataclass_new FBThreatExchangeCollabConfig
                 {["name" := VStr (name pg);
                   "privacy_group" := VInt privacy_group_id]}) in
      cmodify (update_collab config)
  end.

End Execute.

End ConfigThreatExchangeAPICommand.

(** * Properties *)

Import UpdateCollabCommand Precedence Rejections Surface.

(** ** Edit-set resolution *)

Lemma in_IGNORE_FIELDS_spec n :
  in_IGNORE_FIELDS n = true ↔ n = "name" ∨ n = "api" ∨ n = "enabled".
Proof.
  unfold in_IGNORE_FIELDS, _IGNORE_FIELDS. simpl.
  rewrite !orb_true_iff, !String.eqb_eq. intuition congruence.
Qed.

Lemma argument_field_not_ignored f :
  _is_argument_field f = true →
  field_init f = true ∧ in_IGNORE_FIELDS (field_name f) = false.
Proof.
  unfold _is_argument_field.
  destruct (field_init f); simpl; [|discriminate].
  destruct (in_IGNORE_FIELDS (field_name f)); [discriminate|done].
Qed.

Lemma argument_field_name_not_api f :
  _is_argument_field f = true → field_name f ≠ "api".
Proof.
  intros [_ Hi]%argument_field_not_ignored Heq.
  assert (in_IGNORE_FIELDS (field_name f) = true) as Ht
    by (apply in_IGNORE_FIELDS_spec; auto).
  congruence.
Qed.

(** The loop over the fields, key by key. *)
Lemma fields_layer_lookup fs ns : ∀ kw kw',
  fields_layer fs ns kw = Ok kw' →
  ∀ k, kw' !! k =
       match supplied_flag fs ns k with
       | Some v => Some v
       | None => if String.eqb k "api" && drops_api fs then None else kw !! k
       end.
Proof.
  induction fs as [|f fs IH]; intros kw kw' Hrun k.
  - simpl in Hrun. injection Hrun as <-.
    unfold supplied_flag, drops_api. simpl. by rewrite andb_false_r.
  - simpl in Hrun.
    assert (Hsup : ∀ b, _is_argument_field f = b →
               supplied_flag (f :: fs) ns k =
               if b && String.eqb (field_name f) k
               then match ns !! k with
                    | Some v => if is_not_None v then Some v else None
                    | None => None
                    end
               else supplied_flag fs ns k).
    { intros b <-. unfold supplied_flag. simpl.
      destruct (_is_argument_field f && String.eqb (field_name f) k); [done|].
      done. }
    assert (Hdrop : drops_api (f :: fs) =
               (negb (field_init f) && String.eqb (field_name f) "api")
               || drops_api fs) by done.
    destruct (field_init f) eqn:Hinit; simpl in Hrun.
    + destruct (in_IGNORE_FIELDS (field_name f)) eqn:Hign.
      * rewrite (Hsup false), Hdrop by (unfold _is_argument_field; by rewrite Hinit, Hign).
        simpl. by apply IH.
      * assert (Harg : _is_argument_field f = true)
          by (unfold _is_argument_field; by rewrite Hinit, Hign).
        rewrite (Hsup true Harg), Hdrop. simpl.
        destruct (ns !! field_name f) as [val|] eqn:Hns; [|discriminate].
        destruct (String.eqb_spec (field_name f) k) as [Heq|Hne].
        -- rewrite <- Heq in *. rewrite Hns.
           destruct (is_not_None val) eqn:Hval.
           ++ rewrite (IH _ _ Hrun). unfold supplied_flag at 1.
              rewrite Hns, Hval.
              destruct (existsb _ fs); [done|].
              assert (String.eqb (field_name f) "api" = false) as ->
                by (apply String.eqb_neq; by apply argument_field_name_not_api).
              simpl. by rewrite lookup_insert_eq.
           ++ rewrite (IH _ _ Hrun). unfold supplied_flag at 1.
              rewrite Hns, Hval. by destruct (existsb _ fs).
        -- destruct (is_not_None val); rewrite (IH _ _ Hrun);
             [rewrite lookup_insert_ne by done|]; done.
    + rewrite (Hsup false), Hdrop by (unfold _is_argument_field; by rewrite Hinit).
      simpl.
      destruct (String.eqb_spec (field_name f) "api") as [Hapi|Hapi].
      * destruct (kw !! "api") eqn:Hkw; [|discriminate].
        rewrite (IH _ _ Hrun). simpl. rewrite andb_true_r.
        destruct (supplied_flag fs ns k); [done|].
        destruct (String.eqb_spec k "api") as [->|Hk]; simpl.
        -- destruct (drops_api fs); [done|]. by rewrite lookup_delete_eq.
        -- by rewrite lookup_delete_ne.
      * simpl. by apply IH.
Qed.

Lemma create_layer_lookup api create n kw k :
  create_layer api create n kw !! k =
  match (if create then forced (get_name api) n k else None) with
  | Some v => Some v
  | None => kw !! k
  end.
Proof.
  unfold create_layer, forced. destruct create; [|done].
  destruct (String.eqb_spec k "name") as [->|Hn].
  { by rewrite lookup_insert_ne, lookup_insert_ne, lookup_insert_eq. }
  destruct (String.eqb_spec k "enabled") as [->|He].
  { by rewrite lookup_insert_ne, lookup_insert_eq. }
  destruct (String.eqb_spec k "api") as [->|Ha].
  { by rewrite lookup_insert_eq. }
  by rewrite !lookup_insert_ne.
Qed.

Lemma enable_layer_lookup enable kw k :
  enable_layer enable kw !! k =
  match (if String.eqb k "enabled" then enable else None) with
  | Some n => Some (VBool (py_bool_of_int n))
  | None => kw !! k
  end.
Proof.
  unfold enable_layer. destruct enable as [n|].
  - destruct (String.eqb_spec k "enabled") as [->|He].
    + by rewrite lookup_insert_eq.
    + by rewrite lookup_insert_ne.
  - by destruct (String.eqb k "enabled").
Qed.

(** What [__init__] computes, unfolded into its layers. *)
Lemma init_inv json_loads api ns create collab_name enable is_json cmd :
  __init__ json_loads api ns create collab_name enable is_json = Ok cmd →
  ∃ kw0,
    json_layer json_loads is_json collab_name
      = Ok (kw0, UpdateCollabCommand.collab_name cmd)
    ∧ kw0 = payload_of json_loads is_json collab_name
    ∧ UpdateCollabCommand.create cmd = create
    ∧ fields_layer (fields (get_config_class api)) ns
        (enable_layer enable (create_layer api create collab_name kw0))
      = Ok (edit_kwargs cmd).
Proof.
  unfold __init__. intros Hrun.
  destruct (json_layer json_loads is_json collab_name) as [[kw0 n]|e] eqn:Hj;
    simpl in Hrun; [|discriminate].
  destruct (fields_layer _ ns _) as [kw3|e] eqn:Hf; simpl in Hrun; [|discriminate].
  injection Hrun as <-. simpl. exists kw0. repeat split; try done.
  unfold json_layer in Hj. unfold payload_of. destruct is_json.
  - destruct (json_loads collab_name) as [[| | | | |d|]|]; try discriminate.
    destruct (d !! "name"); [|discriminate]. by injection Hj as <- _.
  - by injection Hj as <- _.
Qed.

(** Every key of a resolved edit set, read off the layers. *)
Lemma init_lookup json_loads api ns create collab_name enable is_json cmd :
  __init__ json_loads api ns create collab_name enable is_json = Ok cmd →
  ∀ k, edit_kwargs cmd !! k =
       layered_lookup (fields (get_config_class api)) (get_name api) ns
         create collab_name enable
         (payload_of json_loads is_json collab_name) k.
Proof.
  intros (kw0 & _ & -> & _ & Hf)%init_inv k.
  rewrite (fields_layer_lookup _ _ _ _ Hf k).
  unfold layered_lookup.
  destruct (supplied_flag _ ns k); [done|].
  destruct (String.eqb k "api" && drops_api _); [done|].
  by rewrite enable_layer_lookup, create_layer_lookup.
Qed.

(** C1: the edit set is the layers read in a fixed precedence, a later
    layer overwriting an earlier one: the JSON payload, then the fields that
    create mode forces, then the enable/disable value, then every typed flag
    that was supplied.  In particular a field that the JSON payload sets
    and a supplied flag sets too carries the flag's value. *)
Theorem edit_set_layers_by_precedence
    json_loads api ns create collab_name enable is_json cmd :
  __init__ json_loads api ns create collab_name enable is_json = Ok cmd →
  (∀ k, edit_kwargs cmd !! k =
        layered_lookup (fields (get_config_class api)) (get_name api) ns
          create collab_name enable
          (payload_of json_loads is_json collab_name) k)
  ∧ (∀ f v, f ∈ fields (get_config_class api) →
            _is_argument_field f = true →
            ns !! field_name f = Some v → v ≠ VNone →
            edit_kwargs cmd !! field_name f = Some v).
Proof.
  intros Hrun. pose proof (init_lookup _ _ _ _ _ _ _ _ Hrun) as Hall.
  split; [exact Hall|].
  intros f v Hin Harg Hns Hv. rewrite Hall. unfold layered_lookup, supplied_flag.
  assert (existsb (fun f0 => _is_argument_field f0
                             && String.eqb (field_name f0) (field_name f))
                  (fields (get_config_class api)) = true) as ->.
  { apply existsb_exists. exists f. split; [by apply list_elem_of_In|].
    by rewrite Harg, String.eqb_refl. }
  rewrite Hns. by destruct v.
Qed.

(** The spec's example: JSON [{name: a, enabled: false, x: 1}] with
    [--x=2 --enable] resolves to [enabled = true] and [x = 2]. *)
Lemma edit_set_layers_by_precedence_witness :
  ∃ cmd,
    __init__ Sample.json_loads Schemas.open_api {["x" := VInt 2]} false
      ("{" +:+ Sample.q "name" +:+ ":" +:+ Sample.q "a" +:+ ","
       +:+ Sample.q "enabled" +:+ ":false," +:+ Sample.q "x" +:+ ":1}")
      (Some 1) true = Ok cmd
    ∧ edit_kwargs cmd !! "enabled" = Some (VBool true)
    ∧ edit_kwargs cmd !! "x" = Some (VInt 2)
    ∧ edit_kwargs cmd !! "name" = Some (VStr "a").
Proof.
  eexists. split; [vm_compute; reflexivity|].
  match goal with
  | |- edit_kwargs ?c !! _ = _ ∧ _ =>
      destruct (edit_set_layers_by_precedence Sample.json_loads Schemas.open_api
                  {["x" := VInt 2]} false
                  ("{" +:+ Sample.q "name" +:+ ":" +:+ Sample.q "a" +:+ ","
                   +:+ Sample.q "enabled" +:+ ":false," +:+ Sample.q "x" +:+ ":1}")
                  (Some 1) true c) as [Hall _]; [vm_compute; reflexivity|]
  end.
  rewrite !Hall. vm_compute. done.
Defined.

(** Create mode without JSON: the forced fields, right after the create
    layer, and the identifier they agree with. *)
Lemma create_layer_forces api collab_name kw :
  let kw1 := create_layer api true collab_name kw in
  kw1 !! "name" = Some (VStr collab_name)
  ∧ kw1 !! "enabled" = Some (VBool true)
  ∧ kw1 !! "api" = Some (VStr (get_name api)).
Proof. cbv zeta. by rewrite !create_layer_lookup. Qed.

Lemma plain_identifier json_loads collab_name :
  json_layer json_loads false collab_name = Ok (∅, VStr collab_name).
Proof. done. Qed.

(** C4: at [--create --json] with the payload [{name: a}] the identifier is
    [a], taken from the payload, but the create layer forces [name] to the
    whole positional argument, the JSON text; [enabled] and [api] are forced
    as stated. *)
Theorem create_with_json_forces_raw_text_as_name :
  let raw := "{" +:+ Sample.q "name" +:+ ":" +:+ Sample.q "a" +:+ "}" in
  ∃ kw0 identifier,
    json_layer Sample.json_loads true raw = Ok (kw0, identifier)
    ∧ identifier = VStr "a"
    ∧ create_layer Schemas.open_api true raw kw0 !! "name" = Some (VStr raw)
    ∧ create_layer Schemas.open_api true raw kw0 !! "name" ≠ Some identifier
    ∧ create_layer Schemas.open_api true raw kw0 !! "enabled" = Some (VBool true)
    ∧ create_layer Schemas.open_api true raw kw0 !! "api" = Some (VStr "open")
    ∧ ∃ cmd,
        __init__ Sample.json_loads Schemas.open_api {["x" := VNone]}
          true raw None true = Ok cmd
        ∧ UpdateCollabCommand.collab_name cmd = VStr "a"
        ∧ edit_kwargs cmd !! "name" = Some (VStr raw).
Proof.
  intros raw. eexists _, _. split; [vm_compute; reflexivity|].
  split; [reflexivity|].
  rewrite !create_layer_lookup. simpl.
  split; [done|]. split; [vm_compute; discriminate|].
  split; [done|]. split; [done|].
  eexists. split; [vm_compute; reflexivity|]. split; [done|].
  vm_compute. done.
Qed.

(** ** JSON mode *)

(** The claim of C5 fails: a malformed payload, and an object without
    [name], end [__init__] with [JSONDecodeError] and [KeyError], which are
    no [CommandError] and carry no exit code 2. *)
Lemma bad_json_is_no_command_error :
  (__init__ Sample.json_loads Schemas.open_api {["x" := VNone]}
     false "{not json" None true = Raise JSONDecodeError
   ∧ is_CommandError JSONDecodeError = false
   ∧ ∀ dflt, exit_code dflt JSONDecodeError ≠ Some 2)
  ∧ (__init__ Sample.json_loads Schemas.open_api {["x" := VNone]}
       false ("{" +:+ Sample.q "x" +:+ ":1}") None true = Raise (KeyError "name")
     ∧ is_CommandError (KeyError "name") = false
     ∧ ∀ dflt, exit_code dflt (KeyError "name") ≠ Some 2).
Proof. repeat split; try (vm_compute; reflexivity); intros dflt; discriminate. Qed.

(** C5, amended: in JSON mode the positional argument is parsed as a JSON
    object, the edit set is seeded from its keys and the identifier is its
    [name]; a malformed payload ends in the [JSONDecodeError] of
    [json.loads], an object without [name] in a [KeyError] (and a payload
    that is no object in a [TypeError]), none of them a [CommandError]. *)
Theorem json_mode_resolution json_loads api ns create collab_name enable :
  (json_loads collab_name = None →
   __init__ json_loads api ns create collab_name enable true
     = Raise JSONDecodeError
   ∧ is_CommandError JSONDecodeError = false)
  ∧ (∀ d, json_loads collab_name = Some (VDict d) → d !! "name" = None →
     __init__ json_loads api ns create collab_name enable true
       = Raise (KeyError "name")
     ∧ is_CommandError (KeyError "name") = false)
  ∧ (∀ v, json_loads collab_name = Some v → (∀ d, v ≠ VDict d) →
     ∃ m, __init__ json_loads api ns create collab_name enable true
          = Raise (TypeError m))
  ∧ (∀ d n cmd, json_loads collab_name = Some (VDict d) → d !! "name" = Some n →
     __init__ json_loads api ns create collab_name enable true = Ok cmd →
     UpdateCollabCommand.collab_name cmd = n
     ∧ ∀ k, edit_kwargs cmd !! k =
            layered_lookup (fields (get_config_class api)) (get_name api) ns
              create collab_name enable d k).
Proof.
  split; [|split; [|split]].
  - intros Hj. unfold __init__, json_layer. by rewrite Hj.
  - intros d Hj Hn. unfold __init__, json_layer. by rewrite Hj, Hn.
  - intros v Hj Hv. unfold __init__, json_layer. rewrite Hj.
    destruct v; try (by eexists). by destruct (Hv d).
  - intros d n cmd Hj Hn Hrun.
    pose proof (init_lookup _ _ _ _ _ _ _ _ Hrun) as Hall.
    apply init_inv in Hrun as (kw0 & Hl & _ & _ & _).
    unfold json_layer in Hl. rewrite Hj, Hn in Hl. injection Hl as _ <-.
    split; [done|]. intros k. rewrite Hall. unfold payload_of. by rewrite Hj.
Qed.

Lemma json_mode_resolution_witness :
  (__init__ Sample.json_loads Schemas.open_api {["x" := VNone]}
     false "{not json" None true = Raise JSONDecodeError)
  ∧ (__init__ Sample.json_loads Schemas.open_api {["x" := VNone]}
       false ("{" +:+ Sample.q "x" +:+ ":1}") None true = Raise (KeyError "name"))
  ∧ ∃ cmd,
      __init__ Sample.json_loads Schemas.open_api {["x" := VNone]}
        false ("{" +:+ Sample.q "name" +:+ ":" +:+ Sample.q "a" +:+ "}") None true
        = Ok cmd
      ∧ UpdateCollabCommand.collab_name cmd = VStr "a".
Proof.
  split; [|split].
  - apply (json_mode_resolution Sample.json_loads Schemas.open_api
             {["x" := VNone]} false "{not json" None).
    vm_compute; reflexivity.
  - apply (json_mode_resolution Sample.json_loads Schemas.open_api
             {["x" := VNone]} false ("{" +:+ Sample.q "x" +:+ ":1}") None)
      with (d := {["x" := VInt 1]}); vm_compute; reflexivity.
  - eexists. split; [vm_compute; reflexivity|].
    match goal with
    | |- UpdateCollabCommand.collab_name ?c = _ =>
        apply (json_mode_resolution Sample.json_loads Schemas.open_api
                 {["x" := VNone]} false
                 ("{" +:+ Sample.q "name" +:+ ":" +:+ Sample.q "a" +:+ "}") None)
          with (d := {["name" := VStr "a"]}) (cmd := c); vm_compute; reflexivity
    end.
Defined.

(** ** Schemas that pin [api] *)

Lemma drops_api_elem fs :
  drops_api fs = true ↔
  ∃ f, f ∈ fs ∧ field_init f = false ∧ field_name f = "api".
Proof.
  unfold drops_api. rewrite existsb_exists. split.
  - intros (f & Hin & Hf). exists f. apply andb_true_iff in Hf as [Hi Hn].
    apply negb_true_iff in Hi. apply String.eqb_eq in Hn.
    by rewrite <- list_elem_of_In in Hin.
  - intros (f & Hin & Hi & Hn). exists f. rewrite <- list_elem_of_In.
    by rewrite Hi, Hn.
Qed.

(** With no [api] key to pop, the loop ends in [KeyError] at the pinned
    [api] field, provided the namespace has every flag's attribute. *)
Lemma fields_layer_pop_fails fs ns : ∀ kw,
  drops_api fs = true →
  kw !! "api" = None →
  (∀ f, f ∈ fs → _is_argument_field f = true → is_Some (ns !! field_name f)) →
  fields_layer fs ns kw = Raise (KeyError "api").
Proof.
  induction fs as [|f fs IH]; intros kw Hdrop Hkw Hns; [done|].
  simpl.
  assert (Hns' : ∀ f0, f0 ∈ fs → _is_argument_field f0 = true →
                       is_Some (ns !! field_name f0))
    by (intros f0 Hin; apply Hns; by right).
  destruct (field_init f) eqn:Hinit; simpl.
  - assert (Hdrop' : drops_api fs = true).
    { unfold drops_api in *. simpl in Hdrop. by rewrite Hinit in Hdrop. }
    destruct (in_IGNORE_FIELDS (field_name f)) eqn:Hign; [by apply IH|].
    assert (Harg : _is_argument_field f = true)
      by (unfold _is_argument_field; by rewrite Hinit, Hign).
    destruct (Hns f) as [val Hval]; [by left|done|]. rewrite Hval.
    destruct (is_not_None val); [|by apply IH].
    apply IH; [done| |done].
    rewrite lookup_insert_ne; [done|]. by apply argument_field_name_not_api.
  - destruct (String.eqb_spec (field_name f) "api") as [Hapi|Hapi].
    + by rewrite Hkw.
    + apply IH; [|done|done].
      unfold drops_api in *. simpl in Hdrop. rewrite Hinit in Hdrop.
      apply String.eqb_neq in Hapi. by rewrite Hapi in Hdrop.
Qed.

(** C10: on a schema whose [api] field is no constructor argument, every
    edit set that [__init__] produces lacks the key [api]; and a plain edit
    (no create mode, no [api] key in a JSON payload) ends [__init__] in a
    [KeyError], which is no [CommandError], before any store is involved. *)
Theorem pinned_api_is_popped_or_raises
    json_loads api ns create collab_name enable is_json :
  drops_api (fields (get_config_class api)) = true →
  (∀ cmd, __init__ json_loads api ns create collab_name enable is_json = Ok cmd →
          edit_kwargs cmd !! "api" = None)
  ∧ (create = false →
     (∀ f, f ∈ fields (get_config_class api) → _is_argument_field f = true →
           is_Some (ns !! field_name f)) →
     ∀ kw0 identifier,
       json_layer json_loads is_json collab_name = Ok (kw0, identifier) →
       kw0 !! "api" = None →
       __init__ json_loads api ns create collab_name enable is_json
         = Raise (KeyError "api")
       ∧ is_CommandError (KeyError "api") = false).
Proof.
  intros Hdrop. split.
  - intros cmd Hrun.
    pose proof (init_lookup _ _ _ _ _ _ _ _ Hrun) as Hall.
    rewrite Hall. unfold layered_lookup. rewrite Hdrop. simpl.
    unfold supplied_flag.
    destruct (existsb _ _) eqn:Hex; [|done].
    apply existsb_exists in Hex as (f & _ & Hf).
    apply andb_true_iff in Hf as [Harg Hn]. apply String.eqb_eq in Hn.
    by apply argument_field_name_not_api in Harg.
  - intros -> Hns kw0 identifier Hj Hkw. split; [|done].
    unfold __init__. rewrite Hj. simpl.
    rewrite (fields_layer_pop_fails _ ns _ Hdrop); [done| |done].
    rewrite enable_layer_lookup. simpl. done.
Qed.

Lemma pinned_api_is_popped_or_raises_witness :
  __init__ Sample.json_loads Schemas.pinned_api
    {["privacy_group" := VInt 7; "mode" := VNone]} false "a" None false
  = Raise (KeyError "api").
Proof.
  apply (pinned_api_is_popped_or_raises Sample.json_loads Schemas.pinned_api
           {["privacy_group" := VInt 7; "mode" := VNone]} false "a" None false)
    with (kw0 := ∅) (identifier := VStr "a"); try done.
  intros f Hin Harg. simpl in Hin.
  repeat (apply elem_of_cons in Hin as [->|Hin];
          [first [discriminate Harg | by eexists]|]).
  by apply elem_of_nil in Hin.
Defined.

(** ** The store mediator *)

Lemma dataclass_fill_raises fs kwargs : ∀ acc e,
  dataclass_fill fs kwargs acc = Raise e → ∃ m, e = TypeError m.
Proof.
  induction fs as [|f fs IH]; intros acc e; simpl; [discriminate|].
  destruct (if field_init f then kwargs !! field_name f else None); [by apply IH|].
  destruct (field_fallback f); [by apply IH|].
  destruct (field_init f); [|by apply IH].
  intros [= <-]. by eexists.
Qed.

Lemma dataclass_new_raises cls kwargs e :
  dataclass_new cls kwargs = Raise e → ∃ m, e = TypeError m.
Proof.
  unfold dataclass_new. destruct (List.find _ _).
  - intros [= <-]. by eexists.
  - destruct (dataclass_fill _ _ _) eqn:Hfill; simpl; [discriminate|].
    intros [= <-]. by eapply dataclass_fill_raises.
Qed.

Lemma dataclass_fill_ok_iff fs kwargs : ∀ acc,
  (∃ attrs, dataclass_fill fs kwargs acc = Ok attrs)
  ↔ ∀ f, f ∈ fs → field_init f = true → field_fallback f = None →
         is_Some (kwargs !! field_name f).
Proof.
  induction fs as [|f fs IH]; intros acc; simpl.
  { split; [by intros _ f []%elem_of_nil|by eauto]. }
  destruct (field_init f) eqn:Hinit.
  - destruct (kwargs !! field_name f) as [v|] eqn:Hk.
    + rewrite IH. split.
      * intros Hall f' [->|Hin]%elem_of_cons; [by eauto|by apply Hall].
      * intros Hall f' Hin. apply Hall. by right.
    + destruct (field_fallback f) as [v|] eqn:Hfb.
      * rewrite IH. split.
        -- intros Hall f' [->|Hin]%elem_of_cons; [congruence|by apply Hall].
        -- intros Hall f' Hin. apply Hall. by right.
      * split; [by intros [? [=]]|]. intros Hall.
        destruct (Hall f) as [v Hv]; [by left|done|done|]. congruence.
  - assert (Hrest : (∀ f', f' ∈ f :: fs → field_init f' = true →
                           field_fallback f' = None →
                           is_Some (kwargs !! field_name f'))
                    ↔ (∀ f', f' ∈ fs → field_init f' = true →
                             field_fallback f' = None →
                             is_Some (kwargs !! field_name f'))).
    { split.
      - intros Hall f' Hin. apply Hall. by right.
      - intros Hall f' [->|Hin]%elem_of_cons; [congruence|by apply Hall]. }
    rewrite Hrest. destruct (field_fallback f); apply IH.
Qed.

Lemma dataclass_new_ok_iff cls kwargs :
  (∃ obj, dataclass_new cls kwargs = Ok obj)
  ↔ (∀ k, is_Some (kwargs !! k) → is_init_field_name (fields cls) k = true)
    ∧ (∀ f, f ∈ fields cls → field_init f = true → field_fallback f = None →
            is_Some (kwargs !! field_name f)).
Proof.
  unfold dataclass_new.
  rewrite <- (dataclass_fill_ok_iff (fields cls) kwargs ∅).
  destruct (List.find _ _) as [k|] eqn:Hfind.
  - split; [by intros [? [=]]|]. intros [Hkeys _].
    apply find_some in Hfind as [Hin Hk]. apply in_map_iff in Hin
      as ([k' v] & <- & Hin%list_elem_of_In%elem_of_map_to_list).
    rewrite Hkeys in Hk by (by eexists). discriminate.
  - split.
    + intros [obj Hobj]. split.
      * intros k [v Hk].
        assert (Hin : In k (map fst (map_to_list kwargs))).
        { apply in_map_iff. exists (k, v). split; [reflexivity|].
          by apply list_elem_of_In, elem_of_map_to_list. }
        pose proof (find_none _ _ Hfind k Hin) as Hnone.
        by apply negb_false_iff in Hnone.
      * destruct (dataclass_fill _ _ _); [by eauto|discriminate].
    + intros [_ [attrs ->]]. by eauto.
Qed.

(** The claim of C2 fails in its last sentence: [--create --json] with a
    key the schema does not know is none of the three rejections, yet
    nothing is persisted, since the constructor raises [TypeError]. *)
Lemma unknown_key_on_create_persists_nothing :
  ∃ cmd,
    __init__ Sample.json_loads Schemas.open_api {["x" := VNone]} true
      ("{" +:+ Sample.q "name" +:+ ":" +:+ Sample.q "a" +:+ ","
       +:+ Sample.q "bogus" +:+ ":1}") None true = Ok cmd
    ∧ ¬ duplicate_name cmd Schemas.empty_settings
    ∧ ¬ cross_api Schemas.open_api cmd Schemas.empty_settings
    ∧ ¬ no_such_record cmd Schemas.empty_settings
    ∧ UpdateCollabCommand.execute Schemas.open_api cmd Schemas.empty_settings
      = (Raise (TypeError "__init__() got an unexpected keyword argument"),
         Schemas.empty_settings).
Proof.
  eexists. split; [vm_compute; reflexivity|].
  split; [by intros (? & [=] & _)|].
  split; [by intros (? & ? & [=] & _)|].
  split; [by intros [_ [=]]|].
  vm_compute. reflexivity.
Qed.

Section StoreProperties.

Context {S : Type} `{CLISettings S}.

(** C2, amended: [execute] raises a [CommandError], always with return
    code 2 and the settings unwritten, in exactly three cases, each with
    its own message: the identifier names a record and create mode is set;
    it names a record whose stored [api] differs from the command's API; it
    names no record and create mode is not set (the message then points at
    [--create]).  In every other case the outcome is fixed by the case: a
    record of the command's API is persisted through [update_collab] with
    the edit set assigned onto it when its class is the API's config
    class, and fails the class assertion otherwise (a stored record
    without an [api] attribute gives [AttributeError]); with no record and
    create mode set, the record the schema constructor builds from the
    edit set is persisted through [update_collab], and the constructor
    raises, always a [TypeError] and with nothing persisted, exactly when
    the edit set has a key that is no constructor field or lacks a
    constructor field without default. *)
Theorem execute_rejects_exactly (api : SignalExchangeAPI)
    (self : UpdateCollabCommand.t) (s : S) :
  let run := UpdateCollabCommand.execute api self s in
  let cls := get_config_class api in
  ((duplicate_name self s ∨ cross_api api self s ∨ no_such_record self s) ↔
   ∃ msg rc, run.1 = Raise (CommandError msg rc))
  ∧ (∀ msg rc, run.1 = Raise (CommandError msg rc) → rc = Some 2 ∧ run.2 = s)
  ∧ (duplicate_name self s →
     run = (Raise (CommandError
                     ("there's an existing collaboration named " +:+ dquote
                      +:+ py_str (UpdateCollabCommand.collab_name self)
                      +:+ dquote) (Some 2)), s))
  ∧ (∀ existing stored,
       get_collab s (UpdateCollabCommand.collab_name self) = Some existing →
       UpdateCollabCommand.create self = false →
       obj_attrs existing !! "api" = Some stored →
       py_ne_str stored (get_name api) = true →
       run = (Raise (CommandError
                       ("the existing collab is for the " +:+ py_str stored
                        +:+ " api, delete that one first") (Some 2)), s))
  ∧ (no_such_record self s →
     run = (Raise (CommandError "no such config! Did you mean to use --create?"
                                (Some 2)), s))
  ∧ (∀ existing stored,
       get_collab s (UpdateCollabCommand.collab_name self) = Some existing →
       UpdateCollabCommand.create self = false →
       obj_attrs existing !! "api" = Some stored →
       py_ne_str stored (get_name api) = false →
       (obj_class existing = class_name cls →
        run = (Ok tt,
               update_collab (setattr_all existing (edit_kwargs self)) s))
       ∧ (obj_class existing ≠ class_name cls →
          run = (Raise (AssertionError
                          "api name the same, but class different?"), s)))
  ∧ (∀ existing,
       get_collab s (UpdateCollabCommand.collab_name self) = Some existing →
       UpdateCollabCommand.create self = false →
       obj_attrs existing !! "api" = None →
       run = (Raise (AttributeError "api"), s))
  ∧ (get_collab s (UpdateCollabCommand.collab_name self) = None →
     UpdateCollabCommand.create self = true →
     (∀ to_create,
        dataclass_new cls (edit_kwargs self) = Ok to_create →
        run = (Ok tt, update_collab to_create s))
     ∧ (∀ e, dataclass_new cls (edit_kwargs self) = Raise e →
             run = (Raise e, s) ∧ ∃ m, e = TypeError m)
     ∧ ((∃ to_create, dataclass_new cls (edit_kwargs self) = Ok to_create)
        ↔ (∀ k, is_Some (edit_kwargs self !! k) →
                is_init_field_name (fields cls) k = true)
          ∧ (∀ f, f ∈ fields cls → field_init f = true →
                  field_fallback f = None →
                  is_Some (edit_kwargs self !! field_name f)))).
Proof.
  intros run cls. subst run cls.
  unfold duplicate_name, cross_api, no_such_record.
  unfold UpdateCollabCommand.execute, cbind, cgets, craise, cmodify, clift.
  destruct (get_collab s (UpdateCollabCommand.collab_name self))
    as [existing|] eqn:Hget;
    destruct (UpdateCollabCommand.create self) eqn:Hcreate; simpl.
  - (* found, create: duplicate *)
    split; [|split; [|split; [|split; [|split; [|split; [|split]]]]]];
      try done.
    + split; [by eauto|]. intros _. left. by eauto.
    + by intros msg rc [= _ <-].
    + by intros [[=] _].
  - (* found, edit *)
    split; [|split; [|split; [|split; [|split; [|split; [|split]]]]]].
    + destruct (obj_attrs existing !! "api") as [stored|] eqn:Hapi; simpl.
      * destruct (py_ne_str stored (get_name api)) eqn:Hne; simpl.
        -- split; [by eauto|]. intros _. right. left. by eauto 10.
        -- split.
           ++ intros [(? & _ & [=])|[(? & ? & [= <-] & _ & Hs & Hn)|[[=] _]]].
              congruence.
           ++ destruct (String.eqb _ _); by intros (? & ? & [=]).
      * split; [|by intros (? & ? & [=])].
        intros [(? & _ & [=])|[(? & ? & [= <-] & _ & Hs & Hn)|[[=] _]]].
        congruence.
    + intros msg rc.
      destruct (obj_attrs existing !! "api") as [stored|]; simpl; [|done].
      destruct (py_ne_str stored (get_name api)); simpl;
        [by intros [= _ <-]|].
      by destruct (String.eqb _ _).
    + by intros (? & _ & [=]).
    + intros ? stored [= <-] _ -> ->. done.
    + by intros [[=] _].
    + intros ? stored [= <-] _ -> ->. simpl. split.
      * intros ->. by rewrite String.eqb_refl.
      * intros Hne%String.eqb_neq. by rewrite Hne.
    + by intros ? [= <-] _ ->.
    + done.
  - (* not found, create *)
    split; [|split; [|split; [|split; [|split; [|split; [|split]]]]]];
      try done.
    + destruct (dataclass_new _ _) as [to_create|e] eqn:Hnew; simpl.
      * split; [|by intros (? & ? & [=])].
        by intros [(? & [=] & _)|[(? & ? & [=] & _)|[_ [=]]]].
      * destruct (dataclass_new_raises _ _ _ Hnew) as [m ->].
        split; [|by intros (? & ? & [=])].
        by intros [(? & [=] & _)|[(? & ? & [=] & _)|[_ [=]]]].
    + intros msg rc.
      destruct (dataclass_new _ _) as [to_create|e] eqn:Hnew; simpl; [done|].
      destruct (dataclass_new_raises _ _ _ Hnew) as [m ->]. done.
    + by intros (? & [=] & _).
    + by intros [_ [=]].
    + intros _ _. split; [|split].
      * by intros to_create ->.
      * intros e He. rewrite He. split; [done|].
        by eapply dataclass_new_raises.
      * apply dataclass_new_ok_iff.
  - (* not found, edit: no such record *)
    split; [|split; [|split; [|split; [|split; [|split; [|split]]]]]];
      try done.
    + split; [by eauto|]. intros _. by right; right.
    + by intros msg rc [= _ <-].
    + by intros (? & [=] & _).
Qed.

End StoreProperties.

Lemma execute_rejects_exactly_witness :
  let stored := {| obj_class := "OtherCollabConfig";
                   obj_attrs := {["name" := VStr "a"; "api" := VStr "other"]} |} in
  let s := Sample.with_collabs [stored] Schemas.empty_settings in
  let self := {| namespace := ∅; create := false;
                 edit_kwargs := {["x" := VInt 3]};
                 UpdateCollabCommand.collab_name := VStr "a" |} in
  cross_api Schemas.open_api self s
  ∧ UpdateCollabCommand.execute Schemas.open_api self s
    = (Raise (CommandError
                "the existing collab is for the other api, delete that one first"
                (Some 2)), s).
Proof.
  intros stored s self.
  assert (Hcross : cross_api Schemas.open_api self s).
  { exists stored, (VStr "other"). repeat split; vm_compute; reflexivity. }
  split; [exact Hcross|].
  destruct (execute_rejects_exactly Schemas.open_api self s)
    as (_ & _ & _ & Hmsg & _).
  apply (Hmsg stored (VStr "other")); vm_compute; reflexivity.
Defined.

(** ** Failing commands leave the settings alone *)

Section Atomicity.

Context {S : Type} `{CLISettings S}.
Variable load_from_module_name
  : string → Result ConfigExtensionsCommand.ThreatExchangeExtensionManifest.
Variable SignalTypeMapping : list string → list string → Result unit.
Variable FetcherMapping : list SignalExchangeAPI → Result unit.

(** C3: a command that fails persists nothing.  Whenever the edit/create
    command, the delete command or the add-extension command ends in an
    exception (duplicate name, cross-API edit, missing record, failed
    extension validation, or any other), the settings - collaboration
    store and persisted extension set alike - are the ones it started
    from; and deleting a name that is not stored is such a failure. *)
Theorem failed_command_persists_nothing (api : SignalExchangeAPI)
    (self : UpdateCollabCommand.t) (name : string) (module : option string)
    (s : S) :
  (∀ e, (UpdateCollabCommand.execute api self s).1 = Raise e →
        (UpdateCollabCommand.execute api self s).2 = s)
  ∧ (∀ e, (ConfigCollabDeleteCommand.execute name s).1 = Raise e →
          (ConfigCollabDeleteCommand.execute name s).2 = s)
  ∧ (get_collab s (VStr name) = None →
     ConfigCollabDeleteCommand.execute name s
     = (Raise (CommandError "No such collab" (Some 2)), s))
  ∧ (∀ e, (ConfigExtensionsCommand.execute_add load_from_module_name
             SignalTypeMapping FetcherMapping module s).1 = Raise e →
          (ConfigExtensionsCommand.execute_add load_from_module_name
             SignalTypeMapping FetcherMapping module s).2 = s
          ∧ extensions (get_persistent_config
                          (ConfigExtensionsCommand.execute_add
                             load_from_module_name SignalTypeMapping
                             FetcherMapping module s).2)
            = extensions (get_persistent_config s)).
Proof.
  split; [|split; [|split]].
  - intros e.
    unfold UpdateCollabCommand.execute, cbind, cgets, craise, cmodify, clift.
    destruct (get_collab s _) as [existing|];
      destruct (UpdateCollabCommand.create self); simpl; try done.
    + destruct (obj_attrs existing !! "api") as [stored|]; simpl; [|done].
      destruct (py_ne_str stored (get_name api)); simpl; [done|].
      by destruct (String.eqb _ _).
    + by destruct (dataclass_new _ _).
  - intros e.
    unfold ConfigCollabDeleteCommand.execute, cbind, cgets, craise, cmodify.
    by destruct (get_collab s _).
  - intros Hnone.
    unfold ConfigCollabDeleteCommand.execute, cbind, cgets, craise, cmodify.
    by rewrite Hnone.
  - intros e.
    unfold ConfigExtensionsCommand.execute_add, cbind, cgets, craise, cmodify, clift.
    destruct (ConfigExtensionsCommand.module_given module) as [m|]; simpl; [|done].
    destruct (ConfigExtensionsCommand.get_manifest _ m) as [manifest|];
      simpl; [|done].
    destruct (SignalTypeMapping _ _); simpl; [|done].
    destruct (ConfigExtensionsCommand.instantiate_apis _ _) as [apis|];
      simpl; [|done].
    by destruct (FetcherMapping _).
Qed.

End Atomicity.

Lemma failed_command_persists_nothing_witness :
  ConfigCollabDeleteCommand.execute "missing" Schemas.empty_settings
  = (Raise (CommandError "No such collab" (Some 2)), Schemas.empty_settings).
Proof.
  apply (failed_command_persists_nothing
           (fun _ => Raise (ValueError "no such module"))
           (fun _ _ => Ok tt) (fun _ => Ok tt)
           Schemas.open_api
           {| namespace := ∅; create := false; edit_kwargs := ∅;
              UpdateCollabCommand.collab_name := VStr "missing" |}
           "missing" None Schemas.empty_settings).
  vm_compute. reflexivity.
Defined.

(** ** Registering an extension *)

(** When every constructor returns, every candidate has been probed and
    the instances come back in manifest order. *)
Lemma instantiate_apis_all_ok new_apis : ∀ acc,
  Forall (fun a => ∃ i, ConfigExtensionsCommand.api_new a = Ok i) new_apis →
  ∃ instances,
    ConfigExtensionsCommand.instantiate_apis new_apis acc
    = Ok (acc ++ instances)%list
    ∧ Forall2 (fun a i => ConfigExtensionsCommand.api_new a = Ok i)
              new_apis instances.
Proof.
  induction new_apis as [|a rest IH]; intros acc Hall.
  - exists []. by rewrite app_nil_r.
  - apply Forall_cons in Hall as [[i Hi] Hrest]. simpl. rewrite Hi.
    destruct (IH (acc ++ [i])%list Hrest) as (instances & Hrun & Hall2).
    exists (i :: instances). rewrite Hrun. split.
    + by rewrite <- app_assoc.
    + by constructor.
Qed.

(** The first constructor that raises an [Exception] ends the probing in
    a [CommandError] that names its API and passes no return code. *)
Lemma instantiate_apis_first_failure ok_apis broken rest e : ∀ acc,
  Forall (fun a => ∃ i, ConfigExtensionsCommand.api_new a = Ok i) ok_apis →
  ConfigExtensionsCommand.api_new broken = Raise e →
  ConfigExtensionsCommand.is_Exception e = true →
  ConfigExtensionsCommand.instantiate_apis (ok_apis ++ broken :: rest)%list acc
  = Raise (CommandError
             ("Not able to instanciate API "
              +:+ get_name (ConfigExtensionsCommand.api_cls broken)
              +:+ " - throws " +:+ exn_str e) None).
Proof.
  induction ok_apis as [|a ok_apis IH]; intros acc Hall Hnew Hexn; simpl.
  - by rewrite Hnew, Hexn.
  - apply Forall_cons in Hall as [[i Hi] Hrest]. rewrite Hi. by apply IH.
Qed.

(** C9: adding an extension whose API [broken] raises on construction ends
    in a [CommandError] that names the API and leaves the persisted
    extension set alone; but the error is raised without a return code, so
    the exit code is the default of [CommandError], not the explicit 2 of
    the other rejections. *)
Theorem broken_api_error_carries_no_return_code :
  let broken :=
    {| ConfigExtensionsCommand.api_cls :=
         {| get_name := "broken"; get_config_class := Schemas.open_cfg |};
       ConfigExtensionsCommand.api_new := Raise (OtherException "boom") |} in
  let manifest :=
    {| ConfigExtensionsCommand.signal_types := [];
       ConfigExtensionsCommand.content_types := [];
       ConfigExtensionsCommand.apis := [broken] |} in
  let error :=
    CommandError "Not able to instanciate API broken - throws boom" None in
  ConfigExtensionsCommand.execute_add
    (fun _ => Ok manifest) (fun _ _ => Ok tt) (fun _ => Ok tt)
    (Some "my.extension") Schemas.empty_settings
  = (Raise error, Schemas.empty_settings)
  ∧ (∀ dflt, exit_code dflt error = Some dflt)
  ∧ ConfigExtensionsCommand.execute_add
      (fun _ => Raise (ValueError "no such module"))
      (fun _ _ => Ok tt) (fun _ => Ok tt)
      (Some "my.extension") Schemas.empty_settings
    = (Raise (CommandError "no such module" (Some 2)), Schemas.empty_settings).
Proof. repeat split. Qed.

(** ** The synthesized surface *)

Lemma str_in_spec s l : str_in s l = true ↔ s ∈ l.
Proof.
  unfold str_in. rewrite existsb_exists, list_elem_of_In. split.
  - by intros (x & Hin & ->%String.eqb_eq).
  - intros Hin. exists s. by rewrite String.eqb_refl.
Qed.

Lemma str_in_false s l : str_in s l = false ↔ s ∉ l.
Proof.
  rewrite <- str_in_spec. by destruct (str_in s l).
Qed.

Lemma add_argument_ok ap a ap' :
  argparse.add_argument ap a = Ok ap' →
  argparse.actions ap' = (argparse.actions ap ++ [a])%list
  ∧ argparse.defaults ap' = argparse.defaults ap
  ∧ ∀ o, o ∈ argparse.option_strings a →
         o ∉ argparse.registered_option_strings ap.
Proof.
  unfold argparse.add_argument.
  destruct (existsb _ _) eqn:Hex; [discriminate|].
  intros [= <-]. simpl. repeat split.
  intros o Hin Hreg.
  assert (existsb (fun o0 => str_in o0 (argparse.registered_option_strings ap))
                  (argparse.option_strings a) = true); [|congruence].
  apply existsb_exists. exists o. rewrite <- list_elem_of_In.
  by rewrite str_in_spec.
Qed.

Lemma registered_app ap ap' new :
  argparse.actions ap' = (argparse.actions ap ++ new)%list →
  argparse.registered_option_strings ap'
  = (argparse.registered_option_strings ap
     ++ concat (map argparse.option_strings new))%list.
Proof.
  unfold argparse.registered_option_strings. intros ->.
  by rewrite map_app, concat_app.
Qed.

Section SurfaceProperties.

Variable call_class : string → string → Result PyVal.

Lemma _add_argument_ok ap group field ap' :
  _add_argument call_class ap group field = Ok ap' →
  ∃ a, argparse.actions ap' = (argparse.actions ap ++ [a])%list
       ∧ argparse.defaults ap' = argparse.defaults ap
       ∧ synthesized_from call_class field a
       ∧ flag_of field ∉ argparse.registered_option_strings ap.
Proof.
  unfold _add_argument.
  destruct (negb (_is_argument_field field)); [discriminate|].
  assert (Hgo :
    (let? target_type := target_type_of field in
     let? (argparse_type, metavar) := type_and_metavar call_class target_type in
     argparse.add_argument ap
       {| argparse.option_strings := [flag_of field];
          argparse.dest := argparse.infer_dest [flag_of field];
          argparse.action := argparse.store;
          argparse.nargs := argparse.nargs_one;
          argparse.const := VNone;
          argparse.default := VNone;
          argparse.type := Some argparse_type;
          argparse.choices := None;
          argparse.metavar :=
            Some (if bool_decide (field_metadata field = ∅) then metavar
                  else default metavar (field_metadata field !! "metavar"));
          argparse.required := has_no_default field;
          argparse.help :=
            if bool_decide (field_metadata field = ∅)
            then "[missing] Add a help annotation on the config class!"
            else default "[missing] Add a help annotation on the config class!"
                         (field_metadata field !! "help");
          argparse.arg_group := Some group;
          argparse.mutex_group := None |}) = Ok ap' →
    ∃ a, argparse.actions ap' = (argparse.actions ap ++ [a])%list
         ∧ argparse.defaults ap' = argparse.defaults ap
         ∧ synthesized_from call_class field a
         ∧ flag_of field ∉ argparse.registered_option_strings ap).
  { destruct (target_type_of field) as [target|] eqn:Ht; simpl; [|discriminate].
    destruct (type_and_metavar call_class target) as [[conv mv]|] eqn:Htm;
      simpl; [|discriminate].
    intros (Hact & Hdef & Hfresh)%add_argument_ok.
    eexists. split; [exact Hact|]. split; [exact Hdef|]. split.
    - unfold synthesized_from. simpl. repeat split. by exists target, conv, mv.
    - apply Hfresh. simpl. by left. }
  destruct (field_type field); try exact Hgo. discriminate.
Qed.

Lemma add_field_arguments_ok group : ∀ fs ap ap',
  add_field_arguments call_class ap group fs = Ok ap' →
  ∃ new,
    argparse.actions ap' = (argparse.actions ap ++ new)%list
    ∧ argparse.defaults ap' = argparse.defaults ap
    ∧ Forall2 (synthesized_from call_class) fs new
    ∧ NoDup (map flag_of fs)
    ∧ ∀ f, f ∈ fs → flag_of f ∉ argparse.registered_option_strings ap.
Proof.
  induction fs as [|f fs IH]; intros ap ap' Hrun; simpl in Hrun.
  - injection Hrun as <-. exists []. rewrite app_nil_r.
    repeat split; [constructor|constructor|]. by intros f Hin%elem_of_nil.
  - destruct (_add_argument call_class ap group f) as [ap1|] eqn:Hadd;
      simpl in Hrun; [|discriminate].
    apply _add_argument_ok in Hadd as (a & Hact & Hdef & Hsyn & Hfresh).
    apply IH in Hrun as (new & Hact' & Hdef' & Hall & Hnd & Hfresh').
    pose proof (registered_app _ _ _ Hact) as Hreg.
    destruct Hsyn as [Hopt Hrest].
    exists (a :: new). split; [|split; [|split; [|split]]].
    + rewrite Hact', Hact. by rewrite <- app_assoc.
    + congruence.
    + constructor; [done|exact Hall].
    + simpl. constructor; [|done].
      intros Hin. apply list_elem_of_fmap in Hin as (f' & Heq & Hin).
      apply (Hfresh' f' Hin). rewrite Hreg. simpl. rewrite Hopt, <- Heq.
      apply elem_of_app. right. simpl. by left.
    + intros f' [->|Hin]%elem_of_cons; [done|].
      intros Hreg'. apply (Hfresh' f' Hin). rewrite Hreg.
      apply elem_of_app. by left.
Qed.

End SurfaceProperties.

Lemma filter_answering_none o (l : list argparse.Argument) :
  (∀ a, a ∈ l → o ∉ argparse.option_strings a) →
  List.filter (fun a => str_in o (argparse.option_strings a)) l = [].
Proof.
  induction l as [|a l IH]; intros Hno; [done|]. simpl.
  assert (str_in o (argparse.option_strings a) = false) as ->
    by (apply str_in_false, Hno; by left).
  apply IH. intros b Hb. apply Hno. by right.
Qed.

Lemma not_registered_not_answering o (l : list argparse.Argument) :
  o ∉ concat (map argparse.option_strings l) →
  ∀ a, a ∈ l → o ∉ argparse.option_strings a.
Proof.
  intros Hno a Hin Ho. apply Hno.
  apply list_elem_of_In, in_concat. exists (argparse.option_strings a).
  split; [apply in_map; by apply list_elem_of_In|by apply list_elem_of_In].
Qed.

Section SurfaceTheorems.

Variable call_class : string → string → Result PyVal.

(** Among flags synthesized from fields of distinct flag names, each
    field's flag answers to its name alone. *)
Lemma synthesized_answer_once : ∀ fs new,
  Forall2 (synthesized_from call_class) fs new →
  NoDup (map flag_of fs) →
  ∀ f, f ∈ fs →
  ∃ a, List.filter (fun a => str_in (flag_of f) (argparse.option_strings a)) new
       = [a]
       ∧ synthesized_from call_class f a.
Proof.
  induction 1 as [|f0 a0 fs new Hsyn Hall IH]; intros Hnd f Hin.
  - by apply elem_of_nil in Hin.
  - simpl in Hnd. apply NoDup_cons in Hnd as [Hfresh Hnd].
    pose proof Hsyn as [Hopt _]. simpl. rewrite Hopt.
    apply elem_of_cons in Hin as [->|Hin].
    + exists a0. split; [|done].
      assert (str_in (flag_of f0) [flag_of f0] = true) as ->
        by (apply str_in_spec; by left).
      f_equal. apply filter_answering_none. intros b Hb Hans.
      destruct (proj1 (list_elem_of_lookup _ _) Hb) as [i Hi].
      destruct (Forall2_lookup_r _ _ _ _ _ Hall Hi) as (f' & Hf' & [Hopt' _]).
      rewrite Hopt' in Hans. apply list_elem_of_singleton in Hans.
      apply Hfresh. rewrite Hans. apply list_elem_of_fmap. exists f'.
      split; [done|]. by eapply list_elem_of_lookup_2.
    + assert (str_in (flag_of f) [flag_of f0] = false) as ->.
      { apply str_in_false. intros Heq%list_elem_of_singleton.
        apply Hfresh. rewrite <- Heq. apply list_elem_of_fmap. by exists f. }
      by apply IH.
Qed.

Lemma init_argparse_ok api ap0 ap :
  init_argparse call_class api ap0 = Ok ap →
  ∃ field_args,
    argparse.actions ap
    = (argparse.actions ap0
       ++ [arg_collab_name; arg_create; arg_enable call_class; arg_disable]
       ++ field_args ++ [arg_json])%list
    ∧ argparse.defaults ap
      = insert "api_name" (VStr (get_name api)) (argparse.defaults ap0)
    ∧ Forall2 (synthesized_from call_class)
        (List.filter _is_argument_field (fields (get_config_class api)))
        field_args
    ∧ NoDup (map flag_of
               (List.filter _is_argument_field (fields (get_config_class api))))
    ∧ (∀ f, (f ∈ List.filter _is_argument_field (fields (get_config_class api))) →
            (flag_of f ∉ argparse.registered_option_strings ap0)
            ∧ (flag_of f ∉ ["--create"; "-C"; "--enable"; "--disable";
                             "--json"; "-J"]))
    ∧ (∀ o, o ∈ ["--create"; "-C"; "--enable"; "--disable"; "--json"; "-J"] →
            o ∉ argparse.registered_option_strings ap0).
Proof.
  unfold init_argparse. intros Hrun.
  destruct (argparse.add_argument ap0 arg_collab_name) as [ap1|] eqn:H1;
    simpl in Hrun; [|discriminate].
  destruct (argparse.add_argument (argparse.set_defaults ap1 _ _) arg_create)
    as [ap3|] eqn:H3; simpl in Hrun; [|discriminate].
  destruct (argparse.add_argument ap3 (arg_enable call_class))
    as [ap4|] eqn:H4; simpl in Hrun; [|discriminate].
  destruct (argparse.add_argument ap4 arg_disable)
    as [ap5|] eqn:H5; simpl in Hrun; [|discriminate].
  destruct (add_field_arguments call_class ap5 _ _)
    as [ap6|] eqn:H6; simpl in Hrun; [|discriminate].
  apply add_argument_ok in H1 as (A1 & D1 & _).
  apply add_argument_ok in H3 as (A3 & D3 & F3).
  apply add_argument_ok in H4 as (A4 & D4 & F4).
  apply add_argument_ok in H5 as (A5 & D5 & F5).
  apply add_field_arguments_ok in H6 as (new & A6 & D6 & Hall & Hnd & F6).
  apply add_argument_ok in Hrun as (A7 & D7 & F7).
  simpl in A3, D3.
  assert (Hacts5 : argparse.actions ap5
            = (argparse.actions ap0
               ++ [arg_collab_name; arg_create; arg_enable call_class;
                   arg_disable])%list).
  { rewrite A5, A4, A3, A1. by rewrite <- !app_assoc. }
  assert (Hreg5 : argparse.registered_option_strings ap5
            = (argparse.registered_option_strings ap0
               ++ ["--create"; "-C"; "--enable"; "--disable"])%list).
  { unfold argparse.registered_option_strings. rewrite Hacts5.
    by rewrite map_app, concat_app. }
  assert (Hreg3 : argparse.registered_option_strings
                    (argparse.set_defaults ap1 "api_name" (VStr (get_name api)))
                  = argparse.registered_option_strings ap0).
  { unfold argparse.registered_option_strings. simpl. rewrite A1.
    rewrite map_app, concat_app. simpl. by rewrite app_nil_r. }
  assert (Hreg4 : argparse.registered_option_strings ap3
                  = (argparse.registered_option_strings ap0
                     ++ ["--create"; "-C"])%list).
  { unfold argparse.registered_option_strings. rewrite A3, A1.
    rewrite !map_app, !concat_app. simpl. by rewrite app_nil_r. }
  assert (Hreg5' : argparse.registered_option_strings ap4
                   = (argparse.registered_option_strings ap0
                      ++ ["--create"; "-C"; "--enable"])%list).
  { unfold argparse.registered_option_strings. rewrite A4, A3, A1.
    rewrite !map_app, !concat_app. simpl. by rewrite <- !app_assoc. }
  pose proof (registered_app _ _ _ A6) as Hreg6.
  exists new. split; [|split; [|split; [|split; [|split]]]].
  - rewrite A7, A6, Hacts5. by rewrite <- !app_assoc.
  - rewrite D7, D6, D5, D4, D3. simpl. by rewrite D1.
  - exact Hall.
  - exact Hnd.
  - intros f Hf. pose proof (F6 f Hf) as Hfresh. rewrite Hreg5 in Hfresh.
    split.
    + intros Hin. apply Hfresh, elem_of_app. by left.
    + intros Hin.
      assert (Hcases : flag_of f ∈ ["--create"; "-C"; "--enable"; "--disable"]
                       ∨ flag_of f ∈ ["--json"; "-J"]).
      { rewrite !elem_of_cons in Hin. rewrite !elem_of_cons. tauto. }
      destruct Hcases as [Hb|Hj].
      * apply Hfresh, elem_of_app. by right.
      * apply (F7 (flag_of f)); [exact Hj|].
        rewrite Hreg6. apply elem_of_app. right.
        destruct (proj1 (list_elem_of_lookup _ _) Hf) as [i Hi].
        destruct (Forall2_lookup_l _ _ _ _ _ Hall Hi) as (a & Ha & [Hopt _]).
        apply list_elem_of_In, in_concat. exists (argparse.option_strings a).
        split; [apply in_map, list_elem_of_In; by eapply list_elem_of_lookup_2|].
        rewrite Hopt. by left.
  - intros o Ho Hreg.
    rewrite !elem_of_cons in Ho.
    destruct Ho as [->|[->|[->|[->|[->|[->|Ho]]]]]].
    + apply (F3 "--create"); [by left|by rewrite Hreg3].
    + apply (F3 "-C"); [by right; left|by rewrite Hreg3].
    + apply (F4 "--enable"); [by left|]. rewrite Hreg4. apply elem_of_app. by left.
    + apply (F5 "--disable"); [by left|]. rewrite Hreg5'. apply elem_of_app. by left.
    + apply (F7 "--json"); [by left|]. rewrite Hreg6, Hreg5.
      apply elem_of_app. left. apply elem_of_app. by left.
    + apply (F7 "-J"); [by right; left|]. rewrite Hreg6, Hreg5.
      apply elem_of_app. left. apply elem_of_app. by left.
    + by apply elem_of_nil in Ho.
Qed.

(** The flag of an argument field on a synthesized surface: the one
    argument answering to the field's option string. *)
Lemma argument_field_flag api ap0 ap f :
  init_argparse call_class api ap0 = Ok ap →
  f ∈ fields (get_config_class api) → _is_argument_field f = true →
  ∃ a, answering (flag_of f) ap = [a] ∧ synthesized_from call_class f a.
Proof.
  intros (new & Hacts & _ & Hall & Hnd & Hfresh & _)%init_argparse_ok Hin Harg.
  assert (Hf : f ∈ List.filter _is_argument_field (fields (get_config_class api))).
  { apply list_elem_of_In, filter_In. by rewrite <- list_elem_of_In. }
  destruct (synthesized_answer_once _ _ Hall Hnd f Hf) as (a & Hone & Hsyn).
  destruct (Hfresh f Hf) as [Hold Hfixed].
  exists a. split; [|done].
  unfold answering. rewrite Hacts, !List.filter_app, Hone.
  rewrite (filter_answering_none (flag_of f) (argparse.actions ap0))
    by (by apply not_registered_not_answering).
  rewrite (filter_answering_none (flag_of f)
             [arg_collab_name; arg_create; arg_enable call_class; arg_disable]).
  2:{ intros b Hb Hans. apply Hfixed. set (o := flag_of f) in *.
      clearbody o. rewrite !elem_of_cons in Hb.
      destruct Hb as [->|[->|[->|[->|Hb]]]]; simpl in Hans;
        rewrite ?elem_of_cons in *; try tauto; by apply elem_of_nil in Hb. }
  rewrite (filter_answering_none (flag_of f) [arg_json]).
  2:{ intros b Hb Hans. apply Hfixed. set (o := flag_of f) in *.
      clearbody o. apply list_elem_of_singleton in Hb as ->.
      simpl in Hans. rewrite ?elem_of_cons in *. tauto. }
  by rewrite app_nil_r.
Qed.

(** C6: on the surface that [init_argparse] synthesizes for a schema,
    every constructor-settable field outside [{name, api, enabled}] is
    answered by exactly one flag, [--] followed by the field name with
    hyphens for underscores, and that flag is required if and only if the
    field has neither a default nor a default factory; the surface holds
    nothing besides the five fixed arguments and those flags, so a field
    that is not constructor-settable or is in the ignore set produces none. *)
Theorem every_argument_field_is_one_flag api ap0 ap :
  init_argparse call_class api ap0 = Ok ap →
  (∀ f, f ∈ fields (get_config_class api) → _is_argument_field f = true →
        ∃ a, answering (flag_of f) ap = [a]
             ∧ argparse.option_strings a = [flag_of f]
             ∧ (argparse.required a = true ↔
                field_default f = None ∧ field_default_factory f = None))
  ∧ ∃ field_args,
      argparse.actions ap
      = (argparse.actions ap0
         ++ [arg_collab_name; arg_create; arg_enable call_class; arg_disable]
         ++ field_args ++ [arg_json])%list
      ∧ Forall2 (fun f a => argparse.option_strings a = [flag_of f])
          (List.filter _is_argument_field (fields (get_config_class api)))
          field_args.
Proof.
  intros Hrun. split.
  - intros f Hin Harg.
    destruct (argument_field_flag _ _ _ _ Hrun Hin Harg) as (a & Hone & Hsyn).
    exists a. split; [done|].
    destruct Hsyn as (Hopt & _ & _ & _ & _ & _ & Hreq & _).
    split; [done|]. rewrite Hreq. unfold has_no_default.
    destruct (field_default f), (field_default_factory f);
      (split; [try discriminate; done|by intros [? ?]]).
  - apply init_argparse_ok in Hrun as (new & Hacts & _ & Hall & _).
    exists new. split; [done|].
    eapply Forall2_impl; [exact Hall|]. by intros f a [? _].
Qed.

End SurfaceTheorems.

Lemma every_argument_field_is_one_flag_witness :
  init_argparse Sample.call_class Schemas.pinned_api Schemas.empty_parser
  = Ok Schemas.pinned_surface
  ∧ ∃ a, answering "--privacy-group" Schemas.pinned_surface = [a]
         ∧ argparse.option_strings a = ["--privacy-group"]
         ∧ argparse.required a = true.
Proof.
  assert (Hrun : init_argparse Sample.call_class Schemas.pinned_api
                   Schemas.empty_parser = Ok Schemas.pinned_surface)
    by (vm_compute; reflexivity).
  split; [exact Hrun|].
  destruct (every_argument_field_is_one_flag Sample.call_class
              Schemas.pinned_api Schemas.empty_parser Schemas.pinned_surface
              Hrun) as [Hflags _].
  destruct (Hflags (Schemas.mk_field "privacy_group" (TClass "int") true None))
    as (a & Hone & Hopt & Hreq).
  - apply list_elem_of_In. right. right. right. left. reflexivity.
  - reflexivity.
  - exists a. split; [exact Hone|]. split; [exact Hopt|].
    apply Hreq. split; reflexivity.
Defined.

(** ** Enum-valued flags *)

(** The claim of C7 fails for its metavar: an enum-valued field that
    declares a [metavar] in its metadata gets that one, not the bracketed
    member list. *)
Lemma declared_metavar_replaces_member_list :
  target_type_of Schemas.mode_with_metavar
  = Ok (TEnumClass "Mode" ["FAST"; "SLOW"])
  ∧ ∃ ap a,
      init_argparse Sample.call_class Schemas.tagged_api Schemas.empty_parser
      = Ok ap
      ∧ answering "--mode" ap = [a]
      ∧ argparse.metavar a = Some "MODE"
      ∧ argparse.metavar a ≠ Some (bracketed ["FAST"; "SLOW"]).
Proof.
  split; [reflexivity|].
  destruct (init_argparse Sample.call_class Schemas.tagged_api
              Schemas.empty_parser) as [ap|] eqn:Hrun;
    [|vm_compute in Hrun; discriminate].
  destruct (argument_field_flag _ _ _ _ Schemas.mode_with_metavar Hrun)
    as (a & Hone & Hsyn).
  { apply list_elem_of_In. right. right. right. left. reflexivity. }
  { reflexivity. }
  exists ap, a. split; [done|]. split; [exact Hone|].
  destruct Hsyn as (_ & _ & _ & _ & _ & _ & _ & target & conv & mv & Ht & Htm & _ & Hmv).
  injection Ht as <-. injection Htm as _ <-.
  rewrite Hmv. split; [reflexivity|]. vm_compute. discriminate.
Qed.

Section EnumFlags.

Variable call_class : string → string → Result PyVal.

(** C7, amended: for every field whose unwrapped type is an enum, the
    synthesized flag's metavar is the bracketed, comma-joined list of the
    enum's member names unless the field's metadata declares a [metavar],
    which then replaces it; the flag converts exactly the member names, each
    to its member, and refuses any other string as a parse error. *)
Theorem enum_flag_metavar_and_choices api ap0 ap f cls members :
  init_argparse call_class api ap0 = Ok ap →
  f ∈ fields (get_config_class api) →
  _is_argument_field f = true →
  target_type_of f = Ok (TEnumClass cls members) →
  ∃ a, answering (flag_of f) ap = [a]
       ∧ argparse.metavar a
         = Some (default (bracketed members) (field_metadata f !! "metavar"))
       ∧ ∀ s, (s ∈ members → argparse._get_values a [s] = Ok (VEnum cls s))
              ∧ (s ∉ members →
                 argparse._get_values a [s] = argparse.parse_error "invalid value").
Proof.
  intros Hrun Hin Harg Htarget.
  destruct (argument_field_flag _ _ _ _ _ Hrun Hin Harg) as (a & Hone & Hsyn).
  exists a. split; [done|].
  destruct Hsyn as (_ & _ & _ & Hnargs & Hchoices & _ & _
                    & target & conv & mv & Ht & Htm & Htype & Hmv).
  rewrite Htarget in Ht. injection Ht as <-.
  simpl in Htm. injection Htm as <- <-.
  split.
  - rewrite Hmv. fold (bracketed members). case_bool_decide as Hmd; [|done].
    by rewrite Hmd, lookup_empty.
  - intros s.
    unfold argparse._get_values, argparse._get_value, argparse._check_value.
    rewrite Hnargs, Htype, Hchoices.
    unfold common.argparse_choices_pre_type, enum_getitem.
    split; intros Hs.
    + apply str_in_spec in Hs. by rewrite Hs.
    + apply str_in_false in Hs. by rewrite Hs.
Qed.

End EnumFlags.

Lemma enum_flag_metavar_and_choices_witness :
  ∃ a, answering "--mode" Schemas.pinned_surface = [a]
       ∧ argparse.metavar a = Some "[FAST,SLOW]"
       ∧ argparse._get_values a ["SLOW"] = Ok (VEnum "Mode" "SLOW")
       ∧ argparse._get_values a ["slow"] = argparse.parse_error "invalid value".
Proof.
  assert (Hrun : init_argparse Sample.call_class Schemas.pinned_api
                   Schemas.empty_parser = Ok Schemas.pinned_surface)
    by (vm_compute; reflexivity).
  destruct (enum_flag_metavar_and_choices Sample.call_class
              Schemas.pinned_api Schemas.empty_parser Schemas.pinned_surface
              (Schemas.mk_field "mode"
                 (TGeneric "Optional"
                    [TEnumClass "Mode" ["FAST"; "SLOW"]; TClass "NoneType"])
                 true (Some VNone))
              "Mode" ["FAST"; "SLOW"] Hrun)
    as (a & Hone & Hmv & Hacc).
  - apply list_elem_of_In. right. right. right. right. left. reflexivity.
  - reflexivity.
  - reflexivity.
  - exists a. split; [exact Hone|]. split; [exact Hmv|]. split.
    + apply Hacc. apply list_elem_of_In. right. left. reflexivity.
    + apply Hacc. intros Hs. apply list_elem_of_In in Hs.
      destruct Hs as [Hs|[Hs|[]]]; discriminate Hs.
Defined.

(** ** Parsing: the enable/disable pair *)

Lemma take_action_ok ia strs st st1 :
  argparse.take_action ia strs st = Ok st1 →
  argparse.seen st1 = ia :: argparse.seen st
  ∧ existsb (argparse.conflicts ia) (argparse.seen st) = false
  ∧ ∃ values, argparse._get_values (snd ia) strs = Ok values
              ∧ argparse.ns st1 = argparse.run_action (snd ia) values (argparse.ns st).
Proof.
  unfold argparse.take_action.
  destruct (argparse._get_values (snd ia) strs) as [values|]; simpl; [|discriminate].
  destruct (existsb _ _); [discriminate|].
  intros [= <-]. simpl. repeat split. by exists values.
Qed.

(** One turn of the parsing loop that goes on: the state moves by at most
    one action, free of conflicts with the ones seen, and an option token
    leaves its action among the seen ones. *)
Lemma consume_step ap tok rest st st' :
  argparse.consume ap (tok :: rest) st = Ok st' →
  ∃ st1 rest1,
    argparse.consume ap rest1 st1 = Ok st'
    ∧ (rest1 = rest ∨ ∃ s, rest = argparse.TArg s :: rest1)
    ∧ (argparse.seen st1 = argparse.seen st
       ∨ ∃ ia, argparse.seen st1 = ia :: argparse.seen st
               ∧ existsb (argparse.conflicts ia) (argparse.seen st) = false)
    ∧ (∀ o x ia, tok = argparse.TOption o x →
                 argparse.find_option ap o = Some ia →
                 ia ∈ argparse.seen st1).
Proof.
  destruct tok as [o explicit|s]; simpl.
  - destruct (argparse.find_option ap o) as [ia|] eqn:Hfind.
    + assert (Htake : ∀ strs rest1,
                (rest1 = rest ∨ ∃ s, rest = argparse.TArg s :: rest1) →
                (let? st1 := argparse.take_action ia strs st in
                 argparse.consume ap rest1 st1) = Ok st' →
                ∃ st1 rest1,
                  argparse.consume ap rest1 st1 = Ok st'
                  ∧ (rest1 = rest ∨ ∃ s, rest = argparse.TArg s :: rest1)
                  ∧ (argparse.seen st1 = argparse.seen st
                     ∨ ∃ ia, argparse.seen st1 = ia :: argparse.seen st
                             ∧ existsb (argparse.conflicts ia) (argparse.seen st)
                               = false)
                  ∧ (∀ o0 x ia0, argparse.TOption o explicit = argparse.TOption o0 x →
                                 argparse.find_option ap o0 = Some ia0 →
                                 ia0 ∈ argparse.seen st1)).
      { intros strs rest1 Hrest Hrun.
        destruct (argparse.take_action ia strs st) as [st1|] eqn:Hta;
          simpl in Hrun; [|discriminate].
        apply take_action_ok in Hta as (Hseen & Hfree & _).
        exists st1, rest1. split; [done|]. split; [done|]. split.
        - right. by exists ia.
        - intros o0 x ia0 [= <- _] Hfind0. rewrite Hseen.
          rewrite Hfind in Hfind0. injection Hfind0 as <-. by left. }
      destruct explicit as [v|].
      * destruct (argparse.nargs (snd ia)); try discriminate;
          apply Htake; by left.
      * destruct (argparse.nargs (snd ia)).
        -- destruct rest as [|[o' x'|s] rest']; try discriminate.
           apply Htake. right. by exists s.
        -- destruct rest as [|[o' x'|s] rest']; try (apply Htake; by left).
           apply Htake. right. by exists s.
        -- apply Htake. by left.
    + intros Hrun. exists (argparse.add_extra o st), rest.
      split; [done|]. split; [by left|]. split; [by left|].
      intros o0 x ia [= <- _] Hfind0. congruence.
  - destruct (argparse.positionals st) as [|p ps] eqn:Hpos.
    + intros Hrun. exists (argparse.add_extra s st), rest.
      split; [done|]. split; [by left|]. split; [by left|]. discriminate.
    + intros Hrun.
      destruct (argparse.take_action p [s] (argparse.pop_positional st))
        as [st1|] eqn:Hta; simpl in Hrun; [|discriminate].
      apply take_action_ok in Hta as (Hseen & Hfree & _).
      exists st1, rest. split; [done|]. split; [by left|]. split.
      * right. by exists p.
      * discriminate.
Qed.

Lemma conflicts_sym ia jb :
  argparse.conflicts ia jb = argparse.conflicts jb ia.
Proof.
  unfold argparse.conflicts. rewrite Nat.eqb_sym. f_equal.
  destruct (argparse.mutex_group (snd ia)), (argparse.mutex_group (snd jb));
    try done. apply String.eqb_sym.
Qed.

(** A finished loop has seen the action of every option token, and has
    seen no two actions of one mutually exclusive group. *)
Lemma consume_ok_seen ap : ∀ n toks st st',
  (length toks ≤ n)%nat →
  argparse.consume ap toks st = Ok st' →
  (∀ ia, ia ∈ argparse.seen st → ia ∈ argparse.seen st')
  ∧ (∀ o x ia, argparse.TOption o x ∈ toks →
               argparse.find_option ap o = Some ia → ia ∈ argparse.seen st')
  ∧ ((∀ ia jb, ia ∈ argparse.seen st → jb ∈ argparse.seen st →
               argparse.conflicts ia jb = false) →
     ∀ ia jb, ia ∈ argparse.seen st' → jb ∈ argparse.seen st' →
              argparse.conflicts ia jb = false).
Proof.
  induction n as [|n IH]; intros toks st st' Hlen Hrun.
  - destruct toks; [|simpl in Hlen; lia]. simpl in Hrun. injection Hrun as <-.
    repeat split; try done. by intros o x ia Hin%elem_of_nil.
  - destruct toks as [|tok rest].
    { simpl in Hrun. injection Hrun as <-.
      repeat split; try done. by intros o x ia Hin%elem_of_nil. }
    apply consume_step in Hrun as (st1 & rest1 & Hrun & Hrest & Hseen & Htok).
    assert (Hlen1 : (length rest1 ≤ n)%nat).
    { simpl in Hlen. destruct Hrest as [->|[s ->]]; simpl in *; lia. }
    destruct (IH rest1 st1 st' Hlen1 Hrun) as (Hmono & Hopts & Hfree).
    assert (Hmono1 : ∀ ia, ia ∈ argparse.seen st → ia ∈ argparse.seen st1).
    { intros ia Hin. destruct Hseen as [->|(ia' & -> & _)]; [done|by right]. }
    split; [|split].
    + intros ia Hin. by apply Hmono, Hmono1.
    + intros o x ia Hin Hfind.
      apply elem_of_cons in Hin as [<-|Hin].
      * apply Hmono. by eapply Htok.
      * apply (Hopts o x); [|done].
        destruct Hrest as [->|[s ->]]; [done|].
        by apply elem_of_cons in Hin as [[=]|Hin].
    + intros Hst. apply Hfree.
      destruct Hseen as [->|(ia' & -> & Hnew)]; [done|].
      assert (Hnew' : ∀ jb, jb ∈ argparse.seen st →
                            argparse.conflicts ia' jb = false).
      { intros jb Hjb.
        destruct (argparse.conflicts ia' jb) eqn:Hc; [|done].
        assert (existsb (argparse.conflicts ia') (argparse.seen st) = true)
          as Hex; [|congruence].
        apply existsb_exists. exists jb. by rewrite <- list_elem_of_In. }
      assert (Hself : argparse.conflicts ia' ia' = false).
      { unfold argparse.conflicts. by rewrite Nat.eqb_refl. }
      intros ia jb [->|Hia]%elem_of_cons [->|Hjb]%elem_of_cons.
      * done.
      * by apply Hnew'.
      * rewrite conflicts_sym. by apply Hnew'.
      * by apply Hst.
Qed.

Lemma find_imap_at o (f : nat → argparse.Argument → nat * argparse.Argument) :
  ∀ pre a post,
  (∀ i x, snd (f i x) = x) →
  (∀ b, b ∈ pre → o ∉ argparse.option_strings b) →
  o ∈ argparse.option_strings a →
  List.find (fun ia => str_in o (argparse.option_strings (snd ia)))
            (imap f (pre ++ a :: post))
  = Some (f (length pre) a).
Proof.
  intros pre. revert f.
  induction pre as [|b pre IH]; intros f a post Hsnd Hpre Ha; simpl.
  - rewrite Hsnd. by apply str_in_spec in Ha as ->.
  - rewrite Hsnd.
    assert (str_in o (argparse.option_strings b) = false) as ->
      by (apply str_in_false, Hpre; by left).
    rewrite (IH (f ∘ S)); [done| |by intros b' Hb'; apply Hpre; right|done].
    intros i x. apply Hsnd.
Qed.

Section Exclusion.

Variable call_class : string → string → Result PyVal.

(** On a synthesized surface [--enable] and [--disable] resolve to the two
    members of the [on_off] group. *)
Lemma on_off_options api ap0 ap :
  init_argparse call_class api ap0 = Ok ap →
  ∃ i j,
    argparse.find_option ap "--enable" = Some (i, arg_enable call_class)
    ∧ argparse.find_option ap "--disable" = Some (j, arg_disable)
    ∧ argparse.conflicts (i, arg_enable call_class) (j, arg_disable) = true.
Proof.
  intros (new & Hacts & _ & _ & _ & _ & Hfixed)%init_argparse_ok.
  assert (Hold : ∀ o, o ∈ ["--enable"; "--disable"] →
                      ∀ b, b ∈ argparse.actions ap0 →
                           o ∉ argparse.option_strings b).
  { intros o Ho. apply not_registered_not_answering, Hfixed.
    rewrite !elem_of_cons in Ho. rewrite !elem_of_cons. tauto. }
  exists (length (argparse.actions ap0 ++ [arg_collab_name; arg_create])),
         (length (argparse.actions ap0
                  ++ [arg_collab_name; arg_create; arg_enable call_class])).
  split; [|split].
  - unfold argparse.find_option, argparse.indexed. rewrite Hacts.
    replace (argparse.actions ap0
             ++ [arg_collab_name; arg_create; arg_enable call_class; arg_disable]
             ++ new ++ [arg_json])%list
      with ((argparse.actions ap0 ++ [arg_collab_name; arg_create])
            ++ arg_enable call_class :: (arg_disable :: new ++ [arg_json]))%list
      by (by rewrite <- app_assoc).
    apply (find_imap_at "--enable" pair); [done| |simpl; by left].
    intros b [Hb|Hb]%elem_of_app; [apply Hold; [by left|done]|].
    rewrite !elem_of_cons in Hb.
    destruct Hb as [->|[->|Hb]]; simpl; rewrite ?elem_of_cons;
      [by intros Hn%elem_of_nil| |by apply elem_of_nil in Hb].
    intros [[=]|[[=]|Hn%elem_of_nil]]. done.
  - unfold argparse.find_option, argparse.indexed. rewrite Hacts.
    replace (argparse.actions ap0
             ++ [arg_collab_name; arg_create; arg_enable call_class; arg_disable]
             ++ new ++ [arg_json])%list
      with ((argparse.actions ap0
             ++ [arg_collab_name; arg_create; arg_enable call_class])
            ++ arg_disable :: (new ++ [arg_json]))%list
      by (by rewrite <- app_assoc).
    apply (find_imap_at "--disable" pair); [done| |simpl; by left].
    intros b [Hb|Hb]%elem_of_app; [apply Hold; [by right; left|done]|].
    rewrite !elem_of_cons in Hb.
    destruct Hb as [->|[->|[->|Hb]]]; simpl; rewrite ?elem_of_cons;
      [by intros Hn%elem_of_nil| | |by apply elem_of_nil in Hb].
    + intros [[=]|[[=]|Hn%elem_of_nil]]. done.
    + intros [[=]|Hn%elem_of_nil]. done.
  - unfold argparse.conflicts. simpl. rewrite !length_app. simpl.
    rewrite andb_true_r. apply negb_true_iff, Nat.eqb_neq. lia.
Qed.

(** C8: on every synthesized surface, an argument vector that supplies
    both [--enable] and [--disable] is refused by the parser, so the
    invocation ends before [__init__] builds an edit set; the two options
    are the members of one mutually exclusive group, a bare [--enable]
    stores 1, which the resolver turns into [enabled = True], and
    [--disable] stores 0, which it turns into [enabled = False]. *)
Theorem enable_and_disable_exclude_each_other
    json_loads api ap0 ap toks x y :
  init_argparse call_class api ap0 = Ok ap →
  argparse.TOption "--enable" x ∈ toks →
  argparse.TOption "--disable" y ∈ toks →
  (∃ err, argparse.parse_args ap toks = Raise err
          ∧ Dispatch.resolve json_loads api ap toks = Raise err)
  ∧ (∃ i j,
       argparse.find_option ap "--enable" = Some (i, arg_enable call_class)
       ∧ argparse.find_option ap "--disable" = Some (j, arg_disable)
       ∧ (∀ st, existsb (argparse.conflicts (i, arg_enable call_class))
                        (argparse.seen st) = false →
                ∃ st', argparse.take_action (i, arg_enable call_class) [] st
                       = Ok st'
                       ∧ argparse.ns st' !! "enable" = Some (VInt 1))
       ∧ (∀ st, existsb (argparse.conflicts (j, arg_disable))
                        (argparse.seen st) = false →
                ∃ st', argparse.take_action (j, arg_disable) [] st = Ok st'
                       ∧ argparse.ns st' !! "enable" = Some (VInt 0)))
  ∧ (∀ kw, enable_layer (Some 1) kw !! "enabled" = Some (VBool true))
  ∧ (∀ kw, enable_layer (Some 0) kw !! "enabled" = Some (VBool false)).
Proof.
  intros Hrun Hen Hdis.
  destruct (on_off_options _ _ _ Hrun) as (i & j & Hfe & Hfd & Hconf).
  split; [|split; [|split]].
  - assert (Hfail : ∃ err, argparse.parse_args ap toks = Raise err).
    { unfold argparse.parse_args.
      destruct (argparse.consume ap toks _) as [st'|err] eqn:Hc; simpl;
        [|by exists err].
      exfalso.
      destruct (consume_ok_seen ap (length toks) toks _ st' (le_n _) Hc)
        as (_ & Hopts & Hfree).
      assert (argparse.conflicts (i, arg_enable call_class) (j, arg_disable)
              = false); [|congruence].
      apply Hfree.
      - simpl. by intros ia jb Hin%elem_of_nil.
      - by apply (Hopts "--enable" x).
      - by apply (Hopts "--disable" y). }
    destruct Hfail as [err Herr]. exists err. split; [done|].
    unfold Dispatch.resolve. by rewrite Herr.
  - exists i, j. split; [done|]. split; [done|]. split.
    + intros st Hfree. unfold argparse.take_action. simpl. rewrite Hfree.
      eexists. split; [done|]. unfold argparse.run_action. cbn.
      apply lookup_insert_eq.
    + intros st Hfree. unfold argparse.take_action. simpl. rewrite Hfree.
      eexists. split; [done|]. unfold argparse.run_action. cbn.
      apply lookup_insert_eq.
  - intros kw. by rewrite enable_layer_lookup.
  - intros kw. by rewrite enable_layer_lookup.
Qed.

End Exclusion.

Lemma enable_and_disable_exclude_each_other_witness :
  ∃ err,
    argparse.parse_args Schemas.pinned_surface
      [argparse.TArg "foo"; argparse.TOption "--privacy-group" (Some "12");
       argparse.TOption "--enable" None; argparse.TOption "--disable" None]
    = Raise err.
Proof.
  assert (Hrun : init_argparse Sample.call_class Schemas.pinned_api
                   Schemas.empty_parser = Ok Schemas.pinned_surface)
    by (vm_compute; reflexivity).
  destruct (enable_and_disable_exclude_each_other Sample.call_class
              Sample.json_loads Schemas.pinned_api Schemas.empty_parser
              Schemas.pinned_surface
              [argparse.TArg "foo"; argparse.TOption "--privacy-group" (Some "12");
               argparse.TOption "--enable" None; argparse.TOption "--disable" None]
              None None Hrun)
    as [(err & Herr & _) _].
  - apply list_elem_of_In. right. right. left. reflexivity.
  - apply list_elem_of_In. right. right. right. left. reflexivity.
  - by exists err.
Defined.

(** ** When resolution and synthesis return *)

(** The field loop returns when the namespace carries every flag's
    attribute and an [api] key is there to pop where the schema pins it. *)
Lemma fields_layer_returns fs ns : ∀ kw,
  NoDup (map field_name fs) →
  (∀ f, f ∈ fs → _is_argument_field f = true → is_Some (ns !! field_name f)) →
  (drops_api fs = true → is_Some (kw !! "api")) →
  ∃ kw', fields_layer fs ns kw = Ok kw'.
Proof.
  induction fs as [|f fs IH]; intros kw Hnd Hns Hapi; [by eexists|].
  simpl in Hnd. apply NoDup_cons in Hnd as [Hfresh Hnd].
  assert (Hns' : ∀ f0, f0 ∈ fs → _is_argument_field f0 = true →
                       is_Some (ns !! field_name f0))
    by (intros f0 Hin; apply Hns; by right).
  assert (Hdrop : drops_api (f :: fs) =
             (negb (field_init f) && String.eqb (field_name f) "api")
             || drops_api fs) by done.
  simpl. destruct (field_init f) eqn:Hinit; simpl.
  - rewrite Hdrop in Hapi. rewrite ?Hinit in Hapi. simpl in Hapi.
    destruct (in_IGNORE_FIELDS (field_name f)) eqn:Hign; [by apply IH|].
    assert (Harg : _is_argument_field f = true)
      by (unfold _is_argument_field; by rewrite Hinit, Hign).
    destruct (Hns f) as [val Hval]; [by left|done|]. rewrite Hval.
    destruct (is_not_None val); [|by apply IH].
    apply IH; [done|done|]. intros Hd.
    rewrite lookup_insert_ne; [by apply Hapi|].
    by apply argument_field_name_not_api.
  - rewrite Hdrop in Hapi. rewrite ?Hinit in Hapi. simpl in Hapi.
    destruct (String.eqb_spec (field_name f) "api") as [Heq|Hne].
    + destruct Hapi as [v Hv]; [done|]. rewrite Hv.
      apply IH; [done|done|]. intros Hd.
      apply drops_api_elem in Hd as (f' & Hin & _ & Hname).
      exfalso. apply Hfresh. rewrite Heq, <- Hname.
      apply list_elem_of_fmap. by exists f'.
    + apply IH; [done|done|]. intros Hd. apply Hapi. by rewrite Hd.
Qed.

Lemma init_returns json_loads api ns create collab_name enable is_json kw0 n :
  json_layer json_loads is_json collab_name = Ok (kw0, n) →
  NoDup (map field_name (fields (get_config_class api))) →
  (∀ f, f ∈ fields (get_config_class api) → _is_argument_field f = true →
        is_Some (ns !! field_name f)) →
  (drops_api (fields (get_config_class api)) = true →
   create = true ∨ is_Some (kw0 !! "api")) →
  ∃ cmd, __init__ json_loads api ns create collab_name enable is_json = Ok cmd.
Proof.
  intros Hj Hnd Hns Hapi. unfold __init__. rewrite Hj. simpl.
  destruct (fields_layer_returns (fields (get_config_class api)) ns
              (enable_layer enable (create_layer api create collab_name kw0))
              Hnd Hns) as [kw' Hkw'].
  { intros Hd. rewrite enable_layer_lookup, create_layer_lookup. simpl.
    destruct (Hapi Hd) as [->|Hsome]; [by eexists|].
    destruct create; [by eexists|done]. }
  rewrite Hkw'. by eexists.
Qed.

Lemma add_argument_returns ap a :
  (∀ o, o ∈ argparse.option_strings a →
        o ∉ argparse.registered_option_strings ap) →
  argparse.add_argument ap a
  = Ok {| argparse.actions := argparse.actions ap ++ [a];
          argparse.defaults := argparse.defaults ap |}.
Proof.
  intros Hfresh. unfold argparse.add_argument.
  destruct (existsb _ _) eqn:Hex; [|done].
  apply existsb_exists in Hex as (o & Hin & Hreg).
  apply str_in_spec in Hreg. apply list_elem_of_In in Hin.
  by destruct (Hfresh o Hin).
Qed.

Section SynthesisReturns.

Variable call_class : string → string → Result PyVal.

Lemma _add_argument_returns ap group field :
  _is_argument_field field = true →
  resolvable (field_type field) = true →
  flag_of field ∉ argparse.registered_option_strings ap →
  ∃ ap', _add_argument call_class ap group field = Ok ap'.
Proof.
  intros Harg Hres Hfresh. unfold _add_argument. rewrite Harg. simpl.
  assert (Hgo : ∀ conv mv,
    ∃ ap', argparse.add_argument ap
       {| argparse.option_strings := [flag_of field];
          argparse.dest := argparse.infer_dest [flag_of field];
          argparse.action := argparse.store;
          argparse.nargs := argparse.nargs_one;
          argparse.const := VNone;
          argparse.default := VNone;
          argparse.type := Some conv;
          argparse.choices := None;
          argparse.metavar :=
            Some (if bool_decide (field_metadata field = ∅) then mv
                  else default mv (field_metadata field !! "metavar"));
          argparse.required := has_no_default field;
          argparse.help :=
            if bool_decide (field_metadata field = ∅)
            then "[missing] Add a help annotation on the config class!"
            else default "[missing] Add a help annotation on the config class!"
                         (field_metadata field !! "help");
          argparse.arg_group := Some group;
          argparse.mutex_group := None |} = Ok ap').
  { intros conv mv. eexists. apply add_argument_returns.
    intros o Ho. simpl in Ho. by apply list_elem_of_singleton in Ho as ->. }
  unfold target_type_of.
  destruct (field_type field) as [c|c ms|g [|[c|c ms|g' args'|r] args]|r];
    simpl in Hres; try discriminate; simpl; apply Hgo.
Qed.

Lemma add_field_arguments_returns group : ∀ fs ap,
  Forall (fun f => _is_argument_field f = true
                   ∧ resolvable (field_type f) = true) fs →
  NoDup (map flag_of fs) →
  (∀ f, f ∈ fs → flag_of f ∉ argparse.registered_option_strings ap) →
  ∃ ap', add_field_arguments call_class ap group fs = Ok ap'.
Proof.
  induction fs as [|f fs IH]; intros ap Hall Hnd Hfresh; [by eexists|].
  apply Forall_cons in Hall as [[Harg Hres] Hall].
  simpl in Hnd. apply NoDup_cons in Hnd as [Hnew Hnd].
  destruct (_add_argument_returns ap group f Harg Hres) as [ap1 Hadd];
    [apply Hfresh; by left|].
  simpl. rewrite Hadd. simpl.
  apply IH; [done|done|]. intros f' Hin Hreg.
  apply _add_argument_ok in Hadd as (a & Hact & _ & [Hopt _] & _).
  rewrite (registered_app _ _ _ Hact) in Hreg. simpl in Hreg.
  rewrite Hopt, app_nil_r in Hreg.
  apply elem_of_app in Hreg as [Hreg|Hreg%list_elem_of_singleton].
  - apply (Hfresh f'); [by right|done].
  - apply Hnew. rewrite <- Hreg. apply list_elem_of_fmap. by exists f'.
Qed.

(** Synthesis returns a surface whenever the flags of the argument fields
    are pairwise distinct and new to the parser, no fixed option string is
    taken, and every argument field has a type that stands for a class. *)
Lemma init_argparse_returns api ap0 :
  let arg_fields :=
    List.filter _is_argument_field (fields (get_config_class api)) in
  NoDup (map flag_of arg_fields) →
  (∀ f, f ∈ arg_fields →
        resolvable (field_type f) = true
        ∧ (flag_of f ∉ argparse.registered_option_strings ap0)
        ∧ (flag_of f ∉ fixed_option_strings)) →
  (∀ o, o ∈ fixed_option_strings →
        o ∉ argparse.registered_option_strings ap0) →
  ∃ ap, init_argparse call_class api ap0 = Ok ap.
Proof.
  intros arg_fields Hnd Hfields Hfixed. unfold init_argparse.
  rewrite add_argument_returns by (by intros o Ho%elem_of_nil). simpl.
  set (reg0 := argparse.registered_option_strings ap0) in *.
  assert (Hreg : ∀ acts l,
            argparse.registered_option_strings
              {| argparse.actions := argparse.actions ap0 ++ acts;
                 argparse.defaults := l |}
            = (reg0 ++ concat (map argparse.option_strings acts))%list).
  { intros acts l. unfold argparse.registered_option_strings, reg0. simpl.
    by rewrite map_app, concat_app. }
  unfold argparse.set_defaults. simpl.
  rewrite add_argument_returns.
  2:{ intros o Ho. rewrite Hreg. simpl. rewrite app_nil_r. apply Hfixed.
      unfold fixed_option_strings. simpl in Ho.
      rewrite !elem_of_cons in Ho. rewrite !elem_of_cons. tauto. }
  simpl. rewrite <- app_assoc. simpl.
  rewrite add_argument_returns.
  2:{ intros o Ho. rewrite Hreg. simpl. simpl in Ho.
      apply list_elem_of_singleton in Ho as ->.
      intros [Hr|Hr]%elem_of_app.
      - apply (Hfixed "--enable"); [|done].
        unfold fixed_option_strings. rewrite !elem_of_cons. tauto.
      - rewrite !elem_of_cons in Hr.
        destruct Hr as [[=]|[[=]|Hr%elem_of_nil]]. done. }
  simpl. rewrite <- app_assoc. simpl.
  rewrite add_argument_returns.
  2:{ intros o Ho. rewrite Hreg. simpl. simpl in Ho.
      apply list_elem_of_singleton in Ho as ->.
      intros [Hr|Hr]%elem_of_app.
      - apply (Hfixed "--disable"); [|done].
        unfold fixed_option_strings. rewrite !elem_of_cons. tauto.
      - rewrite !elem_of_cons in Hr.
        destruct Hr as [[=]|[[=]|[[=]|Hr%elem_of_nil]]]. done. }
  simpl. rewrite <- app_assoc. simpl.
  destruct (add_field_arguments_returns
              ("specific to " +:+ get_name api) arg_fields
              {| argparse.actions :=
                   argparse.actions ap0
                   ++ [arg_collab_name; arg_create; arg_enable call_class;
                       arg_disable];
                 argparse.defaults :=
                   <["api_name" := VStr (get_name api)]> (argparse.defaults ap0) |})
    as [ap6 Hap6].
  { apply Forall_forall. intros f Hf. split; [|by apply Hfields].
    apply list_elem_of_In, filter_In in Hf. by destruct Hf. }
  { done. }
  { intros f Hf. rewrite Hreg. simpl.
    destruct (Hfields f Hf) as (_ & Hold & Hfix).
    intros [Hr|Hr]%elem_of_app; [done|]. apply Hfix.
    unfold fixed_option_strings. rewrite !elem_of_cons in Hr.
    rewrite !elem_of_cons. tauto. }
  fold arg_fields. rewrite Hap6. simpl.
  apply add_field_arguments_ok in Hap6 as (new & Hact & _ & Hall & _ & _).
  eexists. apply add_argument_returns.
  intros o Ho. rewrite (registered_app _ _ _ Hact), Hreg. simpl.
  assert (Hnew : o ∉ concat (map argparse.option_strings new)).
  { intros Hin. apply list_elem_of_In, in_concat in Hin as (os & Hos & Hin).
    apply in_map_iff in Hos as (a & <- & Ha). apply list_elem_of_In in Ha.
    destruct (proj1 (list_elem_of_lookup _ _) Ha) as [i Hi].
    destruct (Forall2_lookup_r _ _ _ _ _ Hall Hi) as (f & Hf & [Hopt _]).
    rewrite Hopt in Hin. destruct Hin as [<-|[]].
    destruct (Hfields f) as (_ & _ & Hfix);
      [by eapply list_elem_of_lookup_2|].
    apply Hfix. unfold fixed_option_strings. simpl in Ho.
    rewrite !elem_of_cons in Ho. rewrite !elem_of_cons. tauto. }
  intros [[Hr|Hr]%elem_of_app|Hr]%elem_of_app; [| |done].
  - apply (Hfixed o); [|done]. unfold fixed_option_strings. simpl in Ho.
    rewrite !elem_of_cons in Ho. rewrite !elem_of_cons. tauto.
  - simpl in Ho, Hr. rewrite !elem_of_cons in Ho. rewrite !elem_of_cons in Hr.
    destruct Ho as [->|[->|Ho%elem_of_nil]]; [| |done];
      destruct Hr as [[=]|[[=]|[[=]|[[=]|Hr%elem_of_nil]]]]; done.
Qed.

End SynthesisReturns.

(** ** Worked invocations *)

(** [edit open foo --create --enable] and [edit open foo --create --disable]
    from the argument vector to the stored record. *)
Example create_enabled_end_to_end :
  ∃ cmd,
    Dispatch.resolve Sample.json_loads Schemas.open_api Schemas.open_surface
      [argparse.TArg "foo"; argparse.TOption "--create" None;
       argparse.TOption "--enable" None] = Ok cmd
    ∧ edit_kwargs cmd !! "enabled" = Some (VBool true)
    ∧ ∃ s, UpdateCollabCommand.execute Schemas.open_api cmd Schemas.empty_settings
           = (Ok tt, s)
           ∧ (obj_attrs <$> get_collab s (VStr "foo"))
             = Some {["name" := VStr "foo"; "api" := VStr "open";
                      "enabled" := VBool true; "x" := VInt 0]}.
Proof.
  eexists. split; [vm_compute; reflexivity|].
  split; [vm_compute; reflexivity|].
  eexists. split; [vm_compute; reflexivity|].
  vm_compute. reflexivity.
Qed.

Example create_disabled_end_to_end :
  ∃ cmd,
    Dispatch.resolve Sample.json_loads Schemas.open_api Schemas.open_surface
      [argparse.TArg "foo"; argparse.TOption "--create" None;
       argparse.TOption "--disable" None; argparse.TOption "--x" (Some "5")]
    = Ok cmd
    ∧ edit_kwargs cmd !! "enabled" = Some (VBool false)
    ∧ edit_kwargs cmd !! "x" = Some (VInt 5).
Proof.
  eexists. split; [vm_compute; reflexivity|].
  split; vm_compute; reflexivity.
Qed.

(** [--enable=0] disables, and a value outside [{0, 1}] is a parse error. *)
Example enable_with_value :
  (∃ ns, argparse.parse_args Schemas.open_surface
           [argparse.TArg "foo"; argparse.TOption "--enable" (Some "0")] = Ok ns
         ∧ ns !! "enable" = Some (VInt 0))
  ∧ argparse.parse_args Schemas.open_surface
      [argparse.TArg "foo"; argparse.TOption "--enable" (Some "2")]
    = argparse.parse_error "invalid choice".
Proof.
  split; [eexists; split|]; vm_compute; reflexivity.
Qed.

(** Editing a stored record assigns the edit set onto it and keeps the
    rest. *)
Example edit_existing_end_to_end :
  let stored := {| obj_class := "OpenCollabConfig";
                   obj_attrs := {["name" := VStr "foo"; "api" := VStr "open";
                                  "enabled" := VBool true; "x" := VInt 0]} |} in
  let s := Sample.with_collabs [stored] Schemas.empty_settings in
  ∃ cmd s',
    Dispatch.resolve Sample.json_loads Schemas.open_api Schemas.open_surface
      [argparse.TArg "foo"; argparse.TOption "--x" (Some "7")] = Ok cmd
    ∧ UpdateCollabCommand.execute Schemas.open_api cmd s = (Ok tt, s')
    ∧ (obj_attrs <$> get_collab s' (VStr "foo"))
      = Some {["name" := VStr "foo"; "api" := VStr "open";
               "enabled" := VBool true; "x" := VInt 7]}.
Proof.
  eexists _, _. split; [vm_compute; reflexivity|].
  split; vm_compute; reflexivity.
Qed.

(** * Further properties *)

(** ** Editing a stored record *)

(** Assigning an edit set onto a record: its keys win, the other
    attributes and the class stay. *)
Lemma setattr_all_spec obj kwargs :
  obj_class (setattr_all obj kwargs) = obj_class obj
  ∧ ∀ k, obj_attrs (setattr_all obj kwargs) !! k
         = match kwargs !! k with
           | Some v => Some v
           | None => obj_attrs obj !! k
           end.
Proof.
  unfold setattr_all.
  apply (map_fold_weak_ind
           (fun (r : CollabConfig) (m : gmap string PyVal) =>
              obj_class r = obj_class obj
              ∧ ∀ k, obj_attrs r !! k
                     = match m !! k with
                       | Some v => Some v
                       | None => obj_attrs obj !! k
                       end)).
  - split; [done|]. intros k. by rewrite lookup_empty.
  - intros i x m r Hi [Hcls Hattrs]. split; [done|]. intros k. simpl.
    destruct (decide (i = k)) as [->|Hne].
    + by rewrite !lookup_insert_eq.
    + rewrite !lookup_insert_ne by done. apply Hattrs.
Qed.

Lemma py_ne_str_false v s : py_ne_str v s = false ↔ v = VStr s.
Proof.
  destruct v; simpl; try (split; [discriminate|by intros [=]]).
  rewrite negb_false_iff, String.eqb_eq. split; [by intros ->|by intros [=]].
Qed.

Section EditProperties.

Context {S : Type} `{CLISettings S}.

(** X1: an edit of a stored record of the command's API persists that
    record with every key of the edit set assigned onto it; every other
    attribute, and the record's class, stay as they were. *)
Theorem edit_overwrites_only_the_edit_set (api : SignalExchangeAPI)
    (self : UpdateCollabCommand.t) (s : S) (existing : CollabConfig) :
  get_collab s (UpdateCollabCommand.collab_name self) = Some existing →
  UpdateCollabCommand.create self = false →
  obj_attrs existing !! "api" = Some (VStr (get_name api)) →
  obj_class existing = class_name (get_config_class api) →
  ∃ updated,
    UpdateCollabCommand.execute api self s = (Ok tt, update_collab updated s)
    ∧ obj_class updated = obj_class existing
    ∧ ∀ k, obj_attrs updated !! k
           = match edit_kwargs self !! k with
             | Some v => Some v
             | None => obj_attrs existing !! k
             end.
Proof.
  intros Hget Hcreate Hapi Hcls.
  exists (setattr_all existing (edit_kwargs self)).
  split; [|apply setattr_all_spec].
  unfold UpdateCollabCommand.execute, cbind, cgets, craise, cmodify.
  rewrite Hget, Hcreate, Hapi. simpl.
  rewrite String.eqb_refl. simpl. by rewrite Hcls, String.eqb_refl.
Qed.

End EditProperties.

Lemma edit_overwrites_only_the_edit_set_witness :
  let stored := {| obj_class := "OpenCollabConfig";
                   obj_attrs := {["name" := VStr "foo"; "api" := VStr "open";
                                  "enabled" := VBool true; "x" := VInt 0]} |} in
  let s := Sample.with_collabs [stored] Schemas.empty_settings in
  let self := {| namespace := ∅; create := false;
                 edit_kwargs := {["x" := VInt 3]};
                 UpdateCollabCommand.collab_name := VStr "foo" |} in
  ∃ updated,
    UpdateCollabCommand.execute Schemas.open_api self s
    = (Ok tt, update_collab updated s)
    ∧ obj_attrs updated !! "x" = Some (VInt 3)
    ∧ obj_attrs updated !! "enabled" = Some (VBool true).
Proof.
  intros stored s self.
  destruct (edit_overwrites_only_the_edit_set Schemas.open_api self s stored)
    as (updated & Hrun & _ & Hattrs); try reflexivity.
  exists updated. split; [exact Hrun|]. rewrite !Hattrs. split; reflexivity.
Defined.

(** ** What a plain invocation can put into the edit set *)

Lemma supplied_flag_ignored fs ns k :
  in_IGNORE_FIELDS k = true → supplied_flag fs ns k = None.
Proof.
  intros Hk. unfold supplied_flag.
  destruct (existsb _ _) eqn:Hex; [|done].
  apply existsb_exists in Hex as (f & _ & Hf).
  apply andb_true_iff in Hf as [Harg Hn]. apply String.eqb_eq in Hn.
  apply argument_field_not_ignored in Harg as [_ Hi]. congruence.
Qed.

Lemma supplied_flag_Some fs ns k v :
  supplied_flag fs ns k = Some v ↔
  v ≠ VNone ∧ ns !! k = Some v
  ∧ ∃ f, f ∈ fs ∧ _is_argument_field f = true ∧ field_name f = k.
Proof.
  unfold supplied_flag. split.
  - destruct (existsb _ _) eqn:Hex; [|discriminate].
    destruct (ns !! k) as [v'|]; [|discriminate].
    destruct (is_not_None v') eqn:Hnn; [|discriminate].
    intros [= ->]. split; [by intros ->|]. split; [done|].
    apply existsb_exists in Hex as (f & Hin & Hf).
    apply andb_true_iff in Hf as [Harg Hn]. apply String.eqb_eq in Hn.
    exists f. by rewrite list_elem_of_In.
  - intros (Hv & -> & f & Hin & Harg & Hn).
    assert (existsb (fun f0 => _is_argument_field f0
                               && String.eqb (field_name f0) k) fs = true) as ->.
    { apply existsb_exists. exists f. rewrite <- list_elem_of_In.
      by rewrite Harg, Hn, String.eqb_refl. }
    by destruct v.
Qed.

(** The edit set of an invocation without [--json] and [--create]. *)
Lemma plain_edit_lookup json_loads api ns collab_name enable cmd :
  __init__ json_loads api ns false collab_name enable false = Ok cmd →
  UpdateCollabCommand.collab_name cmd = VStr collab_name
  ∧ UpdateCollabCommand.create cmd = false
  ∧ ∀ k, edit_kwargs cmd !! k
         = match supplied_flag (fields (get_config_class api)) ns k with
           | Some v => Some v
           | None =>
               if String.eqb k "enabled"
               then (λ n, VBool (py_bool_of_int n)) <$> enable
               else None
           end.
Proof.
  intros Hrun. pose proof (init_lookup _ _ _ _ _ _ _ _ Hrun) as Hall.
  apply init_inv in Hrun as (kw0 & Hl & _ & Hc & _).
  injection Hl as _ <-. split; [done|]. split; [done|].
  intros k. rewrite Hall. unfold layered_lookup, payload_of.
  destruct (supplied_flag _ ns k); [done|].
  destruct (String.eqb_spec k "api") as [->|Hk]; simpl.
  - by destruct (drops_api _).
  - destruct (String.eqb k "enabled"); [by destruct enable|].
    by rewrite lookup_empty.
Qed.

(** X2: without [--json] and without [--create] the edit set holds no
    [name] and no [api]; [enabled] is there exactly when [--enable] or
    [--disable] was given; every other key is the name of an argument field
    whose flag was supplied, with the flag's value. *)
Theorem plain_edit_set_holds_only_supplied_flags
    json_loads api ns collab_name enable cmd :
  __init__ json_loads api ns false collab_name enable false = Ok cmd →
  UpdateCollabCommand.collab_name cmd = VStr collab_name
  ∧ edit_kwargs cmd !! "name" = None
  ∧ edit_kwargs cmd !! "api" = None
  ∧ edit_kwargs cmd !! "enabled"
    = (λ n, VBool (py_bool_of_int n)) <$> enable
  ∧ ∀ k v, edit_kwargs cmd !! k = Some v → k ≠ "enabled" →
           v ≠ VNone ∧ ns !! k = Some v
           ∧ ∃ f, f ∈ fields (get_config_class api)
                  ∧ _is_argument_field f = true ∧ field_name f = k.
Proof.
  intros (Hname & _ & Hlook)%plain_edit_lookup.
  split; [done|]. split; [|split; [|split]].
  - rewrite Hlook, supplied_flag_ignored by (apply in_IGNORE_FIELDS_spec; auto).
    done.
  - rewrite Hlook, supplied_flag_ignored by (apply in_IGNORE_FIELDS_spec; auto).
    done.
  - rewrite Hlook, supplied_flag_ignored by (apply in_IGNORE_FIELDS_spec; auto).
    done.
  - intros k v Hk Hne. rewrite Hlook in Hk.
    destruct (supplied_flag _ ns k) as [v'|] eqn:Hs.
    + injection Hk as ->. by apply supplied_flag_Some.
    + apply String.eqb_neq in Hne. rewrite Hne in Hk. discriminate.
Qed.

Lemma plain_edit_set_holds_only_supplied_flags_witness :
  ∃ cmd,
    __init__ Sample.json_loads Schemas.open_api {["x" := VInt 2]}
      false "foo" (Some 0) false = Ok cmd
    ∧ edit_kwargs cmd !! "name" = None
    ∧ edit_kwargs cmd !! "enabled" = Some (VBool false).
Proof.
  destruct (__init__ Sample.json_loads Schemas.open_api {["x" := VInt 2]}
              false "foo" (Some 0) false) as [cmd|] eqn:Hrun;
    [|vm_compute in Hrun; discriminate].
  exists cmd. split; [reflexivity|].
  destruct (plain_edit_set_holds_only_supplied_flags _ _ _ _ _ _ Hrun)
    as (_ & Hname & _ & Hen & _).
  split; [exact Hname|exact Hen].
Defined.

Section EditComposition.

Context {S : Type} `{CLISettings S}.

(** What a successful run of [execute] in edit mode has done. *)
Lemma execute_edit_ok (api : SignalExchangeAPI) (self : UpdateCollabCommand.t)
    (s s' : S) :
  UpdateCollabCommand.create self = false →
  UpdateCollabCommand.execute api self s = (Ok tt, s') →
  ∃ existing,
    get_collab s (UpdateCollabCommand.collab_name self) = Some existing
    ∧ obj_attrs existing !! "api" = Some (VStr (get_name api))
    ∧ obj_class existing = class_name (get_config_class api)
    ∧ s' = update_collab (setattr_all existing (edit_kwargs self)) s.
Proof.
  intros Hcreate.
  unfold UpdateCollabCommand.execute, cbind, cgets, craise, cmodify.
  rewrite Hcreate.
  destruct (get_collab s _) as [existing|]; simpl; [|discriminate].
  destruct (obj_attrs existing !! "api") as [stored|] eqn:Hapi;
    simpl; [|discriminate].
  destruct (py_ne_str stored (get_name api)) eqn:Hne; simpl; [discriminate|].
  destruct (String.eqb_spec (obj_class existing)
                            (class_name (get_config_class api))) as [Hcls|];
    simpl; [|discriminate].
  intros [= <-]. exists existing. apply py_ne_str_false in Hne as ->. done.
Qed.

(** X3: a successful plain edit (no [--json], no [--create]) persists the
    record it found under the given name with the same class, the same
    [name] and the same [api], which is the command's API. *)
Theorem plain_edit_keeps_name_and_api json_loads (api : SignalExchangeAPI)
    ns collab_name enable cmd (s s' : S) :
  __init__ json_loads api ns false collab_name enable false = Ok cmd →
  UpdateCollabCommand.execute api cmd s = (Ok tt, s') →
  ∃ existing updated,
    get_collab s (VStr collab_name) = Some existing
    ∧ s' = update_collab updated s
    ∧ obj_class updated = obj_class existing
    ∧ obj_attrs updated !! "name" = obj_attrs existing !! "name"
    ∧ obj_attrs updated !! "api" = obj_attrs existing !! "api"
    ∧ obj_attrs updated !! "api" = Some (VStr (get_name api)).
Proof.
  intros (Hname & Hcreate & Hlook)%plain_edit_lookup Hrun.
  apply execute_edit_ok in Hrun as (existing & Hget & Hapi & _ & ->); [|done].
  rewrite Hname in Hget.
  destruct (setattr_all_spec existing (edit_kwargs cmd)) as [Hcls Hattrs].
  exists existing, (setattr_all existing (edit_kwargs cmd)).
  split; [done|]. split; [done|]. split; [done|].
  rewrite !Hattrs, !Hlook.
  rewrite !supplied_flag_ignored by (apply in_IGNORE_FIELDS_spec; auto).
  by simpl.
Qed.

(** X4: a successful JSON edit assigns every key of the payload onto the
    stored record, unless a supplied flag or the enable/disable value
    overrides it, or it is the [api] key on a schema that pins [api]; on
    other schemas the payload's [api] replaces the stored one, and keys that
    are no fields of the schema become attributes of the record. *)
Theorem json_edit_assigns_every_payload_key json_loads (api : SignalExchangeAPI)
    ns text enable d cmd (s s' : S) :
  json_loads text = Some (VDict d) →
  __init__ json_loads api ns false text enable true = Ok cmd →
  UpdateCollabCommand.execute api cmd s = (Ok tt, s') →
  ∃ existing updated,
    d !! "name" = Some (UpdateCollabCommand.collab_name cmd)
    ∧ get_collab s (UpdateCollabCommand.collab_name cmd) = Some existing
    ∧ s' = update_collab updated s
    ∧ ∀ k v, d !! k = Some v →
             supplied_flag (fields (get_config_class api)) ns k = None →
             (k = "enabled" → enable = None) →
             (k = "api" → drops_api (fields (get_config_class api)) = false) →
             obj_attrs updated !! k = Some v.
Proof.
  intros Hj Hinit Hrun.
  pose proof (init_lookup _ _ _ _ _ _ _ _ Hinit) as Hall.
  apply init_inv in Hinit as (kw0 & Hl & _ & Hcreate & _).
  unfold json_layer in Hl. rewrite Hj in Hl.
  destruct (d !! "name") as [n|] eqn:Hn; [|discriminate].
  injection Hl as _ Hid. subst n.
  apply execute_edit_ok in Hrun as (existing & Hget & _ & _ & ->); [|done].
  destruct (setattr_all_spec existing (edit_kwargs cmd)) as [_ Hattrs].
  exists existing, (setattr_all existing (edit_kwargs cmd)).
  split; [done|]. split; [done|]. split; [done|].
  intros k v Hk Hsup Hen Hapi. rewrite Hattrs, Hall.
  unfold layered_lookup, payload_of. rewrite Hsup, Hj.
  destruct (String.eqb_spec k "api") as [->|Hka]; simpl.
  - rewrite Hapi by done. simpl. by rewrite Hk.
  - destruct (String.eqb_spec k "enabled") as [->|Hke].
    + rewrite Hen by done. by rewrite Hk.
    + by rewrite Hk.
Qed.

End EditComposition.

Lemma plain_edit_keeps_name_and_api_witness :
  let stored := {| obj_class := "OpenCollabConfig";
                   obj_attrs := {["name" := VStr "foo"; "api" := VStr "open";
                                  "enabled" := VBool true; "x" := VInt 0]} |} in
  let s := Sample.with_collabs [stored] Schemas.empty_settings in
  ∃ cmd s' updated,
    __init__ Sample.json_loads Schemas.open_api {["x" := VInt 7]}
      false "foo" None false = Ok cmd
    ∧ UpdateCollabCommand.execute Schemas.open_api cmd s = (Ok tt, s')
    ∧ s' = update_collab updated s
    ∧ obj_attrs updated !! "name" = Some (VStr "foo")
    ∧ obj_attrs updated !! "api" = Some (VStr "open").
Proof.
  intros stored s.
  destruct (__init__ Sample.json_loads Schemas.open_api {["x" := VInt 7]}
              false "foo" None false) as [cmd|] eqn:Hinit;
    [|vm_compute in Hinit; discriminate].
  destruct (UpdateCollabCommand.execute Schemas.open_api cmd s)
    as [[[]|e] s'] eqn:Hrun.
  2:{ exfalso. revert Hrun.
      pose proof Hinit as Hc. vm_compute in Hc. injection Hc as <-.
      vm_compute. discriminate. }
  destruct (plain_edit_keeps_name_and_api _ _ _ _ _ _ _ _ Hinit Hrun)
    as (existing & updated & Hget & Hs' & _ & Hname & _ & Hapi).
  exists cmd, s', updated. split; [reflexivity|]. split; [exact Hrun|].
  split; [exact Hs'|]. split; [|exact Hapi].
  rewrite Hname. vm_compute in Hget. injection Hget as <-. reflexivity.
Defined.

Lemma json_edit_assigns_every_payload_key_witness :
  let stored := {| obj_class := "OpenCollabConfig";
                   obj_attrs := {["name" := VStr "foo"; "api" := VStr "open";
                                  "enabled" := VBool true; "x" := VInt 0]} |} in
  let s := Sample.with_collabs [stored] Schemas.empty_settings in
  let text := "{" +:+ Sample.q "name" +:+ ":" +:+ Sample.q "foo" +:+ ","
              +:+ Sample.q "api" +:+ ":" +:+ Sample.q "other" +:+ ","
              +:+ Sample.q "note" +:+ ":1}" in
  ∃ cmd s' updated,
    __init__ Sample.json_loads Schemas.open_api {["x" := VNone]}
      false text None true = Ok cmd
    ∧ UpdateCollabCommand.execute Schemas.open_api cmd s = (Ok tt, s')
    ∧ s' = update_collab updated s
    ∧ obj_attrs updated !! "api" = Some (VStr "other")
    ∧ obj_attrs updated !! "note" = Some (VInt 1).
Proof.
  intros stored s text.
  destruct (__init__ Sample.json_loads Schemas.open_api {["x" := VNone]}
              false text None true) as [cmd|] eqn:Hinit;
    [|vm_compute in Hinit; discriminate].
  destruct (UpdateCollabCommand.execute Schemas.open_api cmd s)
    as [[[]|e] s'] eqn:Hrun.
  2:{ exfalso. revert Hrun.
      pose proof Hinit as Hc. vm_compute in Hc. injection Hc as <-.
      vm_compute. discriminate. }
  destruct (json_edit_assigns_every_payload_key Sample.json_loads
              Schemas.open_api {["x" := VNone]} text None
              {["name" := VStr "foo"; "api" := VStr "other"; "note" := VInt 1]}
              cmd s s') as (existing & updated & _ & _ & Hs' & Hkeys);
    [vm_compute; reflexivity|exact Hinit|exact Hrun|].
  exists cmd, s', updated. split; [reflexivity|]. split; [exact Hrun|].
  split; [exact Hs'|].
  split; apply Hkeys; try reflexivity; discriminate.
Defined.

(** ** When resolution returns *)

(** X5: without [--json], for a namespace that carries every flag's
    attribute, [__init__] returns exactly when the schema does not pin
    [api] or create mode is set; otherwise it ends in [KeyError]. *)
Theorem plain_resolution_returns_exactly
    json_loads api ns create collab_name enable :
  NoDup (map field_name (fields (get_config_class api))) →
  (∀ f, f ∈ fields (get_config_class api) → _is_argument_field f = true →
        is_Some (ns !! field_name f)) →
  ((∃ cmd, __init__ json_loads api ns create collab_name enable false = Ok cmd)
   ↔ drops_api (fields (get_config_class api)) = false ∨ create = true)
  ∧ (drops_api (fields (get_config_class api)) = true → create = false →
     __init__ json_loads api ns create collab_name enable false
     = Raise (KeyError "api")).
Proof.
  intros Hnd Hns.
  assert (Hfail : drops_api (fields (get_config_class api)) = true →
                  create = false →
                  __init__ json_loads api ns create collab_name enable false
                  = Raise (KeyError "api")).
  { intros Hd ->. unfold __init__. simpl.
    rewrite (fields_layer_pop_fails _ ns _ Hd); [done| |done].
    by rewrite enable_layer_lookup. }
  split; [|exact Hfail]. split.
  - intros [cmd Hrun].
    destruct (drops_api _) eqn:Hd; [|by left].
    destruct create; [by right|]. rewrite Hfail in Hrun by done. discriminate.
  - intros Hok. eapply init_returns; [done|done|done|].
    intros Hd. destruct Hok as [Hok| ->]; [congruence|by left].
Qed.

Lemma plain_resolution_returns_exactly_witness :
  (∃ cmd, __init__ Sample.json_loads Schemas.pinned_api
            {["privacy_group" := VInt 7; "mode" := VNone]}
            true "a" None false = Ok cmd)
  ∧ __init__ Sample.json_loads Schemas.pinned_api
      {["privacy_group" := VInt 7; "mode" := VNone]} false "a" None false
    = Raise (KeyError "api").
Proof.
  assert (Hnd : NoDup (map field_name (fields (get_config_class Schemas.pinned_api)))).
  { simpl. repeat (constructor; [rewrite ?elem_of_cons;
      intros Hin; repeat (destruct Hin as [Hin|Hin]; [discriminate Hin|]);
      by apply elem_of_nil in Hin|]). constructor. }
  assert (Hns : ∀ f, f ∈ fields (get_config_class Schemas.pinned_api) →
                     _is_argument_field f = true →
                     is_Some (({["privacy_group" := VInt 7; "mode" := VNone]}
                               : gmap string PyVal) !! field_name f)).
  { intros f Hin Harg. simpl in Hin.
    repeat (apply elem_of_cons in Hin as [->|Hin];
            [first [discriminate Harg | by eexists]|]).
    by apply elem_of_nil in Hin. }
  split.
  - apply (plain_resolution_returns_exactly Sample.json_loads Schemas.pinned_api
             _ true "a" None Hnd Hns). by right.
  - apply (plain_resolution_returns_exactly Sample.json_loads Schemas.pinned_api
             _ false "a" None Hnd Hns); reflexivity.
Defined.

(** ** Creating a record *)

Lemma field_of_name fs f f' :
  NoDup (map field_name fs) → f ∈ fs → f' ∈ fs →
  field_name f = field_name f' → f = f'.
Proof.
  induction fs as [|g fs IH]; intros Hnd Hf Hf' Heq.
  - by apply elem_of_nil in Hf.
  - simpl in Hnd. apply NoDup_cons in Hnd as [Hg Hnd].
    apply elem_of_cons in Hf as [->|Hf]; apply elem_of_cons in Hf' as [->|Hf'].
    + done.
    + exfalso. apply Hg. rewrite Heq. apply list_elem_of_fmap. by exists f'.
    + exfalso. apply Hg. rewrite <- Heq. apply list_elem_of_fmap. by exists f.
    + by apply IH.
Qed.

Lemma is_init_field_name_spec fs k :
  is_init_field_name fs k = true ↔
  ∃ f, f ∈ fs ∧ field_init f = true ∧ field_name f = k.
Proof.
  unfold is_init_field_name. rewrite existsb_exists. split.
  - intros (f & Hin & Hf). apply andb_true_iff in Hf as [Hi Hn].
    apply String.eqb_eq in Hn. exists f. by rewrite list_elem_of_In.
  - intros (f & Hin & Hi & Hn). exists f. rewrite <- list_elem_of_In.
    by rewrite Hi, Hn, String.eqb_refl.
Qed.

(** The attributes the generated constructor sets, field by field. *)
Lemma dataclass_fill_lookup fs kwargs : ∀ acc attrs,
  NoDup (map field_name fs) →
  dataclass_fill fs kwargs acc = Ok attrs →
  (∀ f, f ∈ fs →
        attrs !! field_name f
        = match (if field_init f then kwargs !! field_name f else None) with
          | Some v => Some v
          | None => match field_fallback f with
                    | Some v => Some v
                    | None => acc !! field_name f
                    end
          end)
  ∧ (∀ k, k ∉ map field_name fs → attrs !! k = acc !! k).
Proof.
  induction fs as [|g fs IH]; intros acc attrs Hnd Hrun.
  - simpl in Hrun. injection Hrun as <-. split; [|done].
    by intros f Hf%elem_of_nil.
  - simpl in Hnd. apply NoDup_cons in Hnd as [Hg Hnd]. simpl in Hrun.
    set (given := if field_init g then kwargs !! field_name g else None) in *.
    assert (Hstep : ∀ acc',
              dataclass_fill fs kwargs acc' = Ok attrs →
              acc' !! field_name g
              = match given with
                | Some v => Some v
                | None => match field_fallback g with
                          | Some v => Some v
                          | None => acc !! field_name g
                          end
                end →
              (∀ k, k ≠ field_name g → acc' !! k = acc !! k) →
              (∀ f, f ∈ g :: fs →
                    attrs !! field_name f
                    = match (if field_init f then kwargs !! field_name f
                             else None) with
                      | Some v => Some v
                      | None => match field_fallback f with
                                | Some v => Some v
                                | None => acc !! field_name f
                                end
                      end)
              ∧ (∀ k, k ∉ map field_name (g :: fs) → attrs !! k = acc !! k)).
    { intros acc' Hrun' Hhead Hother.
      destruct (IH acc' attrs Hnd Hrun') as [Hfields Hrest]. split.
      - intros f [->|Hf]%elem_of_cons.
        + rewrite Hrest by done. exact Hhead.
        + rewrite (Hfields f Hf).
          assert (field_name f ≠ field_name g) as Hne.
          { intros Heq. apply Hg. rewrite <- Heq. apply list_elem_of_fmap.
            by exists f. }
          by rewrite (Hother _ Hne).
      - intros k Hk. simpl in Hk. rewrite not_elem_of_cons in Hk.
        destruct Hk as [Hkg Hk]. rewrite Hrest by done. by apply Hother. }
    destruct given as [v|] eqn:Hgiven.
    + apply (Hstep _ Hrun); [by rewrite lookup_insert_eq|].
      intros k Hk. by rewrite lookup_insert_ne.
    + destruct (field_fallback g) as [v|] eqn:Hfb.
      * apply (Hstep _ Hrun); [by rewrite lookup_insert_eq|].
        intros k Hk. by rewrite lookup_insert_ne.
      * destruct (field_init g); [discriminate|]. by apply (Hstep _ Hrun).
Qed.

Lemma dataclass_fill_returns fs kwargs : ∀ acc,
  (∀ f, f ∈ fs → field_init f = true → field_fallback f = None →
        is_Some (kwargs !! field_name f)) →
  ∃ attrs, dataclass_fill fs kwargs acc = Ok attrs.
Proof.
  induction fs as [|g fs IH]; intros acc Hreq; [by eexists|]. simpl.
  assert (Hreq' : ∀ f, f ∈ fs → field_init f = true → field_fallback f = None →
                       is_Some (kwargs !! field_name f))
    by (intros f Hf; apply Hreq; by right).
  destruct (field_init g) eqn:Hi.
  - destruct (kwargs !! field_name g) as [v|] eqn:Hk; [by apply IH|].
    destruct (field_fallback g) eqn:Hfb; [by apply IH|].
    destruct (Hreq g) as [v Hv]; [by left|done|done|]. congruence.
  - destruct (field_fallback g); by apply IH.
Qed.

Lemma dataclass_new_returns cls kwargs :
  (∀ k, is_Some (kwargs !! k) → is_init_field_name (fields cls) k = true) →
  (∀ f, f ∈ fields cls → field_init f = true → field_fallback f = None →
        is_Some (kwargs !! field_name f)) →
  ∃ attrs,
    dataclass_fill (fields cls) kwargs ∅ = Ok attrs
    ∧ dataclass_new cls kwargs
      = Ok {| obj_class := class_name cls; obj_attrs := attrs |}.
Proof.
  intros Hkeys Hreq. unfold dataclass_new.
  destruct (List.find _ _) as [k|] eqn:Hfind.
  - apply find_some in Hfind as [Hin Hk].
    apply in_map_iff in Hin as ([k' v] & <- & Hin). simpl in Hk.
    apply list_elem_of_In, elem_of_map_to_list in Hin.
    rewrite Hkeys in Hk by (by eexists). discriminate.
  - destruct (dataclass_fill_returns (fields cls) kwargs ∅ Hreq) as [attrs Ha].
    exists attrs. by rewrite Ha.
Qed.

(** The edit set of an invocation with [--create] and without [--json]. *)
Lemma create_edit_lookup json_loads api ns collab_name enable cmd :
  __init__ json_loads api ns true collab_name enable false = Ok cmd →
  UpdateCollabCommand.collab_name cmd = VStr collab_name
  ∧ UpdateCollabCommand.create cmd = true
  ∧ ∀ k, edit_kwargs cmd !! k
         = match supplied_flag (fields (get_config_class api)) ns k with
           | Some v => Some v
           | None =>
               if String.eqb k "api" && drops_api (fields (get_config_class api))
               then None
               else if String.eqb k "enabled"
                    then Some (VBool (from_option py_bool_of_int true enable))
                    else forced (get_name api) collab_name k
           end.
Proof.
  intros Hrun. pose proof (init_lookup _ _ _ _ _ _ _ _ Hrun) as Hall.
  apply init_inv in Hrun as (kw0 & Hl & _ & Hc & _).
  injection Hl as _ <-. split; [done|]. split; [done|].
  intros k. rewrite Hall. unfold layered_lookup, payload_of.
  destruct (supplied_flag _ ns k); [done|].
  destruct (String.eqb k "api" && drops_api _); [done|].
  destruct (String.eqb_spec k "enabled") as [->|Hk].
  - by destruct enable.
  - destruct (forced _ _ k); [done|]. by rewrite lookup_empty.
Qed.

Section CreateProperties.

Context {S : Type} `{CLISettings S}.

(** X6: creating from flags.  On a schema with distinct field names that
    takes [name] and [enabled] as constructor arguments and [api] either
    as one or pinned, [--create] under a free name, with a non-[None] value
    for every argument field that has no default, persists a new record of
    the schema's class: [name] is the given name, [enabled] is [True]
    unless [--enable=0] or [--disable] said otherwise, every supplied flag's
    field holds the flag's value, and every argument field left out holds
    its default. *)
Theorem create_from_flags_round_trip json_loads (api : SignalExchangeAPI)
    ns collab_name enable cmd (s : S) :
  let fs := fields (get_config_class api) in
  __init__ json_loads api ns true collab_name enable false = Ok cmd →
  get_collab s (VStr collab_name) = None →
  NoDup (map field_name fs) →
  is_init_field_name fs "name" = true →
  is_init_field_name fs "enabled" = true →
  is_init_field_name fs "api" = true ∨ drops_api fs = true →
  (∀ f, f ∈ fs → _is_argument_field f = true → field_fallback f = None →
        ∃ v, ns !! field_name f = Some v ∧ v ≠ VNone) →
  ∃ to_create,
    UpdateCollabCommand.execute api cmd s = (Ok tt, update_collab to_create s)
    ∧ obj_class to_create = class_name (get_config_class api)
    ∧ obj_attrs to_create !! "name" = Some (VStr collab_name)
    ∧ obj_attrs to_create !! "enabled"
      = Some (VBool (from_option py_bool_of_int true enable))
    ∧ (∀ f v, f ∈ fs → _is_argument_field f = true →
              ns !! field_name f = Some v → v ≠ VNone →
              obj_attrs to_create !! field_name f = Some v)
    ∧ (∀ f, f ∈ fs → _is_argument_field f = true →
            ns !! field_name f = Some VNone →
            obj_attrs to_create !! field_name f = field_fallback f).
Proof.
  intros fs Hinit Hfree Hnd Hname Hen Hapi Hreq.
  destruct (create_edit_lookup _ _ _ _ _ _ Hinit) as (Hid & Hcreate & Hlook).
  subst fs. set (fs := fields (get_config_class api)) in *.
  assert (Hflag : ∀ f v, f ∈ fs → _is_argument_field f = true →
                         ns !! field_name f = Some v → v ≠ VNone →
                         edit_kwargs cmd !! field_name f = Some v).
  { intros f v Hf Harg Hns Hv. rewrite Hlook.
    assert (supplied_flag fs ns (field_name f) = Some v) as ->; [|done].
    apply supplied_flag_Some. split; [done|]. split; [done|]. by exists f. }
  assert (Hign : ∀ k, in_IGNORE_FIELDS k = true →
                      edit_kwargs cmd !! k
                      = if String.eqb k "api" && drops_api fs then None
                        else if String.eqb k "enabled"
                             then Some (VBool (from_option py_bool_of_int true enable))
                             else forced (get_name api) collab_name k).
  { intros k Hk. by rewrite Hlook, supplied_flag_ignored. }
  assert (Hpinned : drops_api fs = true → is_init_field_name fs "api" = false).
  { intros Hd. destruct (is_init_field_name fs "api") eqn:Hi; [|done].
    apply drops_api_elem in Hd as (f & Hf & Hfi & Hfn).
    apply is_init_field_name_spec in Hi as (f' & Hf' & Hfi' & Hfn').
    assert (f = f') by (apply (field_of_name fs); congruence). congruence. }
  destruct (dataclass_new_returns (get_config_class api) (edit_kwargs cmd))
    as (attrs & Hfill & Hnew).
  { intros k [v Hk]. rewrite Hlook in Hk.
    destruct (supplied_flag fs ns k) as [v'|] eqn:Hs.
    - apply supplied_flag_Some in Hs as (_ & _ & f & Hf & Harg & Hn).
      apply is_init_field_name_spec. exists f.
      by apply argument_field_not_ignored in Harg as [Hi _].
    - destruct (String.eqb_spec k "api") as [->|Hka]; simpl in Hk.
      + destruct (drops_api fs) eqn:Hd; [discriminate|].
        by destruct Hapi.
      + destruct (String.eqb_spec k "enabled") as [->|Hke]; [done|].
        unfold forced in Hk.
        destruct (String.eqb_spec k "name") as [->|Hkn]; [done|].
        apply String.eqb_neq in Hke, Hka. rewrite Hke, Hka in Hk. discriminate. }
  { intros f Hf Hi Hfb.
    destruct (in_IGNORE_FIELDS (field_name f)) eqn:Hig.
    - rewrite (Hign _ Hig).
      apply in_IGNORE_FIELDS_spec in Hig as [Hn|[Hn|Hn]]; rewrite Hn; simpl.
      + by eexists.
      + destruct (drops_api fs) eqn:Hd; [|by eexists].
        pose proof (Hpinned eq_refl) as Hno.
        assert (is_init_field_name fs "api" = true); [|congruence].
        apply is_init_field_name_spec. by exists f.
      + by eexists.
    - destruct (Hreq f Hf) as (v & Hv & Hvn); [|done|].
      { unfold _is_argument_field. by rewrite Hi, Hig. }
      rewrite (Hflag f v) by (done || (unfold _is_argument_field; by rewrite Hi, Hig)).
      by eexists. }
  destruct (dataclass_fill_lookup _ _ _ _ Hnd Hfill) as [Hattrs _].
  exists {| obj_class := class_name (get_config_class api); obj_attrs := attrs |}.
  split; [|split; [done|]].
  { unfold UpdateCollabCommand.execute, cbind, cgets, craise, cmodify, clift.
    rewrite Hid, Hfree, Hcreate, Hnew. done. }
  simpl.
  apply is_init_field_name_spec in Hname as (fn & Hfn & Hfni & Hfnn).
  apply is_init_field_name_spec in Hen as (fe & Hfe & Hfei & Hfen).
  split; [|split; [|split]].
  - rewrite <- Hfnn, (Hattrs fn Hfn), Hfni, Hfnn.
    rewrite Hign by (apply in_IGNORE_FIELDS_spec; auto). done.
  - rewrite <- Hfen, (Hattrs fe Hfe), Hfei, Hfen.
    rewrite Hign by (apply in_IGNORE_FIELDS_spec; auto). done.
  - intros f v Hf Harg Hns Hv. rewrite (Hattrs f Hf).
    apply argument_field_not_ignored in Harg as Hi. destruct Hi as [-> _].
    by rewrite (Hflag f v).
  - intros f Hf Harg Hns. rewrite (Hattrs f Hf).
    apply argument_field_not_ignored in Harg as Hi. destruct Hi as [-> Hig].
    rewrite Hlook.
    assert (supplied_flag fs ns (field_name f) = None) as ->.
    { destruct (supplied_flag fs ns (field_name f)) as [v|] eqn:Hs; [|done].
      apply supplied_flag_Some in Hs as (Hv & Hs & _). congruence. }
    assert (String.eqb (field_name f) "api" = false) as ->.
    { apply String.eqb_neq. intros Hn. rewrite Hn in Hig. discriminate. }
    assert (String.eqb (field_name f) "enabled" = false) as ->.
    { apply String.eqb_neq. intros Hn. rewrite Hn in Hig. discriminate. }
    simpl. unfold forced.
    assert (String.eqb (field_name f) "name" = false) as ->.
    { apply String.eqb_neq. intros Hn. rewrite Hn in Hig. discriminate. }
    assert (String.eqb (field_name f) "api" = false) as ->.
    { apply String.eqb_neq. intros Hn. rewrite Hn in Hig. discriminate. }
    assert (String.eqb (field_name f) "enabled" = false) as ->.
    { apply String.eqb_neq. intros Hn. rewrite Hn in Hig. discriminate. }
    destruct (field_fallback f); [done|]. apply lookup_empty.
Qed.

End CreateProperties.

Lemma create_from_flags_round_trip_witness :
  ∃ cmd to_create,
    __init__ Sample.json_loads Schemas.pinned_api
      {["privacy_group" := VInt 7; "mode" := VNone]} true "foo" None false
    = Ok cmd
    ∧ UpdateCollabCommand.execute Schemas.pinned_api cmd Schemas.empty_settings
      = (Ok tt, update_collab to_create Schemas.empty_settings)
    ∧ obj_attrs to_create !! "name" = Some (VStr "foo")
    ∧ obj_attrs to_create !! "enabled" = Some (VBool true)
    ∧ obj_attrs to_create !! "privacy_group" = Some (VInt 7)
    ∧ obj_attrs to_create !! "mode" = Some VNone.
Proof.
  destruct (__init__ Sample.json_loads Schemas.pinned_api
              {["privacy_group" := VInt 7; "mode" := VNone]} true "foo" None false)
    as [cmd|] eqn:Hinit; [|vm_compute in Hinit; discriminate].
  destruct (create_from_flags_round_trip Sample.json_loads Schemas.pinned_api
              {["privacy_group" := VInt 7; "mode" := VNone]} "foo" None cmd
              Schemas.empty_settings Hinit)
    as (to_create & Hrun & _ & Hname & Hen & Hflags & Hdefaults).
  - reflexivity.
  - simpl. repeat (constructor; [rewrite ?elem_of_cons;
      intros Hin; repeat (destruct Hin as [Hin|Hin]; [discriminate Hin|]);
      by apply elem_of_nil in Hin|]). constructor.
  - reflexivity.
  - reflexivity.
  - right. reflexivity.
  - intros f Hin Harg Hfb. simpl in Hin.
    repeat (apply elem_of_cons in Hin as [->|Hin];
            [first [discriminate Harg | discriminate Hfb
                   | by eexists; split; [reflexivity|discriminate]]|]).
    by apply elem_of_nil in Hin.
  - exists cmd, to_create. split; [reflexivity|]. split; [exact Hrun|].
    split; [exact Hname|]. split; [exact Hen|]. split.
    + apply (Hflags (Schemas.mk_field "privacy_group" (TClass "int") true None));
        [|reflexivity|reflexivity|discriminate].
      apply list_elem_of_In. right. right. right. left. reflexivity.
    + apply (Hdefaults
               (Schemas.mk_field "mode"
                  (TGeneric "Optional"
                     [TEnumClass "Mode" ["FAST"; "SLOW"]; TClass "NoneType"])
                  true (Some VNone)));
        [|reflexivity|reflexivity].
      apply list_elem_of_In. right. right. right. right. left. reflexivity.
Defined.

(** ** Which schemas get a surface *)

Lemma synthesized_resolvable call_class f a :
  synthesized_from call_class f a → resolvable (field_type f) = true.
Proof.
  intros (_ & _ & _ & _ & _ & _ & _ & target & conv & mv & Ht & Htm & _).
  unfold target_type_of in Ht.
  destruct (field_type f) as [c|c ms|g [|b args]|r]; simpl;
    try done; injection Ht as <-; try discriminate.
  by destruct b.
Qed.

(** X7: [init_argparse] returns a surface for a schema exactly when the
    flags of its argument fields are pairwise distinct, each such field's
    type is a class or a generic whose first argument is one, no flag is
    one of [--create], [-C], [--enable], [--disable], [--json], [-J] or
    already registered on the parser, and none of those six is already
    registered.  A field named [json], for one, makes synthesis fail. *)
Theorem synthesis_returns_exactly call_class api ap0 :
  let arg_fields :=
    List.filter _is_argument_field (fields (get_config_class api)) in
  (∃ ap, init_argparse call_class api ap0 = Ok ap)
  ↔ NoDup (map flag_of arg_fields)
    ∧ (∀ f, f ∈ arg_fields →
            resolvable (field_type f) = true
            ∧ (flag_of f ∉ argparse.registered_option_strings ap0)
            ∧ (flag_of f ∉ fixed_option_strings))
    ∧ (∀ o, o ∈ fixed_option_strings →
            o ∉ argparse.registered_option_strings ap0).
Proof.
  intros arg_fields. split.
  - intros [ap (new & _ & _ & Hall & Hnd & Hfresh & Hfixed)%init_argparse_ok].
    split; [done|]. split; [|exact Hfixed].
    intros f Hf. destruct (Hfresh f Hf) as [Hold Hfix].
    split; [|done].
    destruct (proj1 (list_elem_of_lookup _ _) Hf) as [i Hi].
    destruct (Forall2_lookup_l _ _ _ _ _ Hall Hi) as (a & _ & Hsyn).
    by eapply synthesized_resolvable.
  - intros (Hnd & Hfields & Hfixed). by apply init_argparse_returns.
Qed.

(** ** What a successful parse guarantees *)

Lemma run_action_keeps a values (n : gmap string PyVal) k :
  is_Some (n !! k) → is_Some (argparse.run_action a values n !! k).
Proof.
  intros Hk. unfold argparse.run_action.
  destruct (argparse.action a);
    (destruct (decide (argparse.dest a = k)) as [->|Hne];
     [rewrite lookup_insert_eq; by eexists|by rewrite lookup_insert_ne]).
Qed.

(** One turn of the loop, with where the new action comes from. *)
Lemma consume_step_origin ap tok rest st st' :
  argparse.consume ap (tok :: rest) st = Ok st' →
  ∃ st1 rest1,
    argparse.consume ap rest1 st1 = Ok st'
    ∧ (rest1 = rest ∨ ∃ s, rest = argparse.TArg s :: rest1)
    ∧ (∀ k, is_Some (argparse.ns st !! k) → is_Some (argparse.ns st1 !! k))
    ∧ (∀ p, p ∈ argparse.positionals st1 → p ∈ argparse.positionals st)
    ∧ (∀ ia, ia ∈ argparse.seen st1 →
             ia ∈ argparse.seen st
             ∨ ia ∈ argparse.positionals st
             ∨ ∃ o x, tok = argparse.TOption o x
                      ∧ argparse.find_option ap o = Some ia).
Proof.
  assert (Htake : ∀ ia strs base st1,
            argparse.take_action ia strs base = Ok st1 →
            (∀ k, is_Some (argparse.ns base !! k) →
                  is_Some (argparse.ns st1 !! k))
            ∧ argparse.positionals st1 = argparse.positionals base
            ∧ argparse.seen st1 = ia :: argparse.seen base).
  { intros ia strs base st1 Hta. unfold argparse.take_action in Hta.
    destruct (argparse._get_values _ _) as [values|]; simpl in Hta; [|discriminate].
    destruct (existsb _ _); [discriminate|]. injection Hta as <-. simpl.
    split; [|done]. intros k. apply run_action_keeps. }
  destruct tok as [o explicit|s]; simpl.
  - destruct (argparse.find_option ap o) as [ia|] eqn:Hfind.
    + assert (Hgo : ∀ strs rest1,
                (rest1 = rest ∨ ∃ s, rest = argparse.TArg s :: rest1) →
                (let? st1 := argparse.take_action ia strs st in
                 argparse.consume ap rest1 st1) = Ok st' →
                ∃ st1 rest1,
                  argparse.consume ap rest1 st1 = Ok st'
                  ∧ (rest1 = rest ∨ ∃ s, rest = argparse.TArg s :: rest1)
                  ∧ (∀ k, is_Some (argparse.ns st !! k) →
                          is_Some (argparse.ns st1 !! k))
                  ∧ (∀ p, p ∈ argparse.positionals st1 →
                          p ∈ argparse.positionals st)
                  ∧ (∀ ia0, ia0 ∈ argparse.seen st1 →
                            ia0 ∈ argparse.seen st
                            ∨ ia0 ∈ argparse.positionals st
                            ∨ ∃ o0 x, argparse.TOption o explicit
                                      = argparse.TOption o0 x
                                      ∧ argparse.find_option ap o0 = Some ia0)).
      { intros strs rest1 Hrest Hrun.
        destruct (argparse.take_action ia strs st) as [st1|] eqn:Hta;
          simpl in Hrun; [|discriminate].
        apply Htake in Hta as (Hns & Hpos & Hseen).
        exists st1, rest1. split; [done|]. split; [done|]. split; [done|].
        split; [by rewrite Hpos|].
        intros ia0 Hin. rewrite Hseen in Hin.
        apply elem_of_cons in Hin as [->|Hin]; [|by left].
        right. right. by exists o, explicit. }
      destruct explicit as [v|].
      * destruct (argparse.nargs (snd ia)); try discriminate;
          apply Hgo; by left.
      * destruct (argparse.nargs (snd ia)).
        -- destruct rest as [|[o' x'|s] rest']; try discriminate.
           apply Hgo. right. by exists s.
        -- destruct rest as [|[o' x'|s] rest']; try (apply Hgo; by left).
           apply Hgo. right. by exists s.
        -- apply Hgo. by left.
    + intros Hrun. exists (argparse.add_extra o st), rest.
      split; [done|]. split; [by left|]. split; [done|]. split; [done|].
      intros ia Hin. by left.
  - destruct (argparse.positionals st) as [|p ps] eqn:Hpos.
    + intros Hrun. exists (argparse.add_extra s st), rest.
      split; [done|]. split; [by left|]. split; [done|].
      split; [simpl; by rewrite Hpos|]. intros ia Hin. by left.
    + intros Hrun.
      destruct (argparse.take_action p [s] (argparse.pop_positional st))
        as [st1|] eqn:Hta; simpl in Hrun; [|discriminate].
      apply Htake in Hta as (Hns & Hpos1 & Hseen).
      exists st1, rest. split; [done|]. split; [by left|]. split; [done|].
      split.
      * intros q Hq. rewrite Hpos1 in Hq. simpl in Hq. rewrite Hpos in Hq.
        simpl in Hq. by right.
      * intros ia Hin. rewrite Hseen in Hin. simpl in Hin.
        apply elem_of_cons in Hin as [->|Hin]; [|by left].
        right. left. by left.
Qed.

Lemma consume_origin ap : ∀ n toks st st',
  (length toks ≤ n)%nat →
  argparse.consume ap toks st = Ok st' →
  (∀ k, is_Some (argparse.ns st !! k) → is_Some (argparse.ns st' !! k))
  ∧ (∀ ia, ia ∈ argparse.seen st' →
           ia ∈ argparse.seen st
           ∨ ia ∈ argparse.positionals st
           ∨ ∃ o x, argparse.TOption o x ∈ toks
                    ∧ argparse.find_option ap o = Some ia).
Proof.
  induction n as [|n IH]; intros toks st st' Hlen Hrun.
  - destruct toks; [|simpl in Hlen; lia]. simpl in Hrun. injection Hrun as <-.
    split; [done|]. intros ia Hin. by left.
  - destruct toks as [|tok rest].
    { simpl in Hrun. injection Hrun as <-. split; [done|].
      intros ia Hin. by left. }
    apply consume_step_origin in Hrun
      as (st1 & rest1 & Hrun & Hrest & Hns & Hpos & Hseen).
    assert (Hlen1 : (length rest1 ≤ n)%nat).
    { simpl in Hlen. destruct Hrest as [->|[s ->]]; simpl in *; lia. }
    destruct (IH rest1 st1 st' Hlen1 Hrun) as (Hns' & Hseen').
    assert (Hsub : ∀ t, t ∈ rest1 → t ∈ tok :: rest).
    { intros t Ht. right. destruct Hrest as [->|[s ->]]; [done|by right]. }
    split; [by intros k Hk; apply Hns', Hns|].
    intros ia Hin. destruct (Hseen' ia Hin) as [Hs|[Hp|(o & x & Ho & Hf)]].
    + destruct (Hseen ia Hs) as [?|[?|(o & x & -> & Hf)]]; [by left|by right; left|].
      right. right. exists o, x. split; [by left|done].
    + right. left. by apply Hpos.
    + right. right. exists o, x. split; [by apply Hsub|done].
Qed.

Lemma initial_namespace_dest ap a :
  a ∈ argparse.actions ap →
  is_Some (argparse.initial_namespace ap !! argparse.dest a).
Proof.
  unfold argparse.initial_namespace. intros Hin.
  apply lookup_union_is_Some. left. revert Hin.
  generalize (∅ : gmap string PyVal).
  induction (argparse.actions ap) as [|b l IH]; intros n Hin.
  - by apply elem_of_nil in Hin.
  - assert (Hkeep : ∀ l (n : gmap string PyVal) k, is_Some (n !! k) →
              is_Some (foldl (fun n a => match n !! argparse.dest a with
                                         | None => <[argparse.dest a := argparse.default a]> n
                                         | Some _ => n
                                         end) n l !! k)).
    { clear. induction l as [|c l IH]; intros n k Hk; [done|]. simpl.
      apply IH. destruct (n !! argparse.dest c); [done|].
      destruct (decide (argparse.dest c = k)) as [->|Hne];
        [rewrite lookup_insert_eq; by eexists|by rewrite lookup_insert_ne]. }
    simpl. apply elem_of_cons in Hin as [->|Hin]; [|by apply IH].
    apply Hkeep. destruct (n !! argparse.dest b) eqn:Hb; [by rewrite Hb|].
    rewrite lookup_insert_eq. by eexists.
Qed.

(** The [dest] of a field's flag is the field's name, for a name without
    hyphen that does not start with an underscore. *)
Lemma str_replace_back n :
  (∀ c, c ∈ list_ascii_of_string n → c ≠ "-"%char) →
  str_replace "-" "_" (str_replace "_" "-" n) = n.
Proof.
  induction n as [|c n IH]; intros Hno; [done|]. simpl.
  rewrite IH by (intros c' Hc'; apply Hno; simpl; by right). f_equal.
  destruct (Ascii.eqb_spec c "_") as [->|Hc]; [done|].
  destruct (Ascii.eqb_spec c "-") as [->|Hc']; [|done].
  exfalso. apply (Hno "-"%char); [simpl; by left|done].
Qed.

Lemma lstrip_dash_other c s :
  c ≠ "-"%char → lstrip_dash (String c s) = String c s.
Proof.
  intros Hc. destruct c as [[] [] [] [] [] [] [] []]; try reflexivity.
  by destruct Hc.
Qed.

Lemma infer_dest_long r :
  argparse.infer_dest ["--" +:+ r] = str_replace "-" "_" (lstrip_dash r).
Proof. unfold argparse.infer_dest. simpl. by destruct r. Qed.

Lemma dest_of_field_flag f c n :
  field_name f = String c n →
  c ≠ "_"%char →
  (∀ c', c' ∈ list_ascii_of_string (field_name f) → c' ≠ "-"%char) →
  argparse.infer_dest [flag_of f] = field_name f.
Proof.
  intros Hname Hc Hno.
  assert (Hc' : c ≠ "-"%char).
  { apply Hno. rewrite Hname. simpl. by left. }
  unfold flag_of. rewrite infer_dest_long. rewrite Hname in *.
  pose proof (str_replace_back (String c n) Hno) as Hback.
  change (str_replace "_" "-" (String c n))
    with (String (if Ascii.eqb c "_" then "-"%char else c)
                 (str_replace "_" "-" n)) in *.
  destruct (Ascii.eqb_spec c "_"); [done|].
  rewrite lstrip_dash_other by done. exact Hback.
Qed.

Lemma indexed_functional ap i a b :
  (i, a) ∈ argparse.indexed ap → (i, b) ∈ argparse.indexed ap → a = b.
Proof.
  unfold argparse.indexed.
  intros (j & x & [= -> ->] & Hj)%elem_of_lookup_imap_1
         (j' & y & [= -> ->] & Hj')%elem_of_lookup_imap_1.
  congruence.
Qed.

Section ParseProperties.

Variable call_class : string → string → Result PyVal.

(** X8: a flag that [_add_argument] marked required is required on every
    invocation, with or without [--create]: an argument vector that does
    not give the flag of a field without default is refused by the parser. *)
Theorem flag_without_default_is_always_required api ap0 ap f toks :
  init_argparse call_class api ap0 = Ok ap →
  f ∈ fields (get_config_class api) →
  _is_argument_field f = true →
  field_default f = None →
  field_default_factory f = None →
  (∀ x, argparse.TOption (flag_of f) x ∉ toks) →
  ∃ e, argparse.parse_args ap toks = Raise e.
Proof.
  intros Hrun Hf Harg Hd Hdf Hnone.
  destruct (argument_field_flag _ _ _ _ _ Hrun Hf Harg) as (a & Hone & Hsyn).
  destruct Hsyn as (Hopt & _ & _ & _ & _ & _ & Hreq & _).
  assert (Ha : a ∈ argparse.actions ap).
  { assert (In a (answering (flag_of f) ap)) as Hin by (rewrite Hone; by left).
    apply filter_In in Hin as [Hin _]. by apply list_elem_of_In. }
  destruct (proj1 (list_elem_of_lookup _ _) Ha) as [i Hi].
  assert (Hia : (i, a) ∈ argparse.indexed ap)
    by (by apply (elem_of_lookup_imap_2 pair)).
  unfold argparse.parse_args.
  destruct (argparse.consume ap toks _) as [st'|e] eqn:Hc; simpl;
    [|by exists e].
  destruct (consume_origin ap (length toks) toks _ st' (le_n _) Hc)
    as [_ Horigin]. simpl in Horigin.
  assert (Hunseen : argparse.was_seen st' (i, a) = false).
  { destruct (argparse.was_seen st' (i, a)) eqn:Hseen; [|done]. exfalso.
    apply existsb_exists in Hseen as ([j b] & Hjb & Hij).
    simpl in Hij. apply Nat.eqb_eq in Hij as <-.
    apply list_elem_of_In in Hjb.
    destruct (Horigin _ Hjb) as [Hs|[Hp|(o & x & Ho & Hfind)]].
    - by apply elem_of_nil in Hs.
    - apply list_elem_of_In, filter_In in Hp as [Hp Hpos].
      apply list_elem_of_In in Hp.
      rewrite <- (indexed_functional _ _ _ _ Hia Hp) in Hpos.
      simpl in Hpos. unfold argparse.is_positional in Hpos.
      by rewrite Hopt in Hpos.
    - unfold argparse.find_option in Hfind.
      apply find_some in Hfind as [Hin Hans]. apply list_elem_of_In in Hin.
      rewrite <- (indexed_functional _ _ _ _ Hia Hin) in Hans. simpl in Hans.
      rewrite Hopt in Hans. apply str_in_spec, list_elem_of_singleton in Hans.
      subst o. by apply (Hnone x). }
  assert (existsb (fun ia => argparse.required (snd ia)
                             && negb (argparse.was_seen st' ia))
                  (argparse.indexed ap) = true) as ->.
  { apply existsb_exists. exists (i, a). rewrite <- list_elem_of_In.
    split; [done|]. simpl. rewrite Hunseen, Hreq. unfold has_no_default.
    by rewrite Hd, Hdf. }
  by eexists.
Qed.

(** X9: a namespace that [parse_args] returns has an attribute for the
    [dest] of every registered argument; on a synthesized surface this
    covers every argument field whose name has no hyphen and does not
    start with an underscore, for which the [dest] is the field name, so
    the [getattr] in [__init__] finds it. *)
Theorem parsed_namespace_has_every_flag api ap0 ap toks ns :
  init_argparse call_class api ap0 = Ok ap →
  argparse.parse_args ap toks = Ok ns →
  (∀ a, a ∈ argparse.actions ap → is_Some (ns !! argparse.dest a))
  ∧ (∀ f c n, f ∈ fields (get_config_class api) →
              _is_argument_field f = true →
              field_name f = String c n → c ≠ "_"%char →
              (∀ c', c' ∈ list_ascii_of_string (field_name f) →
                     c' ≠ "-"%char) →
              is_Some (ns !! field_name f)).
Proof.
  intros Hrun Hparse.
  assert (Hdest : ∀ a, a ∈ argparse.actions ap →
                       is_Some (ns !! argparse.dest a)).
  { intros a Ha. unfold argparse.parse_args in Hparse.
    destruct (argparse.consume ap toks _) as [st'|e] eqn:Hc;
      simpl in Hparse; [|discriminate].
    destruct (existsb _ _); [discriminate|].
    destruct (argparse.extras st'); [|discriminate].
    injection Hparse as <-.
    destruct (consume_origin ap (length toks) toks _ st' (le_n _) Hc)
      as [Hns _].
    apply Hns. simpl. by apply initial_namespace_dest. }
  split; [exact Hdest|].
  intros f c n Hf Harg Hname Hc Hno.
  destruct (argument_field_flag _ _ _ _ _ Hrun Hf Harg) as (a & Hone & Hsyn).
  destruct Hsyn as (_ & Hd & _).
  assert (Ha : a ∈ argparse.actions ap).
  { assert (In a (answering (flag_of f) ap)) as Hin by (rewrite Hone; by left).
    apply filter_In in Hin as [Hin _]. by apply list_elem_of_In. }
  rewrite <- (dest_of_field_flag f c n Hname Hc Hno), <- Hd. by apply Hdest.
Qed.

End ParseProperties.

Lemma flag_without_default_is_always_required_witness :
  ∃ e, argparse.parse_args Schemas.pinned_surface
         [argparse.TArg "foo"; argparse.TOption "--enable" None] = Raise e.
Proof.
  assert (Hrun : init_argparse Sample.call_class Schemas.pinned_api
                   Schemas.empty_parser = Ok Schemas.pinned_surface)
    by (vm_compute; reflexivity).
  apply (flag_without_default_is_always_required Sample.call_class
           Schemas.pinned_api Schemas.empty_parser Schemas.pinned_surface
           (Schemas.mk_field "privacy_group" (TClass "int") true None)
           [argparse.TArg "foo"; argparse.TOption "--enable" None] Hrun);
    try reflexivity.
  - apply list_elem_of_In. right. right. right. left. reflexivity.
  - intros x Hin. apply list_elem_of_In in Hin.
    destruct Hin as [Hin|[Hin|[]]]; discriminate Hin.
Defined.

Lemma parsed_namespace_has_every_flag_witness :
  ∃ ns, argparse.parse_args Schemas.pinned_surface
          [argparse.TArg "foo"; argparse.TOption "--privacy-group" (Some "12")]
        = Ok ns
        ∧ is_Some (ns !! "privacy_group") ∧ is_Some (ns !! "mode").
Proof.
  assert (Hrun : init_argparse Sample.call_class Schemas.pinned_api
                   Schemas.empty_parser = Ok Schemas.pinned_surface)
    by (vm_compute; reflexivity).
  destruct (argparse.parse_args Schemas.pinned_surface
              [argparse.TArg "foo"; argparse.TOption "--privacy-group" (Some "12")])
    as [ns|] eqn:Hparse; [|vm_compute in Hparse; discriminate].
  destruct (parsed_namespace_has_every_flag Sample.call_class
              Schemas.pinned_api Schemas.empty_parser Schemas.pinned_surface
              _ ns Hrun Hparse) as [_ Hfields].
  exists ns. split; [reflexivity|]. split.
  - apply (Hfields (Schemas.mk_field "privacy_group" (TClass "int") true None)
             "p"%char "rivacy_group"); try reflexivity; try discriminate.
    + apply list_elem_of_In. right. right. right. left. reflexivity.
    + intros c' Hin. apply list_elem_of_In in Hin. simpl in Hin.
      repeat (destruct Hin as [<-|Hin]; [discriminate|]). destruct Hin.
  - apply (Hfields
             (Schemas.mk_field "mode"
                (TGeneric "Optional"
                   [TEnumClass "Mode" ["FAST"; "SLOW"]; TClass "NoneType"])
                true (Some VNone))
             "m"%char "ode"); try reflexivity; try discriminate.
    + apply list_elem_of_In. right. right. right. right. left. reflexivity.
    + intros c' Hin. apply list_elem_of_In in Hin. simpl in Hin.
      repeat (destruct Hin as [<-|Hin]; [discriminate|]). destruct Hin.
Defined.

(** ** Adding and removing an extension *)

Section ExtensionProperties.

Context {S : Type} `{CLISettings S}.
Variable load_from_module_name
  : string → Result ConfigExtensionsCommand.ThreatExchangeExtensionManifest.
Variable SignalTypeMapping : list string → list string → Result unit.
Variable FetcherMapping : list SignalExchangeAPI → Result unit.

(** X10: the probing of a manifest's APIs stops at the first constructor
    that raises: the command ends in a [CommandError] naming that API and
    quoting the exception, whatever APIs follow it in the manifest, without
    consulting the fetcher registry and without writing the settings; a
    [SystemExit] out of a constructor is not wrapped. *)
Theorem probing_stops_at_first_failing_api module m manifest ok_apis broken
    rest e (s : S) :
  ConfigExtensionsCommand.module_given module = Some m →
  load_from_module_name m = Ok manifest →
  SignalTypeMapping
    (get_all_content_types s ++ ConfigExtensionsCommand.content_types manifest)
    (get_all_signal_types s ++ ConfigExtensionsCommand.signal_types manifest)
  = Ok tt →
  ConfigExtensionsCommand.apis manifest = (ok_apis ++ broken :: rest)%list →
  Forall (fun a => ∃ i, ConfigExtensionsCommand.api_new a = Ok i) ok_apis →
  ConfigExtensionsCommand.api_new broken = Raise e →
  ConfigExtensionsCommand.execute_add load_from_module_name SignalTypeMapping
    FetcherMapping module s
  = (Raise (if ConfigExtensionsCommand.is_Exception e
            then CommandError
                   ("Not able to instanciate API "
                    +:+ get_name (ConfigExtensionsCommand.api_cls broken)
                    +:+ " - throws " +:+ exn_str e) None
            else e), s).
Proof.
  intros Hm Hload Hstm Hapis Hok Hnew.
  unfold ConfigExtensionsCommand.execute_add, cbind, cgets, craise, cmodify, clift.
  rewrite Hm. unfold ConfigExtensionsCommand.get_manifest. rewrite Hload.
  simpl. rewrite Hstm. simpl. rewrite Hapis.
  assert (Hloop : ∀ acc,
            ConfigExtensionsCommand.instantiate_apis
              (ok_apis ++ broken :: rest) acc
            = Raise (if ConfigExtensionsCommand.is_Exception e
                     then CommandError
                            ("Not able to instanciate API "
                             +:+ get_name (ConfigExtensionsCommand.api_cls broken)
                             +:+ " - throws " +:+ exn_str e) None
                     else e)).
  { clear -Hok Hnew. induction ok_apis as [|a l IH]; intros acc; simpl.
    - rewrite Hnew. by destruct (ConfigExtensionsCommand.is_Exception e).
    - apply Forall_cons in Hok as [[i Hi] Hok]. rewrite Hi. by apply IH. }
  by rewrite Hloop.
Qed.

(** X11: an extension that passes validation is added to the persisted
    set; removing it then succeeds and leaves the set without it; a second
    removal fails with exit code 2 and changes nothing.  (For settings that
    return the persistent config that was last written.) *)
Theorem add_then_remove_an_extension module m manifest instances (s : S) :
  (∀ p s0, get_persistent_config (set_persistent_config p s0) = p) →
  ConfigExtensionsCommand.module_given module = Some m →
  load_from_module_name m = Ok manifest →
  SignalTypeMapping
    (get_all_content_types s ++ ConfigExtensionsCommand.content_types manifest)
    (get_all_signal_types s ++ ConfigExtensionsCommand.signal_types manifest)
  = Ok tt →
  Forall2 (fun a i => ConfigExtensionsCommand.api_new a = Ok i)
          (ConfigExtensionsCommand.apis manifest) instances →
  FetcherMapping (instances ++ apis_get_all s) = Ok tt →
  ∃ s1 s2,
    ConfigExtensionsCommand.execute_add load_from_module_name SignalTypeMapping
      FetcherMapping module s = (Ok tt, s1)
    ∧ extensions (get_persistent_config s1)
      = {[m]} ∪ extensions (get_persistent_config s)
    ∧ ConfigExtensionsCommand.execute_remove module s1 = (Ok tt, s2)
    ∧ extensions (get_persistent_config s2)
      = extensions (get_persistent_config s) ∖ {[m]}
    ∧ ConfigExtensionsCommand.execute_remove module s2
      = (Raise (CommandError ("You haven't added " +:+ m) (Some 2)), s2).
Proof.
  intros Hlaw Hm Hload Hstm Hnew Hfm.
  assert (Hloop : ∀ acc,
            ConfigExtensionsCommand.instantiate_apis
              (ConfigExtensionsCommand.apis manifest) acc
            = Ok (acc ++ instances)%list).
  { clear -Hnew. induction Hnew as [|a i l ins Hi _ IH]; intros acc; simpl.
    - by rewrite app_nil_r.
    - rewrite Hi, IH. by rewrite <- app_assoc. }
  eexists _, _. split; [|split; [|split; [|split]]].
  - unfold ConfigExtensionsCommand.execute_add, cbind, cgets, craise, cmodify, clift.
    rewrite Hm. unfold ConfigExtensionsCommand.get_manifest. rewrite Hload.
    simpl. rewrite Hstm. simpl. rewrite Hloop. simpl. rewrite Hfm. reflexivity.
  - by rewrite Hlaw.
  - unfold ConfigExtensionsCommand.execute_remove, cbind, cgets, craise, cmodify.
    rewrite Hm. rewrite Hlaw. simpl.
    rewrite bool_decide_eq_true_2
      by (apply elem_of_union_l; by apply elem_of_singleton).
    reflexivity.
  - rewrite !Hlaw. simpl. apply set_eq. intros x.
    rewrite !elem_of_difference, elem_of_union, elem_of_singleton. tauto.
  - unfold ConfigExtensionsCommand.execute_remove, cbind, cgets, craise, cmodify.
    rewrite Hm. rewrite !Hlaw. simpl.
    rewrite bool_decide_eq_false_2; [reflexivity|].
    rewrite elem_of_difference, elem_of_singleton. tauto.
Qed.

(** X12: removing an extension that is not in the persisted set fails
    with exit code 2 and leaves the settings as they are, and so does a
    removal without a module name. *)
Theorem removing_an_unknown_extension_fails module (s : S) :
  (∀ m, module = Some m → m ≠ "" →
        m ∉ extensions (get_persistent_config s) →
        ConfigExtensionsCommand.execute_remove module s
        = (Raise (CommandError ("You haven't added " +:+ m) (Some 2)), s))
  ∧ (module = None ∨ module = Some "" →
     ConfigExtensionsCommand.execute_remove module s
     = (Raise (CommandError "Which module you are remove is required" (Some 2)),
        s))
  ∧ (∀ e s', ConfigExtensionsCommand.execute_remove module s = (Raise e, s') →
             s' = s ∧ ∃ msg, e = CommandError msg (Some 2)).
Proof.
  unfold ConfigExtensionsCommand.execute_remove, cbind, cgets, craise, cmodify.
  split; [|split].
  - intros m -> Hm Hnot.
    assert (ConfigExtensionsCommand.module_given (Some m) = Some m) as ->
      by (by destruct m).
    simpl. by rewrite bool_decide_eq_false_2.
  - by intros [->| ->].
  - intros e s'. destruct (ConfigExtensionsCommand.module_given module);
      simpl; [|intros [= <- <-]; by eauto].
    case_bool_decide; simpl; [discriminate|]. intros [= <- <-]. by eauto.
Qed.

End ExtensionProperties.

Lemma probing_stops_at_first_failing_api_witness :
  let good :=
    {| ConfigExtensionsCommand.api_cls := Schemas.open_api;
       ConfigExtensionsCommand.api_new := Ok Schemas.open_api |} in
  let broken :=
    {| ConfigExtensionsCommand.api_cls := Schemas.pinned_api;
       ConfigExtensionsCommand.api_new := Raise (ValueError "no token") |} in
  let manifest :=
    {| ConfigExtensionsCommand.signal_types := [];
       ConfigExtensionsCommand.content_types := [];
       ConfigExtensionsCommand.apis := [good; broken; good] |} in
  ConfigExtensionsCommand.execute_add
    (fun _ => Ok manifest) (fun _ _ => Ok tt) (fun _ => Ok tt)
    (Some "my.extension") Schemas.empty_settings
  = (Raise (CommandError
              "Not able to instanciate API pinned - throws no token" None),
     Schemas.empty_settings).
Proof.
  intros good broken manifest.
  apply (probing_stops_at_first_failing_api
           (fun _ => Ok manifest) (fun _ _ => Ok tt) (fun _ => Ok tt)
           (Some "my.extension") "my.extension" manifest [good] broken [good]
           (ValueError "no token") Schemas.empty_settings); try reflexivity.
  constructor; [by exists Schemas.open_api|constructor].
Defined.

Lemma add_then_remove_an_extension_witness :
  let manifest :=
    {| ConfigExtensionsCommand.signal_types := ["pdq"];
       ConfigExtensionsCommand.content_types := [];
       ConfigExtensionsCommand.apis :=
         [{| ConfigExtensionsCommand.api_cls := Schemas.open_api;
             ConfigExtensionsCommand.api_new := Ok Schemas.open_api |}] |} in
  ∃ s1,
    ConfigExtensionsCommand.execute_add
      (fun _ => Ok manifest) (fun _ _ => Ok tt) (fun _ => Ok tt)
      (Some "my.extension") Schemas.empty_settings = (Ok tt, s1)
    ∧ extensions (get_persistent_config s1) = {["my.extension"]} ∪ ∅.
Proof.
  intros manifest.
  destruct (add_then_remove_an_extension
              (fun _ => Ok manifest) (fun _ _ => Ok tt) (fun _ => Ok tt)
              (Some "my.extension") "my.extension" manifest [Schemas.open_api]
              Schemas.empty_settings)
    as (s1 & s2 & Hadd & Hext & _); try reflexivity.
  - constructor; [reflexivity|constructor].
  - exists s1. split; [exact Hadd|exact Hext].
Defined.

Lemma removing_an_unknown_extension_fails_witness :
  ConfigExtensionsCommand.execute_remove (Some "never.added")
    Schemas.empty_settings
  = (Raise (CommandError "You haven't added never.added" (Some 2)),
     Schemas.empty_settings).
Proof.
  destruct (removing_an_unknown_extension_fails (Some "never.added")
              Schemas.empty_settings) as [Hunknown _].
  apply (Hunknown "never.added"); [reflexivity|discriminate|].
  simpl. apply not_elem_of_empty.
Defined.

(** ** Importing a collaboration *)

Section ImportProperties.

Context {S : Type} `{CLISettings S}.
Variable fb_api : S → option ConfigThreatExchangeAPICommand.ThreatExchangeAPI.
Variable FBThreatExchangeCollabConfig : ConfigClass.

(** X13: an import persists something only for a name that is not taken:
    when it returns, it has stored one record, built by the config class
    from the remote group's name and the given id, and no record of that
    name existed; when a record of that name exists it fails with exit
    code 2; and whenever it fails the settings are as before. *)
Theorem import_never_overwrites privacy_group_id (s : S) :
  NoDup (map field_name (fields FBThreatExchangeCollabConfig)) →
  (∀ s', ConfigThreatExchangeAPICommand.execute_import fb_api
           FBThreatExchangeCollabConfig privacy_group_id s = (Ok tt, s') →
         ∃ api pg config,
           fb_api s = Some api
           ∧ ConfigThreatExchangeAPICommand.get_privacy_group api privacy_group_id
             = Ok pg
           ∧ get_collab s (VStr (ConfigThreatExchangeAPICommand.name pg)) = None
           ∧ s' = update_collab config s
           ∧ obj_class config = class_name FBThreatExchangeCollabConfig
           ∧ obj_attrs config !! "name"
             = Some (VStr (ConfigThreatExchangeAPICommand.name pg))
           ∧ obj_attrs config !! "privacy_group" = Some (VInt privacy_group_id))
  ∧ (∀ api pg existing,
       fb_api s = Some api →
       ConfigThreatExchangeAPICommand.get_privacy_group api privacy_group_id
       = Ok pg →
       get_collab s (VStr (ConfigThreatExchangeAPICommand.name pg))
       = Some existing →
       ConfigThreatExchangeAPICommand.execute_import fb_api
         FBThreatExchangeCollabConfig privacy_group_id s
       = (Raise (CommandError
                   ("A collaboration already exists with the name "
                    +:+ ConfigThreatExchangeAPICommand.name pg) (Some 2)), s))
  ∧ (∀ e s', ConfigThreatExchangeAPICommand.execute_import fb_api
               FBThreatExchangeCollabConfig privacy_group_id s = (Raise e, s') →
             s' = s).
Proof.
  intros Hnd.
  unfold ConfigThreatExchangeAPICommand.execute_import,
    ConfigThreatExchangeAPICommand.get_te_api, cbind, cgets, craise, cmodify,
    clift, cret.
  split; [|split].
  - intros s'. destruct (fb_api s) as [api|] eqn:Hapi; simpl; [|discriminate].
    destruct (ConfigThreatExchangeAPICommand.get_privacy_group api _)
      as [pg|] eqn:Hpg; simpl; [|discriminate].
    destruct (get_collab s _) as [existing|] eqn:Hget; simpl; [discriminate|].
    assert (Hkn : ({["name" := VStr (ConfigThreatExchangeAPICommand.name pg);
                     "privacy_group" := VInt privacy_group_id]}
                   : gmap string PyVal) !! "name"
                  = Some (VStr (ConfigThreatExchangeAPICommand.name pg))).
    { apply lookup_insert_eq. }
    assert (Hkp : ({["name" := VStr (ConfigThreatExchangeAPICommand.name pg);
                     "privacy_group" := VInt privacy_group_id]}
                   : gmap string PyVal) !! "privacy_group"
                  = Some (VInt privacy_group_id)).
    { rewrite lookup_insert_ne by discriminate. apply lookup_singleton_eq. }
    revert Hkn Hkp.
    generalize ({["name" := VStr (ConfigThreatExchangeAPICommand.name pg);
                  "privacy_group" := VInt privacy_group_id]}
                : gmap string PyVal).
    intros kw Hkn Hkp.
    destruct (dataclass_new FBThreatExchangeCollabConfig kw)
      as [config|] eqn:Hnew; [|discriminate].
    intros [= <-]. exists api, pg, config.
    split; [reflexivity|]. split; [exact Hpg|]. split; [exact Hget|].
    split; [reflexivity|].
    unfold dataclass_new in Hnew.
    destruct (List.find _ _) eqn:Hfind; [discriminate|].
    destruct (dataclass_fill _ _ _) as [attrs|] eqn:Hfill;
      [|discriminate].
    injection Hnew as <-. split; [reflexivity|].
    destruct (dataclass_fill_lookup _ _ _ _ Hnd Hfill) as [Hattrs _].
    assert (Hkey : ∀ k v, kw !! k = Some v →
                          obj_attrs {| obj_class :=
                                         class_name FBThreatExchangeCollabConfig;
                                       obj_attrs := attrs |} !! k = Some v).
    { intros k v Hk.
      assert (Hin : In k (map fst (map_to_list kw))).
      { apply in_map_iff. exists (k, v). split; [reflexivity|].
        by apply list_elem_of_In, elem_of_map_to_list. }
      pose proof (find_none _ _ Hfind k Hin) as Hnone.
      apply negb_false_iff in Hnone.
      apply is_init_field_name_spec in Hnone as (f & Hf & Hi & <-).
      cbn [obj_attrs]. by rewrite (Hattrs f Hf), Hi, Hk. }
    split; apply Hkey; [exact Hkn|exact Hkp].
  - intros api pg existing Hapi Hpg Hget. rewrite Hapi.
    cbn [fst snd]. rewrite Hpg. cbn. by rewrite Hget.
  - intros e s'. destruct (fb_api s) as [api|]; [|by intros [= _ <-]].
    cbn. destruct (ConfigThreatExchangeAPICommand.get_privacy_group api _)
      as [pg|]; [|by intros [= _ <-]].
    cbn. destruct (get_collab s _) as [existing|]; [by intros [= _ <-]|].
    destruct (dataclass_new _ _) as [config|]; [discriminate|].
    by intros [= _ <-].
Qed.

End ImportProperties.

Lemma import_never_overwrites_witness :
  let pg :=
    {| ConfigThreatExchangeAPICommand.id := 7;
       ConfigThreatExchangeAPICommand.name := "shared";
       ConfigThreatExchangeAPICommand.description := "";
       ConfigThreatExchangeAPICommand.threat_updates_enabled := true |} in
  let api :=
    {| ConfigThreatExchangeAPICommand.get_threat_privacy_groups_member := Ok [];
       ConfigThreatExchangeAPICommand.get_threat_privacy_groups_owner := Ok [];
       ConfigThreatExchangeAPICommand.get_privacy_group := fun _ => Ok pg |} in
  NoDup (map field_name (fields Schemas.pinned_cfg))
  ∧ ∃ config,
      ConfigThreatExchangeAPICommand.execute_import (fun _ => Some api)
        Schemas.pinned_cfg 7 Schemas.empty_settings
      = (Ok tt, update_collab config Schemas.empty_settings)
      ∧ obj_attrs config !! "name" = Some (VStr "shared")
      ∧ obj_attrs config !! "privacy_group" = Some (VInt 7).
Proof.
  intros pg api.
  assert (Hnd : NoDup (map field_name (fields Schemas.pinned_cfg))).
  { simpl. repeat (constructor; [rewrite ?elem_of_cons;
      intros Hin; repeat (destruct Hin as [Hin|Hin]; [discriminate Hin|]);
      by apply elem_of_nil in Hin|]). constructor. }
  split; [exact Hnd|].
  destruct (ConfigThreatExchangeAPICommand.execute_import (fun _ => Some api)
              Schemas.pinned_cfg 7 Schemas.empty_settings)
    as [[[]|e] s'] eqn:Hrun.
  - destruct (import_never_overwrites (fun _ => Some api) Schemas.pinned_cfg 7
                Schemas.empty_settings Hnd) as [Hok _].
    destruct (Hok s' Hrun)
      as (api' & pg' & config & Hapi & Hpg & _ & -> & _ & Hname & Hgroup).
    injection Hapi as <-. injection Hpg as <-.
    exists config. split; [reflexivity|]. split; [exact Hname|exact Hgroup].
  - vm_compute in Hrun. discriminate Hrun.
Defined.

(** ** Sorting, as the listings use it *)

Lemma string_compare_le_trans a b c :
  String.compare a b ≠ Gt → String.compare b c ≠ Gt → String.compare a c ≠ Gt.
Proof.
  revert b c. induction a as [|x a IH]; intros [|y b] [|z c]; simpl;
    try done.
  change (Ascii.compare x y) with (N.compare (N_of_ascii x) (N_of_ascii y)).
  change (Ascii.compare y z) with (N.compare (N_of_ascii y) (N_of_ascii z)).
  change (Ascii.compare x z) with (N.compare (N_of_ascii x) (N_of_ascii z)).
  destruct (N.compare_spec (N_of_ascii x) (N_of_ascii y)) as [Hxy|Hxy|Hxy];
    [|intros _|done];
    (destruct (N.compare_spec (N_of_ascii y) (N_of_ascii z)) as [Hyz|Hyz|Hyz];
     [| |done]).
  - rewrite Hxy, Hyz, N.compare_refl. apply IH.
  - intros _ _. rewrite Hxy. by apply N.compare_lt_iff in Hyz as ->.
  - intros _. rewrite <- Hyz. by apply N.compare_lt_iff in Hxy as ->.
  - intros _. assert (N_of_ascii x < N_of_ascii z)%N as Hxz by lia.
    by apply N.compare_lt_iff in Hxz as ->.
Qed.

Lemma string_leb_trans a b c :
  String.leb a b = true → String.leb b c = true → String.leb a c = true.
Proof.
  unfold String.leb. intros Hab Hbc.
  pose proof (string_compare_le_trans a b c) as Hac.
  destruct (String.compare a b); [| |done];
    (destruct (String.compare b c); [| |done]);
    by destruct (String.compare a c); [| |destruct Hac].
Qed.

Section SortedProperties.

Context {A : Type} (key : A → string).

Lemma insert_sorted_perm x l : Py.insert_sorted key x l ≡ₚ x :: l.
Proof.
  induction l as [|y l IH]; simpl; [done|].
  destruct (String.leb (key x) (key y)); [done|].
  rewrite IH. apply Permutation_swap.
Qed.

Lemma sorted_perm l : Py.sorted key l ≡ₚ l.
Proof.
  induction l as [|x l IH]; simpl; [done|].
  unfold Py.sorted in IH. by rewrite insert_sorted_perm, IH.
Qed.

Lemma insert_sorted_StronglySorted x l :
  StronglySorted (fun a b => String.leb (key a) (key b) = true) l →
  StronglySorted (fun a b => String.leb (key a) (key b) = true)
    (Py.insert_sorted key x l).
Proof.
  induction l as [|y l IH]; simpl; intros Hl.
  { repeat constructor. }
  apply StronglySorted_inv in Hl as [Hl Hy].
  destruct (String.leb (key x) (key y)) eqn:Hxy.
  - constructor; [by constructor|]. constructor; [done|].
    eapply Forall_impl; [exact Hy|]. simpl. intros z Hyz.
    by apply (string_leb_trans _ (key y)).
  - constructor; [by apply IH|].
    rewrite insert_sorted_perm. constructor; [|done].
    destruct (String.leb_total (key x) (key y)) as [Hle|Hle]; [|done].
    by rewrite Hle in Hxy.
Qed.

Lemma sorted_StronglySorted l :
  StronglySorted (fun a b => String.leb (key a) (key b) = true)
    (Py.sorted key l).
Proof.
  induction l as [|x l IH]; simpl; [constructor|].
  by apply insert_sorted_StronglySorted.
Qed.

Lemma filter_StronglySorted (p : A → bool) l :
  StronglySorted (fun a b => String.leb (key a) (key b) = true) l →
  StronglySorted (fun a b => String.leb (key a) (key b) = true)
    (List.filter p l).
Proof.
  induction 1 as [|x l Hl IH Hx]; simpl; [constructor|].
  destruct (p x); [|done]. constructor; [done|].
  apply List.Forall_forall. intros y [Hy _]%filter_In.
  by apply (proj1 (List.Forall_forall _ _) Hx).
Qed.

End SortedProperties.

(** X14: [config api] prints every API name of the settings, each as
    often as it occurs there, in ascending order, and leaves the settings
    as they are. *)
Theorem api_listing_is_the_sorted_names {S : Type} `{CLISettings S} (s : S) :
  ∃ lines,
    ConfigAPICommand.execute s = (Ok lines, s)
    ∧ lines ≡ₚ map get_name (apis_get_all s)
    ∧ StronglySorted (fun a b => String.leb a b = true) lines.
Proof.
  eexists. split; [reflexivity|]. split.
  - apply sorted_perm.
  - apply (sorted_StronglySorted (fun name => name)).
Qed.

(** ** The ThreatExchange listing *)

Lemma dict_set_keys {V : Type} k (v : V) d :
  NoDup (map fst d) → NoDup (map fst (Py.dict_set k v d)).
Proof.
  induction d as [|[k' v'] d IH]; simpl; intros Hnd.
  { repeat constructor. apply not_elem_of_nil. }
  apply NoDup_cons in Hnd as [Hk' Hnd].
  destruct (Z.eqb_spec k k') as [->|Hne]; simpl.
  - by apply NoDup_cons.
  - apply NoDup_cons. split; [|by apply IH].
    clear IH Hnd. induction d as [|[k2 v2] d IH]; simpl.
    + rewrite elem_of_cons. intros [?|[]%elem_of_nil]. by apply Hne.
    + simpl in Hk'. apply not_elem_of_cons in Hk' as [Hk2 Hk'].
      destruct (Z.eqb_spec k k2) as [->|Hne2]; simpl;
        apply not_elem_of_cons; split; try done. by apply IH.
Qed.

Lemma dict_set_elem {V : Type} k (v : V) d k' v' :
  NoDup (map fst d) →
  (k', v') ∈ Py.dict_set k v d
  ↔ (k' = k ∧ v' = v) ∨ (k' ≠ k ∧ (k', v') ∈ d).
Proof.
  induction d as [|[k2 v2] d IH]; simpl; intros Hnd.
  { rewrite list_elem_of_singleton. split.
    - intros [= -> ->]. by left.
    - intros [[-> ->]|[_ []%elem_of_nil]]. done. }
  apply NoDup_cons in Hnd as [Hk2 Hnd].
  destruct (Z.eqb_spec k k2) as [->|Hne]; rewrite !elem_of_cons.
  - split.
    + intros [[= -> ->]|Hin]; [by left|]. right. split; [|by right].
      intros ->. apply Hk2. apply list_elem_of_fmap. by exists (k2, v').
    + intros [[-> ->]|[Hne [[= -> ->]|Hin]]]; [by left|done|by right].
  - rewrite (IH Hnd). split.
    + intros [[= -> ->]|[[-> ->]|[Hne' Hin]]].
      * right. split; [done|by left].
      * by left.
      * right. split; [done|by right].
    + intros [[-> ->]|[Hne' [[= -> ->]|Hin]]].
      * right. by left.
      * by left.
      * right. right. by split.
Qed.

Lemma unique_privacy_groups_snoc member owner :
  ConfigThreatExchangeAPICommand.unique_privacy_groups member owner
  = fold_right (fun pg d =>
                  Py.dict_set (ConfigThreatExchangeAPICommand.id pg) pg d)
      [] (rev (member ++ owner)%list).
Proof.
  unfold ConfigThreatExchangeAPICommand.unique_privacy_groups.
  by rewrite <- fold_left_rev_right.
Qed.

Lemma unique_privacy_groups_spec member owner :
  NoDup (map fst
           (ConfigThreatExchangeAPICommand.unique_privacy_groups member owner))
  ∧ ∀ k pg,
      (k, pg) ∈ ConfigThreatExchangeAPICommand.unique_privacy_groups member owner
      ↔ k = ConfigThreatExchangeAPICommand.id pg
        ∧ List.find (fun g => ConfigThreatExchangeAPICommand.id g
                              =? ConfigThreatExchangeAPICommand.id pg)
            (rev (member ++ owner)%list) = Some pg.
Proof.
  rewrite unique_privacy_groups_snoc.
  induction (rev (member ++ owner)%list) as [|g l [IHnd IH]]; simpl.
  { split; [constructor|]. intros k pg. split; [by intros []%elem_of_nil|].
    by intros [_ [=]]. }
  split; [by apply dict_set_keys|]. intros k pg.
  rewrite (dict_set_elem _ _ _ _ _ IHnd), IH.
  destruct (Z.eqb_spec (ConfigThreatExchangeAPICommand.id g)
              (ConfigThreatExchangeAPICommand.id pg)) as [Heq|Hne].
  - split.
    + intros [[-> ->]|[Hne [-> _]]]; [done|]. by destruct Hne.
    + intros [-> [= ->]]. by left.
  - split.
    + intros [[-> ->]|[_ [-> Hfind]]]; [done|done].
    + intros [-> Hfind]. right. split; [|done]. by intros Heq; apply Hne.
Qed.

(** X15: a privacy group gets a line exactly when it has threat updates
    enabled and is the last report of its id, the owner's reports coming
    after the member's; so an owner's report replaces a member's report of
    the same group, also when that hides the group. *)
Theorem listed_groups_are_the_last_enabled_reports member owner pg :
  pg ∈ ConfigThreatExchangeAPICommand.listed_groups member owner
  ↔ ConfigThreatExchangeAPICommand.threat_updates_enabled pg = true
    ∧ List.find (fun g => ConfigThreatExchangeAPICommand.id g
                          =? ConfigThreatExchangeAPICommand.id pg)
        (rev (member ++ owner)%list) = Some pg.
Proof.
  unfold ConfigThreatExchangeAPICommand.listed_groups.
  destruct (unique_privacy_groups_spec member owner) as [_ Hspec].
  rewrite list_elem_of_In, filter_In, <- list_elem_of_In, sorted_perm,
    list_elem_of_fmap.
  split.
  - intros [([k g] & -> & Hin) Hen]. split; [done|].
    by apply Hspec in Hin as [_ Hfind].
  - intros [Hen Hfind]. split; [|done].
    exists (ConfigThreatExchangeAPICommand.id pg, pg). split; [done|].
    by apply Hspec.
Qed.

(** X16: the groups are printed in ascending order of their names, and
    no id is printed twice. *)
Theorem listed_groups_sorted_without_repeats member owner :
  StronglySorted
    (fun a b => String.leb (ConfigThreatExchangeAPICommand.name a)
                  (ConfigThreatExchangeAPICommand.name b) = true)
    (ConfigThreatExchangeAPICommand.listed_groups member owner)
  ∧ NoDup (map ConfigThreatExchangeAPICommand.id
             (ConfigThreatExchangeAPICommand.listed_groups member owner)).
Proof.
  unfold ConfigThreatExchangeAPICommand.listed_groups. split.
  - apply filter_StronglySorted, sorted_StronglySorted.
  - destruct (unique_privacy_groups_spec member owner) as [Hnd Hspec].
    assert (Hids : map ConfigThreatExchangeAPICommand.id
                     (map snd (ConfigThreatExchangeAPICommand.unique_privacy_groups
                                 member owner))
                   = map fst (ConfigThreatExchangeAPICommand.unique_privacy_groups
                                member owner)).
    { rewrite map_map. apply map_ext_in. intros [k g] Hin%list_elem_of_In.
      by apply Hspec in Hin as [-> _]. }
    rewrite <- Hids in Hnd.
    set (groups := map snd _) in *.
    apply (sublist_NoDup _
             (map ConfigThreatExchangeAPICommand.id
                (Py.sorted ConfigThreatExchangeAPICommand.name groups))).
    { assert (Hp : map ConfigThreatExchangeAPICommand.id
                     (Py.sorted ConfigThreatExchangeAPICommand.name groups)
                   ≡ₚ map ConfigThreatExchangeAPICommand.id groups)
        by apply Permutation_map, sorted_perm.
      by rewrite Hp. }
    clear. induction (Py.sorted _ _) as [|x l IH]; simpl; [constructor|].
    destruct (ConfigThreatExchangeAPICommand.threat_updates_enabled x);
      simpl; by constructor.
Qed.

(** ** One line of the listing *)

Lemma string_length_app a b :
  String.length (a +:+ b) = (String.length a + String.length b)%nat.
Proof. induction a as [|c a IH]; simpl; [done|]. by rewrite IH. Qed.

Lemma string_length_substring0 n s :
  String.length (String.substring 0 n s) = Nat.min n (String.length s).
Proof.
  revert n. induction s as [|c s IH]; intros [|n]; simpl; try done.
  by rewrite IH.
Qed.

Lemma string_length_replace a b s :
  String.length (str_replace a b s) = String.length s.
Proof. induction s as [|c s IH]; simpl; [done|]. by rewrite IH. Qed.

Lemma chars_app a b :
  list_ascii_of_string (a +:+ b)
  = (list_ascii_of_string a ++ list_ascii_of_string b)%list.
Proof. induction a as [|c a IH]; simpl; [done|]. by rewrite IH. Qed.

Lemma chars_substring0 n s c :
  c ∈ list_ascii_of_string (String.substring 0 n s) →
  c ∈ list_ascii_of_string s.
Proof.
  revert n. induction s as [|x s IH]; intros [|n]; simpl;
    try by intros []%elem_of_nil.
  rewrite !elem_of_cons. intros [->|Hin]; [by left|]. right. by apply (IH n).
Qed.

Lemma chars_replace a b s c :
  a ≠ b → c ∈ list_ascii_of_string (str_replace a b s) → c ≠ a.
Proof.
  intros Hab. induction s as [|x s IH]; simpl; [by intros []%elem_of_nil|].
  rewrite elem_of_cons. intros [->|Hin]; [|by apply IH].
  destruct (Ascii.eqb_spec x a); [by intros <-|done].
Qed.

(** X17: a printed line never holds a line break, whatever the group's
    name and description and whatever the width. *)
Theorem format_line_is_one_line max_width pg :
  ascii_of_nat 10
  ∉ list_ascii_of_string
      (ConfigThreatExchangeAPICommand.format_line max_width pg).
Proof.
  unfold ConfigThreatExchangeAPICommand.format_line. cbv zeta.
  set (line := str_replace _ _ _).
  assert (Hline : ∀ c, c ∈ list_ascii_of_string line → c ≠ ascii_of_nat 10).
  { intros c. by apply chars_replace. }
  destruct (_ <? _).
  - rewrite chars_app, elem_of_app. intros [Hin|Hin].
    + by apply chars_substring0, Hline in Hin.
    + simpl in Hin. rewrite !elem_of_cons in Hin.
      by destruct Hin as [?|[?|[?|[]%elem_of_nil]]].
  - intros Hin. by apply Hline in Hin.
Qed.

(** X18: on a terminal of at least three columns a printed line is never
    wider than the terminal; a line that had to be cut is exactly as wide
    and ends in three dots. *)
Theorem format_line_fits_the_terminal max_width pg :
  3 ≤ max_width →
  Z.of_nat (String.length
              (ConfigThreatExchangeAPICommand.format_line max_width pg))
  ≤ max_width
  ∧ (max_width
     < Z.of_nat (String.length
                   (pretty (ConfigThreatExchangeAPICommand.id pg) +:+ " "
                    +:+ ConfigThreatExchangeAPICommand.name pg +:+ " - "
                    +:+ ConfigThreatExchangeAPICommand.description pg)) →
     Z.of_nat (String.length
                 (ConfigThreatExchangeAPICommand.format_line max_width pg))
     = max_width
     ∧ ∃ kept, ConfigThreatExchangeAPICommand.format_line max_width pg
               = kept +:+ "...").
Proof.
  intros Hw. unfold ConfigThreatExchangeAPICommand.format_line. cbv zeta.
  rewrite string_length_replace.
  set (text := pretty _ +:+ _). set (line := str_replace _ _ text).
  assert (Hlen : String.length line = String.length text)
    by apply string_length_replace.
  destruct (Z.ltb_spec max_width (Z.of_nat (String.length text)))
    as [Hlong|Hfits].
  - assert (Hcut : Z.of_nat (String.length
                               (Py.slice_to line (max_width - 3) +:+ "..."))
                   = max_width).
    { unfold Py.slice_to. rewrite string_length_app, string_length_substring0.
      destruct (Z.ltb_spec (max_width - 3) 0) as [?|_]; [lia|].
      rewrite Hlen. simpl String.length. lia. }
    split; [lia|]. intros _. split; [done|]. by eexists.
  - split; [lia|]. intros Hlong. lia.
Qed.

(** X19: on a terminal narrower than three columns every printed line is
    wider than the terminal: the cut is taken from the end of the line
    and the three dots are added to it. *)
Theorem format_line_overflows_a_narrow_terminal max_width pg :
  max_width < 3 →
  max_width
  < Z.of_nat (String.length
                (ConfigThreatExchangeAPICommand.format_line max_width pg))
  ∧ ConfigThreatExchangeAPICommand.format_line max_width pg
    = Py.slice_to
        (str_replace (ascii_of_nat 10) " "
           (pretty (ConfigThreatExchangeAPICommand.id pg) +:+ " "
            +:+ ConfigThreatExchangeAPICommand.name pg +:+ " - "
            +:+ ConfigThreatExchangeAPICommand.description pg))
        (max_width - 3) +:+ "...".
Proof.
  intros Hw. unfold ConfigThreatExchangeAPICommand.format_line. cbv zeta.
  rewrite string_length_replace.
  set (text := pretty _ +:+ _).
  assert (Hlen : (4 ≤ String.length text)%nat).
  { unfold text. rewrite !string_length_app. simpl String.length. lia. }
  destruct (Z.ltb_spec max_width (Z.of_nat (String.length text)))
    as [_|Hfits]; [|lia].
  split; [|done]. rewrite string_length_app. simpl String.length. lia.
Qed.

Section ListingProperties.

Context {S : Type} `{CLISettings S}.
Variable fb_api : S → option ConfigThreatExchangeAPICommand.ThreatExchangeAPI.
Variable os_get_terminal_size : Result Z.

(** X20: the listing of remote collaborations reads only: whatever it
    returns, the settings are as before.  When it returns, both remote
    calls and the query of the terminal's width returned, and it has
    printed the line of every listed group at that width.  It fails only
    when no ThreatExchange API is configured, a remote call raises, or the
    width of the terminal cannot be had; in particular it prints nothing
    when standard output is no terminal. *)
Theorem list_collabs_only_reads (s : S) r s' :
  ConfigThreatExchangeAPICommand.execute_list_collabs fb_api
    os_get_terminal_size s = (r, s') →
  s' = s
  ∧ (∀ lines, r = Ok lines →
       ∃ api member owner max_width,
         fb_api s = Some api
         ∧ ConfigThreatExchangeAPICommand.get_threat_privacy_groups_member api
           = Ok member
         ∧ ConfigThreatExchangeAPICommand.get_threat_privacy_groups_owner api
           = Ok owner
         ∧ os_get_terminal_size = Ok max_width
         ∧ lines
           = map (ConfigThreatExchangeAPICommand.format_line max_width)
               (ConfigThreatExchangeAPICommand.listed_groups member owner))
  ∧ (∀ e, r = Raise e →
          (fb_api s = None ∧ e = AssertionError "")
          ∨ ∃ api,
              fb_api s = Some api
              ∧ (ConfigThreatExchangeAPICommand.get_threat_privacy_groups_member
                   api = Raise e
                 ∨ ConfigThreatExchangeAPICommand.get_threat_privacy_groups_owner
                     api = Raise e
                 ∨ os_get_terminal_size = Raise e))
  ∧ (∀ e, os_get_terminal_size = Raise e → ∃ e', r = Raise e').
Proof.
  unfold ConfigThreatExchangeAPICommand.execute_list_collabs,
    ConfigThreatExchangeAPICommand.get_te_api, cbind, cgets, craise, clift,
    cret.
  destruct (fb_api s) as [api|] eqn:Hapi; cbn.
  - destruct (ConfigThreatExchangeAPICommand.get_threat_privacy_groups_member
                api) as [m|e1] eqn:Hm; cbn.
    + destruct (ConfigThreatExchangeAPICommand.get_threat_privacy_groups_owner
                  api) as [o|e2] eqn:Ho; cbn.
      * destruct os_get_terminal_size as [w|e3] eqn:Hw; cbn.
        -- intros [= <- <-]. split; [done|]. split; [|split; discriminate].
           intros lines [= <-]. by exists api, m, o, w.
        -- intros [= <- <-]. split; [done|]. split; [discriminate|]. split.
           ++ intros e [= <-]. right. exists api. split; [done|].
              right. by right.
           ++ intros e _. by eexists.
      * intros [= <- <-]. split; [done|]. split; [discriminate|]. split.
        -- intros e [= <-]. right. exists api. split; [done|].
           right. by left.
        -- intros e _. by eexists.
    + intros [= <- <-]. split; [done|]. split; [discriminate|]. split.
      * intros e [= <-]. right. exists api. split; [done|]. by left.
      * intros e _. by eexists.
  - intros [= <- <-]. split; [done|]. split; [discriminate|]. split.
    + intros e [= <-]. by left.
    + intros e _. by eexists.
Qed.

End ListingProperties.

Lemma listed_groups_are_the_last_enabled_reports_witness :
  let as_member :=
    {| ConfigThreatExchangeAPICommand.id := 7;
       ConfigThreatExchangeAPICommand.name := "shared";
       ConfigThreatExchangeAPICommand.description := "";
       ConfigThreatExchangeAPICommand.threat_updates_enabled := true |} in
  let as_owner :=
    {| ConfigThreatExchangeAPICommand.id := 7;
       ConfigThreatExchangeAPICommand.name := "shared";
       ConfigThreatExchangeAPICommand.description := "";
       ConfigThreatExchangeAPICommand.threat_updates_enabled := false |} in
  (as_member
   ∉ ConfigThreatExchangeAPICommand.listed_groups [as_member] [as_owner])
  ∧ (as_member
     ∈ ConfigThreatExchangeAPICommand.listed_groups [as_owner] [as_member]).
Proof.
  intros as_member as_owner. split.
  - intros Hin.
    apply (listed_groups_are_the_last_enabled_reports [as_member] [as_owner])
      in Hin as [_ Hfind].
    discriminate Hfind.
  - apply (listed_groups_are_the_last_enabled_reports [as_owner] [as_member]).
    split; reflexivity.
Defined.

Lemma format_line_fits_the_terminal_witness :
  let pg :=
    {| ConfigThreatExchangeAPICommand.id := 7;
       ConfigThreatExchangeAPICommand.name := "shared";
       ConfigThreatExchangeAPICommand.description := "hashes of known media";
       ConfigThreatExchangeAPICommand.threat_updates_enabled := true |} in
  3 ≤ 12
  ∧ Z.of_nat (String.length (ConfigThreatExchangeAPICommand.format_line 12 pg))
    = 12.
Proof.
  intros pg. split; [lia|].
  destruct (format_line_fits_the_terminal 12 pg) as [_ Hcut]; [lia|].
  apply Hcut. vm_compute. reflexivity.
Defined.

Lemma format_line_overflows_a_narrow_terminal_witness :
  let pg :=
    {| ConfigThreatExchangeAPICommand.id := 7;
       ConfigThreatExchangeAPICommand.name := "shared";
       ConfigThreatExchangeAPICommand.description := "hashes";
       ConfigThreatExchangeAPICommand.threat_updates_enabled := true |} in
  0 < 3
  ∧ 0 < Z.of_nat (String.length
                    (ConfigThreatExchangeAPICommand.format_line 0 pg)).
Proof.
  intros pg. split; [lia|].
  destruct (format_line_overflows_a_narrow_terminal 0 pg) as [Hwide _]; [lia|].
  exact Hwide.
Defined.

Lemma list_collabs_only_reads_witness :
  let api :=
    {| ConfigThreatExchangeAPICommand.get_threat_privacy_groups_member := Ok [];
       ConfigThreatExchangeAPICommand.get_threat_privacy_groups_owner := Ok [];
       ConfigThreatExchangeAPICommand.get_privacy_group :=
         fun _ => Raise (ValueError "no such group") |} in
  let no_terminal := OtherException "Inappropriate ioctl for device" in
  ConfigThreatExchangeAPICommand.execute_list_collabs (fun _ => Some api)
    (Raise no_terminal) Schemas.empty_settings
  = (Raise no_terminal, Schemas.empty_settings)
  ∧ ∃ e', Raise (A := list string) no_terminal = Raise e'.
Proof.
  intros api no_terminal. split; [reflexivity|].
  destruct (list_collabs_only_reads (fun _ => Some api) (Raise no_terminal)
              Schemas.empty_settings (Raise no_terminal)
              Schemas.empty_settings eq_refl)
    as (_ & _ & _ & Hpipe).
  exact (Hpipe no_terminal eq_refl).
Defined.
